(** * Review lifecycle and rating aggregation of the games catalogue backend

    A shallow embedding of [backend/utils/ratingCalculator.js]
    ([updateGameRating]) and of the four mutating handlers of
    [backend/controllers/reviewController.js] ([addReview], [updateReview],
    [deleteReview], [deleteReviewByAdmin]), followed by the properties of the
    rating aggregate that the specification states about them.

    Modelling conventions.
    - JavaScript values are the scalars a JSON request body or a stored
      document field can hold; a missing field reads as [VUndef].
    - Numbers are [NaN], the two infinities, or the rational that a finite
      binary64 number is.  What a division, the reading of a numeral
      ([ToNumber], [parseInt], [parseFloat]) and [toFixed] give is rounded to
      the nearest binary64 number, ties to even ([round64]).  The sum of the
      ratings is taken exactly: so is it in binary64 for the integers that
      the handlers store, as long as it stays below 2^53
      ([aggregate64_integral]).
    - Strings are the bytes of their UTF-8 encoding.
    - The identifiers [userId], [gameId] and [reviewId] are strings.
    - The Firestore collection [reviews] and the Realtime Database subtree
      [games] are finite maps; every store round trip may throw, as scheduled
      by the fault plan carried by the world. *)

From Stdlib Require Import Ascii String ZArith QArith Qround Qabs Qreduction
  Qpower Lia Lqa.
From stdpp Require Import gmap strings list fin_maps sorting.

Open Scope string_scope.

(** ** JavaScript values *)

Module JS.

Inductive number : Type :=
| NaN
| PInf
| NInf
| Fin (q : Q).

Inductive value : Type :=
| VUndef
| VNull
| VBool (b : bool)
| VNum (n : number)
| VStr (s : string).

Definition num (z : Z) : value := VNum (Fin (inject_Z z)).

(** [ToBoolean]: the test behind [!x], [x && y], [x || y] and [x ? a : b]. *)
Definition ToBoolean (v : value) : bool :=
  match v with
  | VUndef | VNull => false
  | VBool b => b
  | VNum NaN => false
  | VNum (Fin q) => negb (Qeq_bool q 0)
  | VNum _ => true
  | VStr s => negb (String.eqb s "")
  end.

(** [x || null] *)
Definition or_null (v : value) : value :=
  if ToBoolean v then v else VNull.

(** [typeof x === 'number'] *)
Definition is_number (v : value) : bool :=
  match v with VNum _ => true | _ => false end.

(** *** Numeric comparison and arithmetic *)

Definition Qlt_bool (a b : Q) : bool := negb (Qle_bool b a).

Definition num_lt (x y : number) : bool :=
  match x, y with
  | NaN, _ | _, NaN => false
  | NInf, NInf => false
  | NInf, _ => true
  | _, NInf => false
  | PInf, _ => false
  | _, PInf => true
  | Fin a, Fin b => Qlt_bool a b
  end.

(** [x <= y] is [!(y < x)] unless either side is [NaN]. *)
Definition num_le (x y : number) : bool :=
  match x, y with
  | NaN, _ | _, NaN => false
  | _, _ => negb (num_lt y x)
  end.

Definition num_eq (x y : number) : bool :=
  match x, y with
  | PInf, PInf | NInf, NInf => true
  | Fin a, Fin b => Qeq_bool a b
  | _, _ => false
  end.

Definition num_add (x y : number) : number :=
  match x, y with
  | NaN, _ | _, NaN => NaN
  | PInf, NInf | NInf, PInf => NaN
  | PInf, _ | _, PInf => PInf
  | NInf, _ | _, NInf => NInf
  | Fin a, Fin b => Fin (a + b)
  end.

Definition num_neg (x : number) : number :=
  match x with
  | NaN => NaN
  | PInf => NInf
  | NInf => PInf
  | Fin a => Fin (- a)
  end.

(** *** Rounding to binary64

    [floor_log2 q] is the exponent of a positive [q]: the [e] with
    [2^e <= q < 2^(e+1)].  [round64 q] is the binary64 number nearest to
    [q]: of the two multiples of [2^(e-52)] around [q] (of [2^-1074] for a
    subnormal) the nearer, the one with an even multiplier when they are
    equally near; an infinity from [2^1024] on. *)

Definition floor_log2 (q : Q) : Z :=
  let k := (Z.log2 (Qnum q) - Z.log2 (Z.pos (Qden q)))%Z in
  if Qle_bool (2 ^ k) q then k else (k - 1)%Z.

Definition round_half_even (x : Q) : Z :=
  let f := Qfloor x in
  match (x - inject_Z f ?= 1 # 2)%Q with
  | Lt => f
  | Gt => (f + 1)%Z
  | Eq => if Z.even f then f else (f + 1)%Z
  end.

Definition round64_pos (q : Q) : number :=
  let e := Z.max (floor_log2 q - 52) (- 1074) in
  let r := (inject_Z (round_half_even (q / 2 ^ e)) * 2 ^ e)%Q in
  if Qle_bool (2 ^ 1024) r then PInf else Fin (Qred r).

Definition round64 (q : Q) : number :=
  let q := Qred q in
  match (q ?= 0)%Q with
  | Eq => Fin 0
  | Gt => round64_pos q
  | Lt => num_neg (round64_pos (- q))
  end.

(** [x + y] as binary64 has it: the sum, rounded. *)
Definition num_add64 (x y : number) : number :=
  match num_add x y with
  | Fin q => round64 q
  | s => s
  end.

Definition num_div (x y : number) : number :=
  match x, y with
  | NaN, _ | _, NaN => NaN
  | Fin a, Fin b =>
      if Qeq_bool b 0
      then (if Qeq_bool a 0 then NaN else if Qlt_bool a 0 then NInf else PInf)
      else round64 (a / b)
  | Fin _, _ => Fin 0
  | PInf, Fin b => if Qlt_bool b 0 then NInf else PInf
  | NInf, Fin b => if Qlt_bool b 0 then PInf else NInf
  | _, _ => NaN
  end.

(** Strict equality [x === y]; [x !== y] is its negation. *)
Definition strict_eq (x y : value) : bool :=
  match x, y with
  | VUndef, VUndef | VNull, VNull => true
  | VBool a, VBool b => Bool.eqb a b
  | VNum a, VNum b => num_eq a b
  | VStr a, VStr b => String.eqb a b
  | _, _ => false
  end.

Definition strict_neq (x y : value) : bool := negb (strict_eq x y).

(** *** Numeric strings

    [StringToNumber], the string case of [parseInt], and [parseFloat] further
    down.  White space is the WhiteSpace and LineTerminator code points, in
    their UTF-8 encoding: of one byte (tab to carriage return, space), of two
    (U+00A0) or of three (U+1680, U+2000 to U+200A, U+2028, U+2029, U+202F,
    U+205F, U+3000, U+FEFF). *)

Definition isWhiteSpace (c : ascii) : bool :=
  let n := N_of_ascii c in
  ((9 <=? n) && (n <=? 13))%N || (n =? 32)%N.

Definition isWhiteSpace2 (c1 c2 : ascii) : bool :=
  ((N_of_ascii c1 =? 194) && (N_of_ascii c2 =? 160))%N.

Definition isWhiteSpace3 (c1 c2 c3 : ascii) : bool :=
  let '(a, b, c) := (N_of_ascii c1, N_of_ascii c2, N_of_ascii c3) in
  ((a =? 225) && (b =? 154) && (c =? 128)
   || (a =? 226) && (b =? 128)
      && ((128 <=? c) && (c <=? 138) || (c =? 168) || (c =? 169)
          || (c =? 175))
   || (a =? 226) && (b =? 129) && (c =? 159)
   || (a =? 227) && (b =? 128) && (c =? 128)
   || (a =? 239) && (b =? 187) && (c =? 191))%N.

(** The white space that starts [l] removed; with [backwards], [l] is a
    string read from its end. *)
Fixpoint trimFrom (backwards : bool) (l : list ascii) : list ascii :=
  match l with
  | c1 :: l1 =>
      if isWhiteSpace c1 then trimFrom backwards l1 else
      match l1 with
      | c2 :: l2 =>
          if (if backwards then isWhiteSpace2 c2 c1 else isWhiteSpace2 c1 c2)
          then trimFrom backwards l2 else
          match l2 with
          | c3 :: l3 =>
              if (if backwards then isWhiteSpace3 c3 c2 c1
                  else isWhiteSpace3 c1 c2 c3)
              then trimFrom backwards l3 else l
          | [] => l
          end
      | [] => l
      end
  | [] => []
  end.

Definition trimStart (l : list ascii) : list ascii := trimFrom false l.

Definition trim (l : list ascii) : list ascii :=
  rev (trimFrom true (rev (trimStart l))).

Definition digitValue (c : ascii) : option Z :=
  let n := Z.of_N (N_of_ascii c) in
  if ((48 <=? n) && (n <=? 57))%Z then Some (n - 48)%Z
  else if ((97 <=? n) && (n <=? 122))%Z then Some (n - 87)%Z
  else if ((65 <=? n) && (n <=? 90))%Z then Some (n - 55)%Z
  else None.

(** The longest prefix of radix-[R] digits: its value (continuing [acc]), its
    length (continuing [n]) and what follows it. *)
Fixpoint digits (R : Z) (acc : Z) (n : nat) (l : list ascii)
  : Z * nat * list ascii :=
  match l with
  | c :: l' =>
      match digitValue c with
      | Some d => if (d <? R)%Z then digits R (acc * R + d)%Z (S n) l'
                  else (acc, n, l)
      | None => (acc, n, l)
      end
  | [] => (acc, n, [])
  end.

Definition pow10 (e : Z) : Q :=
  if (0 <=? e)%Z then inject_Z (10 ^ e)
  else / inject_Z (10 ^ (- e)).

(** An optional sign: [true] stands for [-]. *)
Definition sign (l : list ascii) : bool * list ascii :=
  match l with
  | "+"%char :: l' => (false, l')
  | "-"%char :: l' => (true, l')
  | _ => (false, l)
  end.

Definition signed (neg : bool) (x : number) : number :=
  if neg then num_neg x else x.

(** ExponentPart, or nothing, up to the end of the literal. *)
Definition exponent (l : list ascii) : option Z :=
  match l with
  | [] => Some 0%Z
  | c :: l' =>
      if Ascii.eqb c "e" || Ascii.eqb c "E" then
        let '(neg, l'') := sign l' in
        match digits 10 0 0 l'' with
        | (_, O, _) => None
        | (e, _, []) => Some (if neg then - e else e)%Z
        | _ => None
        end
      else None
  end.

(** StrUnsignedDecimalLiteral *)
Definition unsignedDecimal (l : list ascii) : number :=
  if String.eqb (string_of_list_ascii l) "Infinity" then PInf else
  let '(i, ni, r1) := digits 10 0 0 l in
  let '(dot, r2) := match r1 with
                    | "."%char :: r => (true, r)
                    | _ => (false, r1)
                    end in
  let '(f, nf, r3) := if dot then digits 10 0 0 r2 else (0%Z, O, r2) in
  match ni, nf with
  | O, O => NaN
  | _, _ =>
      match exponent r3 with
      | Some e =>
          round64
            ((inject_Z i + inject_Z f * pow10 (- Z.of_nat nf)) * pow10 e)
      | None => NaN
      end
  end.

(** NonDecimalIntegerLiteral: [0x], [0o] or [0b] and at least one digit. *)
Definition nonDecimal (R : Z) (l : list ascii) : number :=
  match digits R 0 0 l with
  | (_, O, _) => NaN
  | (v, _, []) => round64 (inject_Z v)
  | _ => NaN
  end.

Definition StringToNumber (s : string) : number :=
  match trim (list_ascii_of_string s) with
  | [] => Fin 0
  | "0"%char :: c :: l =>
      if Ascii.eqb c "x" || Ascii.eqb c "X" then nonDecimal 16 l
      else if Ascii.eqb c "o" || Ascii.eqb c "O" then nonDecimal 8 l
      else if Ascii.eqb c "b" || Ascii.eqb c "B" then nonDecimal 2 l
      else unsignedDecimal ("0"%char :: c :: l)
  | l => let '(neg, l') := sign l in signed neg (unsignedDecimal l')
  end.

Definition ToNumber (v : value) : number :=
  match v with
  | VUndef => NaN
  | VNull => Fin 0
  | VBool b => if b then Fin 1 else Fin 0
  | VNum n => n
  | VStr s => StringToNumber s
  end.

(** [x < n] and [x > n] against a number literal [n]. *)
Definition lt (x : value) (n : Q) : bool := num_lt (ToNumber x) (Fin n).
Definition gt (x : value) (n : Q) : bool := num_lt (Fin n) (ToNumber x).

(** [parseInt(s)] without a radix. *)
Definition parseInt_string (s : string) : number :=
  let '(neg, l) := sign (trimStart (list_ascii_of_string s)) in
  let '(R, l') :=
    match l with
    | "0"%char :: c :: r =>
        if Ascii.eqb c "x" || Ascii.eqb c "X" then (16%Z, r) else (10%Z, l)
    | _ => (10%Z, l)
    end in
  match digits R 0 0 l' with
  | (_, O, _) => NaN
  | (v, _, _) => signed neg (round64 (inject_Z v))
  end.

(** [parseInt(x)] first takes [ToString(x)].  A finite number prints in
    positional notation when [1e-6 <= |x| < 1e21], so that [parseInt] gives its
    integer part; that is the case of every number the handlers pass, which
    has gone through the range check.  Numbers printed in exponent notation
    are outside the model.  [undefined], [null], booleans, [NaN] and the
    infinities print as words. *)
Definition parseInt (v : value) : number :=
  match v with
  | VStr s => parseInt_string s
  | VNum (Fin q) => Fin (inject_Z (Z.quot (Qnum q) (Z.pos (Qden q))))
  | _ => NaN
  end.

(** [parseFloat(x.toFixed(1))].  [toFixed(1)] takes the integer [n] with
    [n / 10] nearest to [|x|], the larger one of two, and prints [n / 10] with
    the sign of [x]; [parseFloat] reads the binary64 number nearest to it.
    From [1e21] on [toFixed] prints the number itself, as it does [NaN] and
    the infinities, and [parseFloat] reads the number back. *)
Definition toFixed1 (x : number) : number :=
  match x with
  | Fin q =>
      if Qle_bool (inject_Z (10 ^ 21)) (Qabs q) then Fin q
      else if Qle_bool 0 q
           then round64 (Qfloor (q * 10 + (1 # 2)) # 10)
           else num_neg (round64 (Qfloor (- q * 10 + (1 # 2)) # 10))
  | _ => x
  end.

End JS.
Import JS.

(** ** The stores, the console and the fault plan *)

(** A document of the Firestore collection [reviews].  The fields live in a
    module of their own, as the handlers have variables of the same names. *)
Module Doc.
Record review : Type := {
  userId : string;
  gameId : string;
  text : value;
  rating : value;
  dateTimePosted : string
}.
End Doc.
Abbreviation review := Doc.review.

(** What the code writes to the console. *)
Inductive entry : Type :=
| LogRatingUpdated (game : string) (averageRating : number) (count : nat)
| ErrUpdateGameRating
| ErrAddReview
| ErrUpdateReview
| ErrDeleteReview
| ErrDeleteReviewByAdmin.

(** [reviews]: the Firestore collection, by document identifier.
    [games]: the children of [games/] in the Realtime Database, each an object
    from field names to values.
    [faults]: one boolean for each coming store round trip, [true] when it
    throws; a plan that has run out schedules no further failure.
    [now]: what [new Date().toISOString()] gives. *)
Record world : Type := {
  reviews : gmap string review;
  games : gmap string (gmap string value);
  faults : list bool;
  console : list entry;
  now : string
}.

Definition set_reviews (f : gmap string review -> gmap string review)
  (w : world) : world :=
  {| reviews := f (reviews w); games := games w; faults := faults w;
     console := console w; now := now w |}.

Definition set_games
  (f : gmap string (gmap string value) -> gmap string (gmap string value))
  (w : world) : world :=
  {| reviews := reviews w; games := f (games w); faults := faults w;
     console := console w; now := now w |}.

Definition set_faults (fs : list bool) (w : world) : world :=
  {| reviews := reviews w; games := games w; faults := fs;
     console := console w; now := now w |}.

Definition write_console (e : entry) (w : world) : world :=
  {| reviews := reviews w; games := games w; faults := faults w;
     console := console w ++ [e]; now := now w |}.

(** ** Computations: state and one exception *)

Inductive outcome (A : Type) : Type :=
| Return (a : A)
| Throw.
Arguments Return {A} a.
Arguments Throw {A}.

Definition M (A : Type) : Type := world -> outcome A * world.

Definition ret {A} (a : A) : M A := fun w => (Return a, w).

Definition throw {A} : M A := fun w => (Throw, w).

Definition bind {A B} (c : M A) (k : A -> M B) : M B :=
  fun w =>
    match c w with
    | (Return a, w') => k a w'
    | (Throw, w') => (Throw, w')
    end.

(** [try { body } catch (error) { handler }] *)
Definition try_catch {A} (body handler : M A) : M A :=
  fun w =>
    match body w with
    | (Return a, w') => (Return a, w')
    | (Throw, w') => handler w'
    end.

Notation "'let*' x ':=' c 'in' k" := (bind c (fun x => k))
  (at level 10, x name, c at level 100, k at level 200, only parsing).
Notation "c ;; k" := (bind c (fun _ => k))
  (at level 100, k at level 200, right associativity, only parsing).

(** *** Store operations *)

(** One round trip to a store: the next entry of the fault plan decides. *)
Definition round_trip : M unit :=
  fun w =>
    match faults w with
    | [] => (Return tt, w)
    | false :: fs => (Return tt, set_faults fs w)
    | true :: fs => (Throw, set_faults fs w)
    end.

Definition gets {A} (f : world -> A) : M A := fun w => (Return (f w), w).
Definition modify (f : world -> world) : M unit := fun w => (Return tt, f w).

(** [console.log] and [console.error] *)
Definition console_write (e : entry) : M unit := modify (write_console e).

(** [firestore.collection('reviews').where('gameId', '==', g).get()] *)
Definition reviews_where_gameId (g : string) : M (list review) :=
  round_trip ;;
  gets (fun w =>
          filter (fun r => Doc.gameId r = g) (snd <$> map_to_list (reviews w))).

(** [firestore.collection('reviews').doc(id).get()]: [None] when the
    snapshot does not [exists]. *)
Definition reviews_doc_get (id : string) : M (option review) :=
  round_trip ;; gets (fun w => reviews w !! id).

(** [firestore.collection('reviews').add(data)]: the store chooses an
    identifier that is not in use. *)
Definition reviews_add (data : review) : M string :=
  round_trip ;;
  let* id := gets (fun w => fresh (dom (reviews w))) in
  modify (set_reviews (insert id data)) ;;
  ret id.

(** [firestore.collection('reviews').doc(id).update({text, rating})]:
    rejected when the document does not exist. *)
Definition reviews_doc_update (id : string) (t r : value) : M unit :=
  round_trip ;;
  let* doc := gets (fun w => reviews w !! id) in
  match doc with
  | Some old =>
      modify (set_reviews (insert id
        {| Doc.userId := Doc.userId old; Doc.gameId := Doc.gameId old;
           Doc.text := t; Doc.rating := r;
           Doc.dateTimePosted := Doc.dateTimePosted old |}))
  | None => throw
  end.

(** [firestore.collection('reviews').doc(id).delete()] *)
Definition reviews_doc_delete (id : string) : M unit :=
  round_trip ;; modify (set_reviews (delete id)).

(** [(await db.ref(`games/${g}`).once('value')).exists()] *)
Definition games_exists (g : string) : M bool :=
  round_trip ;; gets (fun w => bool_decide (is_Some (games w !! g))).

(** [db.ref(`games/${g}`).update({averageRating, totalRatings})]: sets
    the two children and leaves the others. *)
Definition games_update (g : string) (averageRating : number) (count : nat)
  : M unit :=
  round_trip ;;
  modify (set_games (fun gs =>
    <[g := <["averageRating" := VNum averageRating]>
             (<["totalRatings" := VNum (Fin (inject_Z (Z.of_nat count)))]>
                (default ∅ (gs !! g)))]> gs)).

(** ** The rating aggregator: [updateGameRating] *)

(** The callback of [allReviewsSnapshot.forEach], on the two accumulators
    [totalRating] and [count]. *)
Definition accumulate (acc : number * nat) (r : review) : number * nat :=
  let '(totalRating, count) := acc in
  if strict_neq (Doc.rating r) VNull && strict_neq (Doc.rating r) VUndef
     && is_number (Doc.rating r)
     && num_le (Fin 1) (ToNumber (Doc.rating r))
     && num_le (ToNumber (Doc.rating r)) (Fin 5)
  then (num_add totalRating (ToNumber (Doc.rating r)), S count)
  else (totalRating, count).

(** The same callback with the sum rounded at every step, as binary64 has
    it.  The aggregator is run on [accumulate]; the two agree on ratings that
    are integers. *)
Definition accumulate64 (acc : number * nat) (r : review) : number * nat :=
  let '(totalRating, count) := acc in
  if strict_neq (Doc.rating r) VNull && strict_neq (Doc.rating r) VUndef
     && is_number (Doc.rating r)
     && num_le (Fin 1) (ToNumber (Doc.rating r))
     && num_le (ToNumber (Doc.rating r)) (Fin 5)
  then (num_add64 totalRating (ToNumber (Doc.rating r)), S count)
  else (totalRating, count).

(** [count > 0 ? parseFloat((totalRating / count).toFixed(1)) : 0] *)
Definition average (totalRating : number) (count : nat) : number :=
  if (0 <? count)%nat
  then toFixed1 (num_div totalRating (Fin (inject_Z (Z.of_nat count))))
  else Fin 0.

Definition updateGameRating (g : string) : M (number * nat) :=
  try_catch
    (let* allReviewsSnapshot := reviews_where_gameId g in
     let '(totalRating, count) :=
       fold_left accumulate allReviewsSnapshot (Fin 0, O) in
     let averageRating := average totalRating count in
     games_update g averageRating count ;;
     console_write (LogRatingUpdated g averageRating count) ;;
     ret (averageRating, count))
    (console_write ErrUpdateGameRating ;; throw).

(** ** The review handlers *)

Inductive body : Type :=
| Error (error : string)
| Message (message : string)
| Added (message : string) (reviewId : string)
| DeletedByAdmin (message : string) (reviewId gameId userId : string).

(** What [res.status(s).json(b)] sends; [res.json(b)] sends status 200. *)
Record response : Type := { status : nat; json : body }.

Definition respond (s : nat) (b : body) : M response :=
  ret {| status := s; json := b |}.

(** [rating ? parseInt(rating) : null] *)
Definition rating_or_null (r : value) : value :=
  if ToBoolean r then VNum (parseInt r) else VNull.

Definition addReview (userId gameId : string) (text rating : value)
  : M response :=
  try_catch
    (if negb (ToBoolean text) && negb (ToBoolean rating) then
       respond 400 (Error "Must provide either text, rating, or both")
     else if ToBoolean rating && (lt rating 1 || gt rating 5) then
       respond 400 (Error "Rating must be between 1 and 5")
     else
       let* gameExists := games_exists gameId in
       if negb gameExists then respond 404 (Error "Game not found")
       else
         let* dateTimePosted := gets now in
         let reviewData :=
           {| Doc.userId := userId; Doc.gameId := gameId;
              Doc.text := or_null text; Doc.rating := rating_or_null rating;
              Doc.dateTimePosted := dateTimePosted |} in
         let* reviewRef := reviews_add reviewData in
         (if ToBoolean rating
          then (updateGameRating gameId ;; ret tt) else ret tt) ;;
         respond 201 (Added "Review added successfully" reviewRef))
    (console_write ErrAddReview ;;
     respond 500 (Error "Failed to add review")).

Definition updateReview (reviewId : string) (userId : string)
  (text rating : value) : M response :=
  try_catch
    (let* reviewDoc := reviews_doc_get reviewId in
     match reviewDoc with
     | None => respond 404 (Error "Review not found")
     | Some reviewData =>
         if negb (String.eqb (Doc.userId reviewData) userId) then
           respond 403 (Error "User can only edit their own reviews")
         else if negb (ToBoolean text) && negb (ToBoolean rating) then
           respond 400 (Error "Must provide either text, rating, or both")
         else if ToBoolean rating && (lt rating 1 || gt rating 5) then
           respond 400 (Error "Rating must be between 1 and 5")
         else
           reviews_doc_update reviewId (or_null text) (rating_or_null rating) ;;
           (if strict_neq rating (Doc.rating reviewData)
            then (updateGameRating (Doc.gameId reviewData) ;; ret tt)
            else ret tt) ;;
           respond 200 (Message "Review updated successfully")
     end)
    (console_write ErrUpdateReview ;;
     respond 500 (Error "Failed to update review")).

Definition deleteReview (reviewId : string) (userId : string)
  (isAdmin : value) : M response :=
  try_catch
    (let* reviewDoc := reviews_doc_get reviewId in
     match reviewDoc with
     | None => respond 404 (Error "Review not found")
     | Some reviewData =>
         let isOwner := String.eqb (Doc.userId reviewData) userId in
         if negb (ToBoolean isAdmin) && negb isOwner then
           respond 403 (Error "User can only delete their own reviews")
         else
           let gameId := Doc.gameId reviewData in
           let hadRating := strict_neq (Doc.rating reviewData) VNull in
           reviews_doc_delete reviewId ;;
           (if hadRating
            then (updateGameRating gameId ;; ret tt) else ret tt) ;;
           respond 200 (Message "Review deleted successfully")
     end)
    (console_write ErrDeleteReview ;;
     respond 500 (Error "Failed to delete review")).

Definition deleteReviewByAdmin (reviewId : string) : M response :=
  try_catch
    (let* reviewDoc := reviews_doc_get reviewId in
     match reviewDoc with
     | None => respond 404 (Error "Review not found")
     | Some reviewData =>
         let gameId := Doc.gameId reviewData in
         let hadRating := strict_neq (Doc.rating reviewData) VNull in
         reviews_doc_delete reviewId ;;
         (if hadRating
          then (updateGameRating gameId ;; ret tt) else ret tt) ;;
         respond 200
           (DeletedByAdmin "Review deleted successfully by admin"
              reviewId gameId (Doc.userId reviewData))
     end)
    (console_write ErrDeleteReviewByAdmin ;;
     respond 500 (Error "Failed to delete review")).

(** ** What the specification speaks of *)

(** A rating that counts: a number in the closed range from 1 to 5. *)
Definition valid_rating (v : value) : option Q :=
  match v with
  | VNum (Fin q) => if Qle_bool 1 q && Qle_bool q 5 then Some q else None
  | _ => None
  end.

(** The reviews stored for a game, and the ratings among them that count. *)
Definition reviews_of (g : string) (rs : gmap string review) : list review :=
  filter (fun r => Doc.gameId r = g) (snd <$> map_to_list rs).

Definition valid_ratings (g : string) (rs : gmap string review) : list Q :=
  omap (fun r => valid_rating (Doc.rating r)) (reviews_of g rs).

Definition Qsum (l : list Q) : Q := fold_right Qplus 0%Q l.


(** A rational that is an integer. *)
Definition integral (q : Q) : Prop := exists z : Z, (q == inject_Z z)%Q.

(** A field of a game record; [None] when the game or the field is missing. *)
Definition game_field (gs : gmap string (gmap string value))
  (g field : string) : option value :=
  gs !! g ≫= (fun o => o !! field).

(** Whether one of the next [k] store round trips is scheduled to throw, and
    the plan left once the first scheduled failure has happened. *)
Definition fires (k : nat) (fs : list bool) : bool := existsb id (firstn k fs).

Fixpoint after_fault (fs : list bool) : list bool :=
  match fs with
  | [] => []
  | true :: fs' => fs'
  | false :: fs' => after_fault fs'
  end.

(** The console entries written by the aggregator, one for each call. *)
Definition is_recompute (e : entry) : bool :=
  match e with
  | LogRatingUpdated _ _ _ | ErrUpdateGameRating => true
  | _ => false
  end.

Definition recomputes (c : list entry) : list entry :=
  List.filter is_recompute c.

(** The aggregate of a game as the stored reviews give it, and the world a
    recompute leaves behind when no round trip fails. *)
Definition aggregate (g : string) (rs : gmap string review) : number * nat :=
  let '(totalRating, count) :=
    fold_left accumulate (reviews_of g rs) (Fin 0, O) in
  (average totalRating count, count).

(** The aggregate with the sum rounded at every step. *)
Definition aggregate64 (g : string) (rs : gmap string review) : number * nat :=
  let '(totalRating, count) :=
    fold_left accumulate64 (reviews_of g rs) (Fin 0, O) in
  (average totalRating count, count).

(** The game record [o] with the aggregate [r] written to it. *)
Definition rated (r : number * nat) (o : gmap string value)
  : gmap string value :=
  <["averageRating" := VNum (fst r)]>
    (<["totalRatings" := VNum (Fin (inject_Z (Z.of_nat (snd r))))]> o).

Definition recomputed (g : string) (w : world) : world :=
  let r := aggregate g (reviews w) in
  {| reviews := reviews w;
     games := <[g := rated r (default ∅ (games w !! g))]> (games w);
     faults := drop 2 (faults w);
     console := console w ++ [LogRatingUpdated g (fst r) (snd r)];
     now := now w |}.

Definition recompute_failed (w : world) : world :=
  {| reviews := reviews w; games := games w;
     faults := after_fault (faults w);
     console := console w ++ [ErrUpdateGameRating]; now := now w |}.

(** ** The calls of the controller *)

(** The four operations on reviews that the controller exposes. *)
Inductive call : Type :=
| Create (userId gameId : string) (text rating : value)
| Update (reviewId userId : string) (text rating : value)
| Delete (reviewId userId : string) (isAdmin : value)
| ModeratorDelete (reviewId : string).

Definition handle (c : call) : M response :=
  match c with
  | Create userId gameId text rating => addReview userId gameId text rating
  | Update reviewId userId text rating =>
      updateReview reviewId userId text rating
  | Delete reviewId userId isAdmin => deleteReview reviewId userId isAdmin
  | ModeratorDelete reviewId => deleteReviewByAdmin reviewId
  end.

(** The review that a delete, by its owner, an administrator or a moderator,
    is about. *)
Definition deletion (c : call) : option string :=
  match c with
  | Delete reviewId _ _ | ModeratorDelete reviewId => Some reviewId
  | _ => None
  end.

(** The outward-facing statuses of ValidationError, AuthorizationError and
    NotFoundError. *)
Definition rejection (s : nat) : bool :=
  (s =? 400)%nat || (s =? 403)%nat || (s =? 404)%nat.

(** ** The committed mutations *)

(** The document an update leaves in place of [old]. *)
Definition updated (old : review) (text rating : value) : review :=
  {| Doc.userId := Doc.userId old; Doc.gameId := Doc.gameId old;
     Doc.text := or_null text; Doc.rating := rating_or_null rating;
     Doc.dateTimePosted := Doc.dateTimePosted old |}.

(** The document a create stores. *)
Definition created (userId gameId : string) (text rating : value)
  (w : world) : review :=
  {| Doc.userId := userId; Doc.gameId := gameId; Doc.text := or_null text;
     Doc.rating := rating_or_null rating; Doc.dateTimePosted := now w |}.

(** The review store once the mutation of a call is committed. *)
Definition committed (c : call) (w : world) : gmap string review :=
  match c with
  | Create userId gameId text rating =>
      <[fresh (dom (reviews w)) := created userId gameId text rating w]>
        (reviews w)
  | Update reviewId _ text rating =>
      match reviews w !! reviewId with
      | Some old => <[reviewId := updated old text rating]> (reviews w)
      | None => reviews w
      end
  | Delete reviewId _ _ | ModeratorDelete reviewId =>
      delete reviewId (reviews w)
  end.

(** The console entries written between two worlds. *)
Definition written (w w' : world) : list entry :=
  drop (length (console w)) (console w').

(** The two input checks shared by create and update. *)
Definition validated (text rating : value) : bool :=
  negb (negb (ToBoolean text) && negb (ToBoolean rating))
  && negb (ToBoolean rating && (lt rating 1 || gt rating 5)).

(** ** The lifecycle of a review, call by call *)

(** The review a call is about: the one a create is going to add, under the
    identifier the store is going to choose, or the one named by the
    request. *)
Definition target (c : call) (w : world) : string :=
  match c with
  | Create _ _ _ _ => fresh (dom (reviews w))
  | Update reviewId _ _ _ | Delete reviewId _ _ | ModeratorDelete reviewId =>
      reviewId
  end.

(** The game of that review. *)
Definition game_of (c : call) (w : world) : option string :=
  match c with
  | Create _ gameId _ _ => Some gameId
  | _ => Doc.gameId <$> reviews w !! target c w
  end.

(** The condition under which a call that gets that far asks for a
    recompute. *)
Definition trigger (c : call) (w : world) : bool :=
  match c with
  | Create _ _ _ rating => ToBoolean rating
  | Update reviewId _ _ rating =>
      match reviews w !! reviewId with
      | Some old => strict_neq rating (Doc.rating old)
      | None => false
      end
  | Delete reviewId _ _ | ModeratorDelete reviewId =>
      match reviews w !! reviewId with
      | Some old => strict_neq (Doc.rating old) VNull
      | None => false
      end
  end.

(** The status a call is answered with when no store round trip fails, check
    by check in the order of the handler. *)
Definition verdict (c : call) (w : world) : nat :=
  match c with
  | Create _ gameId text rating =>
      if negb (validated text rating) then 400
      else if bool_decide (is_Some (games w !! gameId)) then 201 else 404
  | Update reviewId userId text rating =>
      match reviews w !! reviewId with
      | None => 404
      | Some old =>
          if negb (String.eqb (Doc.userId old) userId) then 403
          else if negb (validated text rating) then 400 else 200
      end
  | Delete reviewId userId isAdmin =>
      match reviews w !! reviewId with
      | None => 404
      | Some old =>
          if negb (ToBoolean isAdmin)
             && negb (String.eqb (Doc.userId old) userId)
          then 403 else 200
      end
  | ModeratorDelete reviewId =>
      match reviews w !! reviewId with
      | None => 404
      | Some _ => 200
      end
  end%nat.

Definition succeeded (s : nat) : bool := (s =? 200)%nat || (s =? 201)%nat.

(** The game store after the recompute of a call, if it asks for one. *)
Definition settled (c : call) (w : world)
  : gmap string (gmap string value) :=
  match trigger c w, game_of c w with
  | true, Some g =>
      <[g := rated (aggregate g (committed c w)) (default ∅ (games w !! g))]>
        (games w)
  | _, _ => games w
  end.

(** The ratings of a review that count for game [g]. *)
Definition counted (g : string) (r : review) : list Q :=
  if decide (Doc.gameId r = g)
  then option_list (valid_rating (Doc.rating r)) else [].

(** Who asks, for the calls that check the owner of the review. *)
Definition requester (c : call) : option string :=
  match c with
  | Update _ userId _ _ => Some userId
  | Delete _ userId isAdmin => if ToBoolean isAdmin then None else Some userId
  | _ => None
  end.

(** The text and the rating of the request of a create or an update. *)
Definition request (c : call) : option (value * value) :=
  match c with
  | Create _ _ text rating | Update _ _ text rating => Some (text, rating)
  | _ => None
  end.

(** The ratings the handlers write: [null], or what [parseInt] gives, which
    is [NaN], an infinity (for a numeral of more than 308 digits) or an
    integer. *)
Definition wf_rating (v : value) : Prop :=
  v = VNull \/ v = VNum NaN \/ v = VNum PInf \/ v = VNum NInf
  \/ exists z : Z, v = num z.

Definition wf_store (rs : gmap string review) : Prop :=
  forall (id : string) (r : review),
    rs !! id = Some r -> wf_rating (Doc.rating r).

(** The cached aggregate of game [g] is the aggregate of its reviews. *)
Definition consistent (g : string) (w : world) : Prop :=
  game_field (games w) g "averageRating"
  = Some (VNum (fst (aggregate g (reviews w))))
  /\ game_field (games w) g "totalRatings"
     = Some (VNum (Fin (inject_Z (Z.of_nat (snd (aggregate g (reviews w))))))).

(** [a] is what a recompute of game [g] returns when the reviews are [rs],
    and the cached aggregate of [g] is what a recompute of [g] would return
    now. *)
Definition recompute_gives (g : string) (rs : gmap string review)
  (a : number * nat) : Prop :=
  exists w0 w1 : world,
    reviews w0 = rs /\ updateGameRating g w0 = (Return a, w1).

Definition up_to_date (g : string) (w : world) : Prop :=
  exists a : number * nat,
    recompute_gives g (reviews w) a
    /\ game_field (games w) g "averageRating" = Some (VNum (fst a))
    /\ game_field (games w) g "totalRatings"
       = Some (VNum (Fin (inject_Z (Z.of_nat (snd a))))).

(** ** The catalogue: listings of reviews, and the games

    [getAllReviews], [getReviewsByGame], [getReviewsByUser] and
    [getAllReviewsForAdmin] of [reviewController.js], and the handlers of
    [gameController.js]: [getAllGames], [getGameById], [searchGames],
    [filterGames], [addGame], [updateGame] and [deleteGame].  They work on
    the stores of the review lifecycle and on the [favorites] and [users]
    subtrees of the Realtime Database; what they write to the console is kept
    in a journal of their own, beside the console of the lifecycle.  The
    identifier of a game is a string used as the key of its record. *)

Inductive notice : Type :=
| ErrGetAllReviews
| ErrGetReviewsByGame
| ErrGetReviewsByUser
| ErrGetAllReviewsForAdmin
| WarnUser
| WarnGame
| ErrGetGameById
| ErrGetAllGames
| ErrSearchGames
| ErrFilterGames
| ErrAddGame
| ErrUpdateGame
| ErrDeleteGame
| WarnDeleteImage
| WarnDeleteOldImage.

(** [favorites] and [users]: the children of [favorites/] and of [users/],
    each an object. *)
Record site : Type := {
  core : world;
  favorites : gmap string (gmap string value);
  users : gmap string (gmap string value);
  journal : list notice
}.

Definition set_core (w : world) (s : site) : site :=
  {| core := w; favorites := favorites s; users := users s;
     journal := journal s |}.

Definition set_favorites
  (f : gmap string (gmap string value) -> gmap string (gmap string value))
  (s : site) : site :=
  {| core := core s; favorites := f (favorites s); users := users s;
     journal := journal s |}.

Definition write_journal (n : notice) (s : site) : site :=
  {| core := core s; favorites := favorites s; users := users s;
     journal := journal s ++ [n] |}.

Definition MS (A : Type) : Type := site -> outcome A * site.

Definition sret {A} (a : A) : MS A := fun s => (Return a, s).

Definition sthrow {A} : MS A := fun s => (Throw, s).

Definition sbind {A B} (c : MS A) (k : A -> MS B) : MS B :=
  fun s =>
    match c s with
    | (Return a, s') => k a s'
    | (Throw, s') => (Throw, s')
    end.

Definition stry {A} (body handler : MS A) : MS A :=
  fun s =>
    match body s with
    | (Return a, s') => (Return a, s')
    | (Throw, s') => handler s'
    end.

(** A computation on the stores of the lifecycle, run on the catalogue. *)
Definition lift {A} (c : M A) : MS A :=
  fun s => let '(o, w') := c (core s) in (o, set_core w' s).

Definition journal_write (n : notice) : MS unit :=
  fun s => (Return tt, write_journal n s).

Notation "'do*' x ':=' c 'in' k" := (sbind c (fun x => k))
  (at level 10, x name, c at level 100, k at level 200, only parsing).
Notation "c ;;; k" := (sbind c (fun _ => k))
  (at level 100, k at level 200, right associativity, only parsing).

(** *** Listings of reviews *)

(** The order of [orderBy('dateTimePosted', 'desc')]: later dates first, by
    the bytes of the strings; documents of one date by descending
    identifier. *)
Definition newerb (a b : string * review) : bool :=
  match String.compare (Doc.dateTimePosted b.2) (Doc.dateTimePosted a.2) with
  | Lt => true
  | Gt => false
  | Eq => String.leb b.1 a.1
  end.

Definition newer (a b : string * review) : Prop := newerb a b = true.

Definition newer_dec (a b : string * review) : Decision (newer a b) :=
  bool_eq_dec (newerb a b) true.
#[global] Existing Instance newer_dec.

(** The three queries of the listings. *)
Inductive query : Type :=
| AllReviews
| ByGame (gameId : string)
| ByUser (userId : string).

(** The [where] clause of a query. *)
Definition matches (q : query) (r : review) : bool :=
  match q with
  | AllReviews => true
  | ByGame gameId => String.eqb (Doc.gameId r) gameId
  | ByUser userId => String.eqb (Doc.userId r) userId
  end.

(** [firestore.collection('reviews')[.where(...)]
      .orderBy('dateTimePosted', 'desc').get()], each document with its
    identifier, as [{ reviewId: doc.id, ...doc.data() }] has it. *)
Definition reviews_query (q : query) : M (list (string * review)) :=
  round_trip ;;
  gets (fun w =>
          merge_sort newer
            (filter (fun d => matches q d.2 = true) (map_to_list (reviews w)))).

(** What the query of a listing reads from a review store. *)
Definition selection (q : query) (rs : gmap string review)
  : list (string * review) :=
  merge_sort newer
    (filter (fun d => matches q d.2 = true) (map_to_list rs)).

(** What a listing sends: the array, or a status with an error. *)
Inductive listing : Type :=
| Listed (items : list (string * review))
| Refused (status : nat) (error : string).

Definition query_notice (q : query) : notice :=
  match q with
  | AllReviews => ErrGetAllReviews
  | ByGame _ => ErrGetReviewsByGame
  | ByUser _ => ErrGetReviewsByUser
  end.

(** [getAllReviews], [getReviewsByGame] and [getReviewsByUser]: the three
    handlers differ by their query and by the tag of their error log. *)
Definition getReviews (q : query) : MS listing :=
  stry
    (do* reviews := lift (reviews_query q) in
     sret (Listed reviews))
    (journal_write (query_notice q) ;;;
     sret (Refused 500 "Failed to retrieve reviews")).

Definition getAllReviews : MS listing := getReviews AllReviews.
Definition getReviewsByGame (gameId : string) : MS listing :=
  getReviews (ByGame gameId).
Definition getReviewsByUser (userId : string) : MS listing :=
  getReviews (ByUser userId).

(** *** A game with its reviews *)

Inductive game_page : Type :=
| Page (game : gmap string value) (items : list (string * review))
| NoPage (status : nat) (error : string).

(** [(await db.ref(`games/${g}`).once('value')).val()] *)
Definition games_val (g : string) : M (option (gmap string value)) :=
  round_trip ;; gets (fun w => games w !! g).

Definition getGameById (gameId : string) : MS game_page :=
  stry
    (do* gameData := lift (games_val gameId) in
     match gameData with
     | None => sret (NoPage 404 "Game not found")
     | Some gameData =>
         do* reviews := lift (reviews_query (ByGame gameId)) in
         sret (Page (gameData ∪ {[ "id" := VStr gameId ]}) reviews)
     end)
    (journal_write ErrGetGameById ;;;
     sret (NoPage 500 "Failed to retrieve game")).

(** *** The listing of the moderators *)

(** [{ userId, username, email }] of a user and [{ gameId, title, image }] of
    a game, as the listing of the moderators shows them. *)
Record user_card : Type := {
  card_userId : value; card_username : value; card_email : value
}.

Record game_card : Type := {
  card_gameId : value; card_title : value; card_image : value
}.

Record admin_item : Type := {
  item_reviewId : string;
  item_review : review;
  item_user : option user_card;
  item_game : option game_card
}.

Definition field (o : gmap string value) (k : string) : value :=
  default VUndef (o !! k).

(** [x || y] *)
Definition or_else (x y : value) : value := if ToBoolean x then x else y.

Definition user_card_of (userData : gmap string value) : user_card :=
  {| card_userId := field userData "userId";
     card_username := field userData "username";
     card_email := field userData "email" |}.

Definition game_card_of (gameData : gmap string value) : game_card :=
  {| card_gameId := field gameData "gameId";
     card_title := field gameData "title";
     card_image :=
       or_else (field gameData "image")
         (or_else (field gameData "imageBase64") VNull) |}.

(** [(await db.ref(`users/${u}`).once('value')).val()] *)
Definition users_val (u : string) : MS (option (gmap string value)) :=
  lift round_trip ;;; fun s => (Return (users s !! u), s).

(** The two reads made for a review; a read that throws leaves a warning and
    [null]. *)
Definition fetch_user (r : review) : MS (option (gmap string value)) :=
  stry (users_val (Doc.userId r)) (journal_write WarnUser ;;; sret None).

Definition fetch_game (r : review) : MS (option (gmap string value)) :=
  stry (lift (games_val (Doc.gameId r)))
    (journal_write WarnGame ;;; sret None).

(** The body of [for (const doc of snapshot.docs)]. *)
Fixpoint admin_items (docs : list (string * review)) : MS (list admin_item) :=
  match docs with
  | [] => sret []
  | doc :: docs' =>
      do* userData := fetch_user doc.2 in
      do* gameData := fetch_game doc.2 in
      do* items := admin_items docs' in
      sret ({| item_reviewId := doc.1; item_review := doc.2;
               item_user := user_card_of <$> userData;
               item_game := game_card_of <$> gameData |} :: items)
  end.

Inductive admin_listing : Type :=
| AdminListed (items : list admin_item)
| AdminRefused (status : nat) (error : string).

(** In the source the reads come before the item of each review is pushed;
    nothing else happens in between, so the items are built here as the
    loop returns. *)
Definition getAllReviewsForAdmin : MS admin_listing :=
  stry
    (do* docs := lift (reviews_query AllReviews) in
     do* reviews := admin_items docs in
     sret (AdminListed reviews))
    (journal_write ErrGetAllReviewsForAdmin ;;;
     sret (AdminRefused 500 "Failed to retrieve reviews")).

(** *** Listings of games *)

(** The order in which a snapshot of the Realtime Database enumerates its
    children: keys that read as 32-bit integers first, by their value and
    then by their length; the other keys after them, as strings. *)
Definition tryParseInt (s : string) : option Z :=
  let l := list_ascii_of_string s in
  let '(neg, ds) := match l with
                    | "-"%char :: r => (true, r)
                    | _ => (false, l)
                    end in
  match digits 10 0 0 ds with
  | (_, O, _) => None
  | (v, _, []) =>
      let z := (if neg then - v else v)%Z in
      if ((- 2147483648 <=? z) && (z <=? 2147483647))%Z then Some z else None
  | _ => None
  end.

Definition key_leb (a b : string) : bool :=
  match tryParseInt a, tryParseInt b with
  | Some x, Some y =>
      if (x =? y)%Z then (String.length a <=? String.length b)%nat
      else (x <? y)%Z
  | Some _, None => true
  | None, Some _ => false
  | None, None => String.leb a b
  end.

Definition child_le {A} (a b : string * A) : Prop := key_leb a.1 b.1 = true.

Definition child_le_dec {A} (a b : string * A) : Decision (child_le a b) :=
  bool_eq_dec (key_leb a.1 b.1) true.
#[global] Existing Instance child_le_dec.

Definition children {A} (m : gmap string A) : list (string * A) :=
  merge_sort child_le (map_to_list m).

(** [{ id: child.key, ...child.val() }] *)
Definition with_id (child : string * gmap string value) : gmap string value :=
  child.2 ∪ {[ "id" := VStr child.1 ]}.

(** [db.ref('games').once('value')], as [snapshot.forEach] goes through it. *)
Definition games_snapshot : M (list (string * gmap string value)) :=
  round_trip ;; gets (fun w => children (games w)).

(** [toLowerCase], on the code points up to U+00FF: the letters A to Z are
    lowered, and so are the letters U+00C0 to U+00DE (U+00D7, the
    multiplication sign, is none), whose UTF-8 encoding is the byte 195 and
    a byte from 128 to 158.  The bytes of the code points above U+00FF are
    left as they are: what [toLowerCase] does to those is not modelled, and
    [is_latin1] tells the strings that have none. *)
Definition lower (c : ascii) : ascii :=
  let n := N_of_ascii c in
  if ((65 <=? n) && (n <=? 90))%N then ascii_of_N (n + 32) else c.

Fixpoint lowerFrom (after195 : bool) (s : string) : string :=
  match s with
  | EmptyString => EmptyString
  | String c s' =>
      let n := N_of_ascii c in
      if (after195 && (128 <=? n) && (n <=? 158) && negb (n =? 151))%N
      then String (ascii_of_N (n + 32)) (lowerFrom false s')
      else String (lower c) (lowerFrom (n =? 195)%N s')
  end.

Definition toLowerCase (s : string) : string := lowerFrom false s.

(** The UTF-8 encodings of code points up to U+00FF: a byte below 128, or
    the byte 194 or 195 and a byte from 128 to 191. *)
Fixpoint latin1From (pending : bool) (s : string) : bool :=
  match s with
  | EmptyString => negb pending
  | String c s' =>
      let n := N_of_ascii c in
      if pending then ((128 <=? n) && (n <=? 191))%N && latin1From false s'
      else if (n <? 128)%N then latin1From false s'
      else ((n =? 194) || (n =? 195))%N && latin1From true s'
  end.

Definition is_latin1 (s : string) : bool := latin1From false s.

(** [s.includes(t)] *)
Fixpoint includes (s t : string) : bool :=
  String.prefix t s
  || match s with
     | EmptyString => false
     | String _ s' => includes s' t
     end.

(** [v && v.toLowerCase().includes(q.toLowerCase())] as a condition: on a
    truthy [v] that is not a string, [toLowerCase] is not a function and the
    call throws. *)
Definition contains (v : value) (q : string) : outcome bool :=
  if ToBoolean v then
    match v with
    | VStr s => Return (includes (toLowerCase s) (toLowerCase q))
    | _ => Throw
    end
  else Return false.

(** [Array.prototype.filter], and the selecting loop of [searchGames], with a
    callback that may throw. *)
Fixpoint filter_throwing {A} (p : A -> outcome bool) (l : list A)
  : outcome (list A) :=
  match l with
  | [] => Return []
  | x :: l' =>
      match p x with
      | Throw => Throw
      | Return b =>
          match filter_throwing p l' with
          | Throw => Throw
          | Return k => Return (if b then x :: k else k)
          end
      end
  end.

(** A computation without effect on the stores, which may throw. *)
Definition run_pure {A} (o : outcome A) : MS A := fun s => (o, s).

Definition and_then {A B} (o : outcome A) (k : A -> outcome B) : outcome B :=
  match o with
  | Return a => k a
  | Throw => Throw
  end.

(** [parseFloat(s)]: the longest numeral that starts the string, white
    space skipped. *)
Definition parseFloat (s : string) : number :=
  let '(neg, l) := sign (trimStart (list_ascii_of_string s)) in
  if String.prefix "Infinity" (string_of_list_ascii l)
  then signed neg PInf else
  let '(i, ni, r1) := digits 10 0 0 l in
  let '(f, nf, r2) := match r1 with
                      | "."%char :: r => digits 10 0 0 r
                      | _ => (0%Z, O, r1)
                      end in
  match ni, nf with
  | O, O => NaN
  | _, _ =>
      let e :=
        match r2 with
        | c :: r =>
            if Ascii.eqb c "e" || Ascii.eqb c "E" then
              let '(eneg, r') := sign r in
              match digits 10 0 0 r' with
              | (_, O, _) => 0%Z
              | (e, _, _) => (if eneg then - e else e)%Z
              end
            else 0%Z
        | [] => 0%Z
        end in
      signed neg
        (round64
           ((inject_Z i + inject_Z f * pow10 (- Z.of_nat nf)) * pow10 e))
  end.

(** [x >= s] and [x <= s] against a string [s]: by code units when [x] is a
    string, as numbers otherwise. *)
Definition ge_string (x : value) (s : string) : bool :=
  match x with
  | VStr r => String.leb s r
  | _ => num_le (StringToNumber s) (ToNumber x)
  end.

Definition le_string (x : value) (s : string) : bool :=
  match x with
  | VStr r => String.leb r s
  | _ => num_le (ToNumber x) (StringToNumber s)
  end.

(** A parameter of the query string, when it is given and not empty. *)
Definition given (p : option string) : option string :=
  match p with
  | Some s => if String.eqb s "" then None else Some s
  | None => None
  end.

Inductive games_listing : Type :=
| Games (items : list (gmap string value))
| NoGames (status : nat) (error : string).

Definition getAllGames : MS games_listing :=
  stry
    (do* snapshot := lift games_snapshot in
     sret (Games (with_id <$> snapshot)))
    (journal_write ErrGetAllGames ;;;
     sret (NoGames 500 "Failed to retrieve games")).

Definition searchGames (title : option string) : MS games_listing :=
  stry
    (match given title with
     | None => sret (NoGames 400 "Title parameter required")
     | Some title =>
         do* snapshot := lift games_snapshot in
         do* found :=
           run_pure
             (filter_throwing
                (fun child => contains (field child.2 "title") title)
                snapshot) in
         sret (Games (with_id <$> found))
     end)
    (journal_write ErrSearchGames ;;;
     sret (NoGames 500 "Failed to search games")).

(** The parameters of [filterGames]. *)
Record criteria : Type := {
  platform : option string;
  genre : option string;
  status_of : option string;
  minRating : option string;
  startDate : option string;
  endDate : option string
}.

(** [if (p) games = games.filter(cb)] *)
Definition narrow {A} (p : option A)
  (cb : A -> gmap string value -> outcome bool)
  (games : list (gmap string value)) : outcome (list (gmap string value)) :=
  match p with
  | Some a => filter_throwing (cb a) games
  | None => Return games
  end.

(** The filter of [status]: ['upcoming'], ['released'], or none. *)
Definition status_filter (status : option string)
  : option (gmap string value -> outcome bool) :=
  match status with
  | Some s =>
      if String.eqb s "upcoming"
      then Some (fun game =>
                   Return (strict_eq (field game "upcoming") (VBool true)))
      else if String.eqb s "released"
      then Some (fun game =>
                   Return (strict_eq (field game "released") (VBool true)))
      else None
  | None => None
  end.

(** [startDate && endDate] *)
Definition both (a b : option string) : option (string * string) :=
  match given a, given b with
  | Some x, Some y => Some (x, y)
  | _, _ => None
  end.

(** The five filters of [filterGames], one after the other. *)
Definition refine (q : criteria) (games : list (gmap string value))
  : outcome (list (gmap string value)) :=
  and_then
    (narrow (given (platform q))
       (fun p game => contains (field game "platform") p) games)
    (fun games =>
  and_then
    (narrow (given (genre q))
       (fun p game => contains (field game "genre") p) games)
    (fun games =>
  and_then (narrow (status_filter (status_of q)) (fun cb => cb) games)
    (fun games =>
  and_then
    (narrow (given (minRating q))
       (fun m game =>
          let minRatingNum := parseFloat m in
          Return (ToBoolean (field game "averageRating")
                  && num_le minRatingNum
                       (ToNumber (field game "averageRating"))))
       games)
    (fun games =>
  narrow (both (startDate q) (endDate q))
    (fun d game =>
       Return (ToBoolean (field game "releaseDate")
               && ge_string (field game "releaseDate") d.1
               && le_string (field game "releaseDate") d.2))
    games)))).

Definition filterGames (q : criteria) : MS games_listing :=
  stry
    (do* snapshot := lift games_snapshot in
     do* games := run_pure (refine q (with_id <$> snapshot)) in
     sret (Games games))
    (journal_write ErrFilterGames ;;;
     sret (NoGames 500 "Failed to filter games")).

(** *** The edition of a game

    [validateImage], [base64ToBuffer] and [uploadImageToStorage] of
    [storageHelper.js] are not in the repository.  What they return for a
    request comes with the request: for the file of a request, the error of
    [validateImage], if any, and the URL that a successful upload gives; for
    its [imageBase64], whether [base64ToBuffer] returns, and then the same.
    The upload itself is a round trip that may throw. *)

Record file_input : Type := {
  file_error : option string;
  file_url : string
}.

Record base64_input : Type := {
  decoded : bool;
  base64_error : option string;
  base64_url : string
}.

(** The body of a request of [addGame] or [updateGame], with [req.file]. *)
Record game_request : Type := {
  req_title : value;
  req_description : value;
  req_releaseDate : value;
  req_platform : value;
  req_genre : value;
  req_upcoming : value;
  req_released : value;
  req_imageBase64 : value;
  req_file : option file_input;
  req_base64 : base64_input
}.

(** What the two handlers send: the success of [addGame] with its
    [imageUrl], the success of [updateGame], a status with a known error,
    status 400 with ['Invalid image format: ...'], or status 500 with the
    message of what was thrown. *)
Inductive edition : Type :=
| GameAdded (gameId imageUrl : string)
| GameUpdated
| EditionRefused (status : nat) (error : string)
| InvalidImage
| EditionFailed.

(** [await uploadImageToStorage(...)] *)
Definition upload (url : string) : MS string :=
  lift round_trip ;;; sret url.

(** [x === 'true' || x === true] *)
Definition flag (x : value) : value :=
  VBool (strict_eq x (VStr "true") || strict_eq x (VBool true)).

(** [db.ref(`games/${g}`).set(gameData)] *)
Definition games_set (g : string) (gameData : gmap string value) : M unit :=
  round_trip ;; modify (set_games (insert g gameData)).

(** The image of a request of [addGame]: its URL (empty without an image),
    or the answer of an early return. *)
Definition added_image (r : game_request) : MS (string + edition) :=
  match req_file r with
  | Some file =>
      match file_error file with
      | Some error => sret (inr (EditionRefused 400 error))
      | None => do* imageUrl := upload (file_url file) in sret (inl imageUrl)
      end
  | None =>
      if ToBoolean (req_imageBase64 r) then
        stry
          (if decoded (req_base64 r) then
             match base64_error (req_base64 r) with
             | Some error => sret (inr (EditionRefused 400 error))
             | None =>
                 do* imageUrl := upload (base64_url (req_base64 r)) in
                 sret (inl imageUrl)
             end
           else sthrow)
          (sret (inr InvalidImage))
      else sret (inl "")
  end.

Definition new_game (gameId imageUrl : string) (r : game_request)
  : gmap string value :=
  <["gameId" := VStr gameId]>
  (<["title" := req_title r]>
  (<["description" := or_else (req_description r) (VStr "")]>
  (<["releaseDate" := or_else (req_releaseDate r) (VStr "")]>
  (<["platform" := or_else (req_platform r) (VStr "")]>
  (<["genre" := or_else (req_genre r) (VStr "")]>
  (<["image" := VStr imageUrl]>
  (<["imageBase64" := or_else (req_imageBase64 r) (VStr "")]>
  (<["upcoming" := flag (req_upcoming r)]>
  (<["released" := flag (req_released r)]>
  (<["averageRating" := num 0]>
  (<["totalRatings" := num 0]> ∅))))))))))).

Definition addGame (gameId : string) (r : game_request) : MS edition :=
  stry
    (if String.eqb gameId "" || negb (ToBoolean (req_title r)) then
       sret (EditionRefused 400 "gameId and title are required")
     else
       do* image := added_image r in
       match image with
       | inr answer => sret answer
       | inl imageUrl =>
           lift (games_set gameId (new_game gameId imageUrl r)) ;;;
           sret (GameAdded gameId
                   (if String.eqb imageUrl "" then "No image provided"
                    else imageUrl))
       end)
    (journal_write ErrAddGame ;;; sret EditionFailed).

(** [if (x !== undefined) updateData.k = f(x)] *)
Definition set_if (k : string) (x : value) (f : value -> value)
  (updateData : gmap string value) : gmap string value :=
  if strict_neq x VUndef then <[k := f x]> updateData else updateData.

Definition given_fields (r : game_request) : gmap string value :=
  set_if "released" (req_released r) flag
  (set_if "upcoming" (req_upcoming r) flag
  (set_if "genre" (req_genre r) (fun x => x)
  (set_if "platform" (req_platform r) (fun x => x)
  (set_if "releaseDate" (req_releaseDate r) (fun x => x)
  (set_if "description" (req_description r) (fun x => x)
  (set_if "title" (req_title r) (fun x => x) ∅)))))).

(** [db.ref(`games/${g}`).update(updateData)]: every child of [updateData]
    is set, or removed when its value is [null]; the other children stay. *)
Definition patched (updateData old : gmap string value) : gmap string value :=
  merge (fun new kept =>
           match new with
           | Some VNull => None
           | Some v => Some v
           | None => kept
           end) updateData old.

(** A node without children does not exist. *)
Definition games_put (g : string) (node : gmap string value)
  (gs : gmap string (gmap string value)) : gmap string (gmap string value) :=
  if bool_decide (node = ∅) then delete g gs else <[g := node]> gs.

(** An [update] with no child resolves at once, without a round trip. *)
Definition games_patch (g : string) (updateData : gmap string value)
  : M unit :=
  if bool_decide (updateData = ∅) then ret tt
  else
    round_trip ;;
    modify (set_games (fun gs =>
      games_put g (patched updateData (default ∅ (gs !! g))) gs)).

(** *** The removal of a game *)

(** Whether a review, or a favorite, is one of game [g]. *)
Definition review_of (g : string) (d : string * review) : bool :=
  String.eqb (Doc.gameId d.2) g.

Definition favorite_of (g : string) (d : string * gmap string value)
  : bool :=
  match d.2 !! "gameId" with
  | Some (VStr s) => String.eqb s g
  | _ => false
  end.

(** [batch.commit()] of the deletion of every review of the game: one round
    trip, all or nothing. *)
Definition reviews_delete_of (g : string) : M unit :=
  round_trip ;;
  modify (set_reviews (filter (fun d => review_of g d = false))).

(** [db.ref('favorites').orderByChild('gameId').equalTo(g).once('value')] *)
Definition favorites_of (g : string) : MS (list (string * gmap string value)) :=
  lift round_trip ;;;
  fun s =>
    (Return (filter (fun d => favorite_of g d = true)
               (map_to_list (favorites s))), s).

(** [db.ref('favorites').update(favoriteUpdates)], every favorite of the
    game set to [null]. *)
Definition favorites_delete_of (g : string) : MS unit :=
  lift round_trip ;;;
  fun s =>
    (Return tt,
     set_favorites (filter (fun d => favorite_of g d = false)) s).

(** [db.ref(`games/${g}`).remove()] *)
Definition games_remove (g : string) : M unit :=
  round_trip ;; modify (set_games (delete g)).

(** The deletion of the image of the game: [split] throws on an [image]
    that is not a string, and the round trip to the storage may throw;
    either way the handler logs a warning and goes on. *)
Definition delete_image (gameData : gmap string value) : MS unit :=
  let image := default VUndef (gameData !! "image") in
  if ToBoolean image then
    stry
      (match image with
       | VStr _ => lift round_trip
       | _ => sthrow
       end)
      (journal_write WarnDeleteImage)
  else sret tt.

(** The deletion of the old image in [updateGame], with its own warning. *)
Definition delete_old_image (oldGameData : gmap string value) : MS unit :=
  let image := default VUndef (oldGameData !! "image") in
  if ToBoolean image then
    stry
      (match image with
       | VStr _ => lift round_trip
       | _ => sthrow
       end)
      (journal_write WarnDeleteOldImage)
  else sret tt.

(** The image of a request of [updateGame]: what it adds to [updateData],
    or the answer of an early return.  The old image is deleted first. *)
Definition updated_image (old : gmap string value) (r : game_request)
  (updateData : gmap string value) : MS (gmap string value + edition) :=
  match req_file r with
  | Some file =>
      delete_old_image old ;;;
      match file_error file with
      | Some error => sret (inr (EditionRefused 400 error))
      | None =>
          do* imageUrl := upload (file_url file) in
          sret (inl (<["image" := VStr imageUrl]> updateData))
      end
  | None =>
      if ToBoolean (req_imageBase64 r) then
        stry
          (delete_old_image old ;;;
           if decoded (req_base64 r) then
             match base64_error (req_base64 r) with
             | Some error => sret (inr (EditionRefused 400 error))
             | None =>
                 do* imageUrl := upload (base64_url (req_base64 r)) in
                 sret (inl (<["imageBase64" := req_imageBase64 r]>
                              (<["image" := VStr imageUrl]> updateData)))
             end
           else sthrow)
          (sret (inr InvalidImage))
      else sret (inl updateData)
  end.

Definition updateGame (gameId : string) (r : game_request) : MS edition :=
  stry
    (do* gameSnapshot := lift (games_val gameId) in
     match gameSnapshot with
     | None => sret (EditionRefused 404 "Game not found")
     | Some old =>
         do* image := updated_image old r (given_fields r) in
         match image with
         | inr answer => sret answer
         | inl updateData =>
             lift (games_patch gameId updateData) ;;;
             sret GameUpdated
         end
     end)
    (journal_write ErrUpdateGame ;;; sret EditionFailed).

(** What [deleteGame] sends: status 200 with its message, status 404 with
    ['Game not found'], or status 500 with the message of what was thrown
    (['Failed to delete game'] when it has none). *)
Inductive removal : Type :=
| Removed
| GameNotFound
| RemovalFailed.

Definition deleteGame (gameId : string) : MS removal :=
  stry
    (do* gameData := lift (games_val gameId) in
     match gameData with
     | None => sret GameNotFound
     | Some gameData =>
         delete_image gameData ;;;
         do* reviewsSnapshot := lift (reviews_where_gameId gameId) in
         (if bool_decide (reviewsSnapshot = [])
          then sret tt else lift (reviews_delete_of gameId)) ;;;
         do* favoritesSnapshot := favorites_of gameId in
         (if bool_decide (favoritesSnapshot = [])
          then sret tt else favorites_delete_of gameId) ;;;
         lift (games_remove gameId) ;;;
         sret Removed
     end)
    (journal_write ErrDeleteGame ;;; sret RemovalFailed).

(** The reviews and the favorites that the removal of game [g] leaves. *)
Definition reviews_without (g : string) (rs : gmap string review)
  : gmap string review :=
  filter (fun d => review_of g d = false) rs.

Definition favorites_without (g : string)
  (fs : gmap string (gmap string value)) : gmap string (gmap string value) :=
  filter (fun d => favorite_of g d = false) fs.

(** The review of an item of the listing of the moderators, with its
    identifier, and what the item shows of the user and of the game when the
    two reads succeed. *)
Definition item_doc (i : admin_item) : string * review :=
  (item_reviewId i, item_review i).

Definition item_joined (s : site) (i : admin_item) : Prop :=
  item_user i = user_card_of <$> users s !! Doc.userId (item_review i)
  /\ item_game i
     = game_card_of <$> games (core s) !! Doc.gameId (item_review i).

(** The children of a game that [updateGame] may write. *)
Definition editable : list string :=
  ["title"; "description"; "releaseDate"; "platform"; "genre"; "upcoming";
   "released"; "image"; "imageBase64"].

(** What an update leaves of a child that held [kept], when the request gives
    [x] for it and [f x] is written: an absent [x] keeps the child, and a
    written [null] removes it. *)
Definition asked (x : value) (f : value -> value) (kept : option value)
  : option value :=
  if strict_neq x VUndef then
    match f x with
    | VNull => None
    | v => Some v
    end
  else kept.

(** The stores of two states of the catalogue are the same. *)
Definition same_stores (s s' : site) : Prop :=
  reviews (core s') = reviews (core s)
  /\ games (core s') = games (core s)
  /\ console (core s') = console (core s)
  /\ favorites s' = favorites s
  /\ users s' = users s.

(** ** Example states *)

Definition portal : gmap string value :=
  {[ "title" := VStr "Portal"; "genre" := VStr "Puzzle";
     "averageRating" := num 0; "totalRatings" := num 0 ]}.

(** A catalogue of one game, without reviews. *)
Definition shop : world :=
  {| reviews := ∅; games := {[ "g1" := portal ]}; faults := [];
     console := []; now := "2024-05-01T10:00:00.000Z" |}.

Definition note (userId : string) (text rating : value) : review :=
  {| Doc.userId := userId; Doc.gameId := "g1"; Doc.text := text;
     Doc.rating := rating; Doc.dateTimePosted := "2024-04-01T09:00:00.000Z" |}.

(** The game with ratings 5 and 3 and a review that has a text only. *)
Definition reviewed : world :=
  set_reviews
    (fun _ => {[ "r1" := note "u1" VNull (num 5);
                 "r2" := note "u2" VNull (num 3);
                 "r3" := note "u3" (VStr "ok") VNull ]})
    shop.

(** The game with one review, which has a text and no rating. *)
Definition commented : world :=
  set_reviews (fun _ => {[ "r1" := note "u1" (VStr "old") VNull ]}) shop.

(** The game with one review, which has a rating. *)
Definition starred : world :=
  set_reviews (fun _ => {[ "r1" := note "u1" VNull (num 2) ]}) shop.

(** The game with one review, whose document has a text and no [rating]
    field. *)
Definition bare : world :=
  set_reviews (fun _ => {[ "r1" := note "u1" (VStr "old") VUndef ]}) shop.


(** The catalogue whose third coming store round trip throws. *)
Definition flaky : world := set_faults [false; false; true] shop.

(** A create with a text and the rating 4, and the update of review r1 that
    user u2 asks for. *)
Definition rate4 : call := Create "u1" "g1" (VStr "good") (num 4).
Definition intrude : call := Update "r1" "u2" (VStr "mine") (num 1).

(** A second game, with an image and a platform, and a record whose
    [platform] is a number. *)
Definition doom : gmap string value :=
  {[ "title" := VStr "Doom"; "platform" := VStr "PC";
     "image" := VStr "https://storage.example/game-images/g2.png";
     "averageRating" := num 0; "totalRatings" := num 0 ]}.

Definition junk : gmap string value :=
  {[ "title" := VStr "Junk"; "platform" := num 5 ]}.

(** The catalogue of [reviewed] with its aggregate written, the second game,
    a favorite of each game and one user. *)
Definition mall : site :=
  {| core := set_games (insert "g2" doom)
               (set_games (insert "g1" (rated (Fin 4, 2%nat) portal))
                  reviewed);
     favorites :=
       {[ "f1" := {[ "gameId" := VStr "g1"; "userId" := VStr "u1" ]};
          "f2" := {[ "gameId" := VStr "g2"; "userId" := VStr "u1" ]} ]};
     users :=
       {[ "u1" := {[ "userId" := VStr "u1"; "username" := VStr "ann";
                    "email" := VStr "ann@example.org" ]} ]};
     journal := [] |}.

(** The same with the game store alone ([stall]), with a coming failure:
    of the fourth round trip ([outage]), of the second ([dim]); and with the
    malformed record ([dump]). *)
Definition stall : site :=
  {| core := shop; favorites := ∅; users := ∅; journal := [] |}.

Definition outage : site :=
  set_core (set_faults [false; false; false; true] (core mall)) mall.

Definition dim : site :=
  set_core (set_faults [false; true] (core mall)) mall.

Definition dump : site :=
  set_core (set_games (insert "g3" junk) (core mall)) mall.

(** A catalogue of one game, whose title has a letter that is not of
    ASCII. *)
Definition pokemon : gmap string value := {[ "title" := VStr "Pokémon" ]}.

Definition arcade : site :=
  {| core := set_games (fun _ => {[ "g5" := pokemon ]}) shop;
     favorites := ∅; users := ∅; journal := [] |}.

(** Requests of the moderators: a game with a title and nothing else, and an
    update that gives a new title and removes the genre. *)
Definition no_base64 : base64_input :=
  {| decoded := false; base64_error := None; base64_url := "" |}.

Definition titled (title : string) : game_request :=
  {| req_title := VStr title; req_description := VUndef;
     req_releaseDate := VUndef; req_platform := VUndef; req_genre := VUndef;
     req_upcoming := VUndef; req_released := VUndef;
     req_imageBase64 := VUndef; req_file := None; req_base64 := no_base64 |}.

Definition retitle : game_request :=
  {| req_title := VStr "Portal 2"; req_description := VUndef;
     req_releaseDate := VUndef; req_platform := VUndef; req_genre := VNull;
     req_upcoming := VStr "true"; req_released := VUndef;
     req_imageBase64 := VUndef; req_file := None; req_base64 := no_base64 |}.

(** Criteria of [filterGames]: none, a platform, a least rating. *)
Definition any_game : criteria :=
  {| platform := None; genre := None; status_of := None; minRating := None;
     startDate := None; endDate := None |}.

Definition on_pc : criteria :=
  {| platform := Some "pc"; genre := None; status_of := None;
     minRating := None; startDate := None; endDate := None |}.

Definition well_rated : criteria :=
  {| platform := None; genre := None; status_of := None;
     minRating := Some "3.5"; startDate := None; endDate := None |}.

(** A least rating written with more digits than a binary64 number holds. *)
Definition four_and_a_bit : criteria :=
  {| platform := None; genre := None; status_of := None;
     minRating := Some "4.00000000000000000001"; startDate := None;
     endDate := None |}.

(** * Properties *)

(** ** Rounding to binary64 *)

Section Binary64.

Lemma floor_log2_spec (q : Q) :
  (0 < q)%Q ->
  (2 ^ floor_log2 q <= q /\ q < 2 ^ (floor_log2 q + 1))%Q.
Proof.
  destruct q as [n d]. intros Hq.
  assert (Hn : (0 < n)%Z) by (unfold Qlt in Hq; cbn in Hq; lia).
  unfold floor_log2. cbn [Qnum Qden].
  set (a := Z.log2 n). set (b := Z.log2 (Z.pos d)).
  destruct (Z.log2_spec n Hn) as [Ha1 Ha2]. fold a in Ha1, Ha2.
  destruct (Z.log2_spec (Z.pos d) (Pos2Z.is_pos d)) as [Hb1 Hb2].
  fold b in Hb1, Hb2.
  assert (Ha0 : (0 <= a)%Z) by apply Z.log2_nonneg.
  assert (Hb0 : (0 <= b)%Z) by apply Z.log2_nonneg.
  assert (H2 : ~ (2 == 0)%Q) by discriminate.
  assert (Hpa : (2 ^ a == inject_Z (2 ^ a))%Q)
    by (by rewrite Zpower_Qpower).
  assert (Hpb : (2 ^ b == inject_Z (2 ^ b))%Q)
    by (by rewrite Zpower_Qpower).
  assert (Hpos : forall k : Z, (0 < 2 ^ k)%Q)
    by (intros k; by apply Qpower_0_lt).
  (* n # d between 2^(a-b-1) and 2^(a-b+1) *)
  assert (Hq' : (n # d == inject_Z n / inject_Z (Z.pos d))%Q)
    by (by rewrite Qmake_Qdiv).
  assert (Hd : (0 < inject_Z (Z.pos d))%Q) by (unfold Qlt; cbn; lia).
  assert (Hlo : (2 ^ (a - b - 1) < n # d)%Q).
  { rewrite Hq'. apply Qlt_shift_div_l; [exact Hd|].
    replace (a - b - 1)%Z with (a + - (b + 1))%Z by lia.
    rewrite Qpower_plus, Qpower_opp by exact H2.
    assert (Hb' : (inject_Z (Z.pos d) < 2 ^ (b + 1))%Q).
    { rewrite Qpower_plus by exact H2. rewrite Hpb.
      change (2 ^ 1)%Q with (inject_Z 2). rewrite <- inject_Z_mult.
      rewrite <- Zlt_Qlt. replace (2 ^ b * 2)%Z with (2 ^ Z.succ b)%Z; [lia|].
      rewrite Z.pow_succ_r by lia. lia. }
    assert (Ha' : (2 ^ a <= inject_Z n)%Q) by (rewrite Hpa, <- Zle_Qle; lia).
    pose proof (Hpos (b + 1)%Z) as Hp.
    apply Qlt_le_trans with (2 ^ a * / 2 ^ (b + 1) * 2 ^ (b + 1))%Q.
    - apply Qmult_lt_l; [|exact Hb'].
      apply Qmult_lt_0_compat; [apply Hpos|].
      by apply Qinv_lt_0_compat.
    - assert (E : (2 ^ a * / 2 ^ (b + 1) * 2 ^ (b + 1) == 2 ^ a)%Q).
      { field. intros E. rewrite E in Hp. discriminate Hp. }
      rewrite E. exact Ha'. }
  assert (Hhi : (n # d < 2 ^ (a - b + 1))%Q).
  { rewrite Hq'. apply Qlt_shift_div_r; [exact Hd|].
    replace (a - b + 1)%Z with ((a + 1) + - b)%Z by lia.
    rewrite Qpower_plus, Qpower_opp by exact H2.
    assert (Ha' : (inject_Z n < 2 ^ (a + 1))%Q).
    { rewrite Qpower_plus by exact H2. rewrite Hpa.
      change (2 ^ 1)%Q with (inject_Z 2). rewrite <- inject_Z_mult.
      rewrite <- Zlt_Qlt. replace (2 ^ a * 2)%Z with (2 ^ Z.succ a)%Z; [lia|].
      rewrite Z.pow_succ_r by lia. lia. }
    assert (Hb' : (2 ^ b <= inject_Z (Z.pos d))%Q)
      by (rewrite Hpb, <- Zle_Qle; lia).
    pose proof (Hpos b) as Hp.
    apply Qlt_le_trans with (2 ^ (a + 1) * / 2 ^ b * 2 ^ b)%Q.
    - assert (E : (2 ^ (a + 1) * / 2 ^ b * 2 ^ b == 2 ^ (a + 1))%Q).
      { field. intros E. rewrite E in Hp. discriminate Hp. }
      rewrite E. exact Ha'.
    - apply Qmult_le_l; [|exact Hb'].
      apply Qmult_lt_0_compat; [apply Hpos|]. by apply Qinv_lt_0_compat. }
  destruct (Qle_bool (2 ^ (a - b)) (n # d)) eqn:E.
  - apply Qle_bool_iff in E. split; [exact E | exact Hhi].
  - split; [exact (Qlt_le_weak _ _ Hlo)|].
    replace (a - b - 1 + 1)%Z with (a - b)%Z by lia.
    apply Qnot_le_lt. intros Hle. apply Qle_bool_iff in Hle. congruence.
Qed.

Lemma round_half_even_near (x : Q) :
  (inject_Z (round_half_even x) - (1 # 2) <= x
   /\ x <= inject_Z (round_half_even x) + (1 # 2))%Q.
Proof.
  unfold round_half_even.
  pose proof (Qfloor_le x) as Hlo. pose proof (Qlt_floor x) as Hhi.
  rewrite inject_Z_plus in Hhi. change (inject_Z 1) with 1%Q in Hhi.
  destruct (Qcompare_spec (x - inject_Z (Qfloor x)) (1 # 2)) as [E|E|E].
  - destruct (Z.even (Qfloor x));
      rewrite ?inject_Z_plus; change (inject_Z 1) with 1%Q; lra.
  - lra.
  - rewrite inject_Z_plus. change (inject_Z 1) with 1%Q. lra.
Qed.

Lemma round_half_even_ge (x : Q) (N : Z) :
  (inject_Z N <= x)%Q -> (N <= round_half_even x)%Z.
Proof.
  intros H. apply Z.le_trans with (Qfloor x).
  - rewrite <- (Qfloor_Z N). by apply Qfloor_resp_le.
  - unfold round_half_even.
    destruct (_ ?= _)%Q; [destruct (Z.even _)|..]; lia.
Qed.

Lemma round_half_even_le (x : Q) (N : Z) :
  (x <= inject_Z N)%Q -> (round_half_even x <= N)%Z.
Proof.
  intros H. unfold round_half_even.
  pose proof (Qfloor_le x) as Hlo.
  assert (Hf : (Qfloor x <= N)%Z) by (rewrite Zle_Qle; lra).
  destruct (Z.eq_dec (Qfloor x) N) as [E|E].
  - assert (Hx : (x == inject_Z N)%Q) by (rewrite E in Hlo; lra).
    destruct (Qcompare_spec (x - inject_Z (Qfloor x)) (1 # 2)) as [C|C|C];
      rewrite E in C; try lra. lia.
  - destruct (_ ?= _)%Q; [destruct (Z.even _)|..]; lia.
Qed.

Lemma round_half_even_comp (x y : Q) :
  (x == y)%Q -> round_half_even x = round_half_even y.
Proof.
  intros E. unfold round_half_even.
  rewrite (Qfloor_comp x y E).
  assert (C : (x - inject_Z (Qfloor y) ?= 1 # 2)%Q
              = (y - inject_Z (Qfloor y) ?= 1 # 2)%Q).
  { apply Qcompare_comp; [by rewrite E | reflexivity]. }
  by rewrite C.
Qed.

Lemma round_half_even_Z (x : Q) (z : Z) :
  (x == inject_Z z)%Q -> round_half_even x = z.
Proof.
  intros E. rewrite (round_half_even_comp _ _ E).
  apply Z.le_antisymm.
  - apply round_half_even_le. lra.
  - apply round_half_even_ge. lra.
Qed.

Lemma Qred_inject_Z (q : Q) (z : Z) :
  (q == inject_Z z)%Q -> Qred q = inject_Z z.
Proof.
  intros E. rewrite (Qred_complete _ _ E). unfold Qred, inject_Z.
  pose proof (Z.ggcd_gcd z 1) as Hg.
  pose proof (Z.ggcd_correct_divisors z 1) as Hd.
  destruct (Z.ggcd z 1) as [g [a b]]. cbn in Hg. rewrite Z.gcd_1_r in Hg.
  subst g. destruct Hd as [Ha Hb]. rewrite Z.mul_1_l in Ha, Hb.
  by subst a b.
Qed.

Lemma round64_comp (p q : Q) : (p == q)%Q -> round64 p = round64 q.
Proof. intros E. unfold round64. by rewrite (Qred_complete _ _ E). Qed.

(** Rounding on the grid of [q]: between two points of the grid, and at
    most half a step away. *)
Lemma round64_pos_bounds (q : Q) (d : positive) (lo hi : Z) :
  (2 ^ Z.max (floor_log2 q - 52) (- 1074) == 1 # d)%Q ->
  (lo # d <= q)%Q -> (q <= hi # d)%Q -> (hi # d < 2 ^ 1024)%Q ->
  exists r : Q,
    round64_pos q = Fin r
    /\ (lo # d <= r)%Q /\ (r <= hi # d)%Q
    /\ (Qabs (r - q) <= 1 # (2 * d))%Q.
Proof.
  intros E Hlo Hhi Hbig. unfold round64_pos.
  set (P := (2 ^ Z.max (floor_log2 q - 52) (- 1074))%Q) in *. clearbody P.
  set (Big := (2 ^ 1024)%Q) in *. clearbody Big.
  assert (Hd : (0 < inject_Z (Z.pos d))%Q) by (by rewrite <- (Zlt_Qlt 0)).
  assert (Hx : (q / P == q * inject_Z (Z.pos d))%Q).
  { rewrite E, (Qmake_Qdiv 1 d). change (inject_Z 1) with 1%Q. field.
    lra. }
  assert (Hmk : forall z : Z, (z # d == inject_Z z * / inject_Z (Z.pos d))%Q)
    by (intros z; apply Qmake_Qdiv).
  assert (Hinv : (0 < / inject_Z (Z.pos d))%Q) by (by apply Qinv_lt_0_compat).
  assert (Hone : (/ inject_Z (Z.pos d) * inject_Z (Z.pos d) == 1)%Q)
    by (field; lra).
  rewrite (Hmk lo) in Hlo. rewrite (Hmk hi) in Hhi, Hbig.
  assert (Hlo' : (inject_Z lo <= q * inject_Z (Z.pos d))%Q).
  { apply Qle_trans
      with (inject_Z lo * / inject_Z (Z.pos d) * inject_Z (Z.pos d))%Q.
    - rewrite <- Qmult_assoc, Hone. lra.
    - apply Qmult_le_compat_r; [exact Hlo | lra]. }
  assert (Hhi' : (q * inject_Z (Z.pos d) <= inject_Z hi)%Q).
  { apply Qle_trans
      with (inject_Z hi * / inject_Z (Z.pos d) * inject_Z (Z.pos d))%Q.
    - apply Qmult_le_compat_r; [exact Hhi | lra].
    - rewrite <- Qmult_assoc, Hone. lra. }
  set (m := round_half_even (q / P)).
  pose proof (round_half_even_near (q / P)) as Hnear.
  pose proof (round_half_even_ge (q / P) lo ltac:(by rewrite Hx)) as Hge.
  pose proof (round_half_even_le (q / P) hi ltac:(by rewrite Hx)) as Hle.
  fold m in Hnear, Hge, Hle. clearbody m.
  rewrite Zle_Qle in Hge, Hle. rewrite Hx in Hnear.
  assert (Hr : (inject_Z m * P == m # d)%Q)
    by (rewrite E; unfold Qeq; cbn; lia).
  assert (Hmlo : (inject_Z lo * / inject_Z (Z.pos d)
                  <= inject_Z m * / inject_Z (Z.pos d))%Q)
    by (apply Qmult_le_compat_r; lra).
  assert (Hmhi : (inject_Z m * / inject_Z (Z.pos d)
                  <= inject_Z hi * / inject_Z (Z.pos d))%Q)
    by (apply Qmult_le_compat_r; lra).
  destruct (Qle_bool Big (inject_Z m * P)) eqn:Hover.
  { apply Qle_bool_iff in Hover. rewrite Hr, Hmk in Hover. lra. }
  exists (Qred (inject_Z m * P)). split; [reflexivity|].
  rewrite Qred_correct, Hr, !Hmk.
  split; [exact Hmlo|]. split; [exact Hmhi|].
  assert (Hhalf : (1 # 2 * d == (1 # 2) * / inject_Z (Z.pos d))%Q).
  { rewrite (Qmake_Qdiv 1 (2 * d)). change (Z.pos (2 * d)) with (2 * Z.pos d)%Z.
    rewrite inject_Z_mult. change (inject_Z 2) with 2%Q.
    change (inject_Z 1) with 1%Q. field. lra. }
  rewrite Hhalf.
  assert (Hq : (q == q * inject_Z (Z.pos d) * / inject_Z (Z.pos d))%Q)
    by (field; lra).
  set (x := (q * inject_Z (Z.pos d))%Q) in *. clearbody x.
  set (i := (/ inject_Z (Z.pos d))%Q) in *. clearbody i.
  assert (H1 : ((inject_Z m - x) * i <= (1 # 2) * i)%Q)
    by (apply Qmult_le_compat_r; lra).
  assert (H2 : ((x - inject_Z m) * i <= (1 # 2) * i)%Q)
    by (apply Qmult_le_compat_r; lra).
  apply Qabs_Qle_condition. rewrite Hq. split; lra.
Qed.

(** A quotient between 1 and 5 is rounded to a number between 1 and 5 that
    is at most [2^-51] away. *)
Lemma round64_unit_range (q : Q) :
  (1 <= q <= 5)%Q ->
  exists r : Q,
    round64 q = Fin r
    /\ (1 <= r <= 5)%Q
    /\ (Qabs (r - q) <= 1 # 2251799813685248)%Q.
Proof.
  intros [H1 H5]. unfold round64.
  pose proof (Qred_correct q) as Hq. set (q' := Qred q) in *. clearbody q'.
  assert (Hpos : (0 < q')%Q) by lra.
  rewrite (proj1 (Qgt_alt q' 0) Hpos).
  destruct (floor_log2_spec q' Hpos) as [Hlo Hhi].
  assert (He : (0 <= floor_log2 q' <= 2)%Z).
  { split.
    - destruct (Z.lt_ge_cases (floor_log2 q') 0) as [Hneg|]; [exfalso|done].
      pose proof (Qpower_le_compat_l 2 (floor_log2 q' + 1) 0 ltac:(lia)
                    ltac:(discriminate)) as Hp.
      change (2 ^ 0)%Q with 1%Q in Hp. lra.
    - destruct (Z.lt_ge_cases 2 (floor_log2 q')) as [Hbig|]; [exfalso|lia].
      pose proof (Qpower_le_compat_l 2 3 (floor_log2 q') ltac:(lia)
                    ltac:(discriminate)) as Hp.
      change (2 ^ 3)%Q with 8%Q in Hp. lra. }
  assert (Hcases : floor_log2 q' = 0%Z \/ floor_log2 q' = 1%Z
                   \/ floor_log2 q' = 2%Z) by lia.
  clear Hlo Hhi He.
  destruct Hcases as [E | [E | E]].
  - destruct (round64_pos_bounds q' (2 ^ 52) (2 ^ 52) (5 * 2 ^ 52))
      as (r & -> & Hr1 & Hr2 & Hr3).
    + rewrite E. vm_compute. reflexivity.
    + change (2 ^ 52 # 2 ^ 52)%Q with (4503599627370496 # 4503599627370496)%Q.
      assert ((4503599627370496 # 4503599627370496 == 1)%Q) by reflexivity.
      lra.
    + assert ((5 * 2 ^ 52 # 2 ^ 52 == 5)%Q) by reflexivity. lra.
    + vm_compute. reflexivity.
    + exists r. split; [reflexivity|].
      assert ((2 ^ 52 # 2 ^ 52 == 1)%Q) by reflexivity.
      assert ((5 * 2 ^ 52 # 2 ^ 52 == 5)%Q) by reflexivity.
      split; [lra|]. apply Qabs_Qle_condition in Hr3.
      assert ((1 # 2 * 2 ^ 52 <= 1 # 2251799813685248)%Q) by discriminate.
      apply Qabs_Qle_condition. lra.
  - destruct (round64_pos_bounds q' (2 ^ 51) (2 ^ 51) (5 * 2 ^ 51))
      as (r & -> & Hr1 & Hr2 & Hr3).
    + rewrite E. vm_compute. reflexivity.
    + assert ((2 ^ 51 # 2 ^ 51 == 1)%Q) by reflexivity. lra.
    + assert ((5 * 2 ^ 51 # 2 ^ 51 == 5)%Q) by reflexivity. lra.
    + vm_compute. reflexivity.
    + exists r. split; [reflexivity|].
      assert ((2 ^ 51 # 2 ^ 51 == 1)%Q) by reflexivity.
      assert ((5 * 2 ^ 51 # 2 ^ 51 == 5)%Q) by reflexivity.
      split; [lra|]. apply Qabs_Qle_condition in Hr3.
      assert ((1 # 2 * 2 ^ 51 <= 1 # 2251799813685248)%Q) by discriminate.
      apply Qabs_Qle_condition. lra.
  - destruct (round64_pos_bounds q' (2 ^ 50) (2 ^ 50) (5 * 2 ^ 50))
      as (r & -> & Hr1 & Hr2 & Hr3).
    + rewrite E. vm_compute. reflexivity.
    + assert ((2 ^ 50 # 2 ^ 50 == 1)%Q) by reflexivity. lra.
    + assert ((5 * 2 ^ 50 # 2 ^ 50 == 5)%Q) by reflexivity. lra.
    + vm_compute. reflexivity.
    + exists r. split; [reflexivity|].
      assert ((2 ^ 50 # 2 ^ 50 == 1)%Q) by reflexivity.
      assert ((5 * 2 ^ 50 # 2 ^ 50 == 5)%Q) by reflexivity.
      split; [lra|]. apply Qabs_Qle_condition in Hr3.
      assert ((1 # 2 * 2 ^ 50 <= 1 # 2251799813685248)%Q) by discriminate.
      apply Qabs_Qle_condition. lra.
Qed.

(** An integer is rounded to an integer, or to an infinity. *)
Lemma round64_pos_Z (z : Z) :
  (0 < z)%Z ->
  round64_pos (inject_Z z) = PInf
  \/ exists z' : Z, round64_pos (inject_Z z) = Fin (inject_Z z').
Proof.
  intros Hz. unfold round64_pos.
  set (e := Z.max (floor_log2 (inject_Z z) - 52) (- 1074)). clearbody e.
  destruct (Qle_bool _ _); [by left|right].
  assert (H2 : ~ (2 == 0)%Q) by discriminate.
  destruct (Z.lt_ge_cases e 0) as [Hneg|Hpos].
  - exists z. f_equal. apply Qred_inject_Z.
    assert (He : (2 ^ e == / inject_Z (2 ^ (- e)))%Q).
    { replace e with (- - e)%Z at 1 by lia.
      rewrite Qpower_opp. change 2%Q with (inject_Z 2).
      rewrite <- Zpower_Qpower by lia. reflexivity. }
    assert (Hp : (0 < inject_Z (2 ^ (- e)))%Q).
    { rewrite <- (Zlt_Qlt 0). apply Z.pow_pos_nonneg; lia. }
    rewrite (round_half_even_Z _ (z * 2 ^ (- e))).
    + rewrite He, inject_Z_mult. field. lra.
    + rewrite He, inject_Z_mult. field. lra.
  - exists (round_half_even (inject_Z z / 2 ^ e) * 2 ^ e)%Z.
    f_equal. apply Qred_inject_Z.
    rewrite inject_Z_mult, Zpower_Qpower by done. reflexivity.
Qed.

Lemma round64_Z (z : Z) :
  round64 (inject_Z z) = PInf \/ round64 (inject_Z z) = NInf
  \/ exists z' : Z, round64 (inject_Z z) = Fin (inject_Z z').
Proof.
  unfold round64. rewrite (Qred_inject_Z (inject_Z z) z) by reflexivity.
  destruct (Z.lt_trichotomy z 0) as [Hneg|[->|Hpos]].
  - assert (C : (inject_Z z ?= 0)%Q = Lt).
    { assert (H : (inject_Z z < inject_Z 0)%Q) by (by rewrite <- Zlt_Qlt).
      exact (proj1 (Qlt_alt _ _) H). }
    rewrite C. change (- inject_Z z)%Q with (inject_Z (- z)).
    destruct (round64_pos_Z (- z) ltac:(lia)) as [->|[z' ->]].
    + right. by left.
    + right. right. exists (- z')%Z. reflexivity.
  - right. right. by exists 0%Z.
  - assert (C : (inject_Z z ?= 0)%Q = Gt).
    { assert (H : (inject_Z 0 < inject_Z z)%Q) by (by rewrite <- Zlt_Qlt).
      exact (proj1 (Qgt_alt _ _) H). }
    rewrite C.
    destruct (round64_pos_Z z Hpos) as [->|[z' ->]]; [by left|].
    right. right. by exists z'.
Qed.

(** An integer below [2^53] is a binary64 number. *)
Lemma round64_exact_Z (z : Z) :
  (0 <= z < 2 ^ 53)%Z -> round64 (inject_Z z) = Fin (inject_Z z).
Proof.
  intros [H0 H53]. unfold round64.
  rewrite (Qred_inject_Z (inject_Z z) z) by reflexivity.
  destruct (Z.eq_dec z 0%Z) as [->|Hz]; [reflexivity|].
  assert (Hpos : (0 < inject_Z z)%Q) by (rewrite <- (Zlt_Qlt 0); lia).
  rewrite (proj1 (Qgt_alt _ _) Hpos). unfold round64_pos.
  destruct (floor_log2_spec _ Hpos) as [Hlo Hhi].
  assert (Hfl : (-1 <= floor_log2 (inject_Z z) <= 52)%Z).
  { split.
    - destruct (Z.lt_ge_cases (floor_log2 (inject_Z z)) (-1)%Z) as [Hneg|];
        [exfalso|done].
      pose proof (Qpower_le_compat_l 2 (floor_log2 (inject_Z z) + 1) 0
                    ltac:(lia) ltac:(discriminate)) as Hp.
      change (2 ^ 0)%Q with 1%Q in Hp.
      assert (H1 : (inject_Z 1 <= inject_Z z)%Q) by (rewrite <- Zle_Qle; lia).
      change (inject_Z 1) with 1%Q in H1. lra.
    - destruct (Z.lt_ge_cases 52%Z (floor_log2 (inject_Z z))) as [Hbig|];
        [exfalso|lia].
      pose proof (Qpower_le_compat_l 2 53 (floor_log2 (inject_Z z))
                    ltac:(lia) ltac:(discriminate)) as Hp.
      assert (H1 : (inject_Z z < inject_Z (2 ^ 53))%Q)
        by (by rewrite <- Zlt_Qlt).
      change (inject_Z (2 ^ 53)) with (2 ^ 53)%Q in H1. lra. }
  rewrite Z.max_l by lia.
  set (e := (floor_log2 (inject_Z z) - 52)%Z).
  assert (He0 : (e <= 0)%Z) by (unfold e; lia). clearbody e.
  assert (He : (2 ^ e == / inject_Z (2 ^ (- e)))%Q).
  { replace e with (- - e)%Z at 1 by lia.
    rewrite Qpower_opp. change 2%Q with (inject_Z 2).
    rewrite <- Zpower_Qpower by lia. reflexivity. }
  assert (Hp : (0 < inject_Z (2 ^ (- e)))%Q).
  { rewrite <- (Zlt_Qlt 0). apply Z.pow_pos_nonneg; lia. }
  rewrite (round_half_even_Z _ (z * 2 ^ (- e)))
    by (rewrite He, inject_Z_mult; field; lra).
  assert (Hr : (inject_Z (z * 2 ^ (- e)) * 2 ^ e == inject_Z z)%Q)
    by (rewrite He, inject_Z_mult; field; lra).
  destruct (Qle_bool _ _) eqn:Hover.
  { apply Qle_bool_iff in Hover. rewrite Hr in Hover.
    assert (H1 : (inject_Z z < inject_Z (2 ^ 53))%Q)
      by (by rewrite <- Zlt_Qlt).
    assert (H2 : (inject_Z (2 ^ 53) < 2 ^ 1024)%Q) by reflexivity.
    lra. }
  f_equal. by apply Qred_inject_Z.
Qed.


End Binary64.

(** ** The aggregator *)

Section Aggregator.

Lemma updateGameRating_ok (g : string) (w : world) :
  fires 2 (faults w) = false ->
  updateGameRating g w = (Return (aggregate g (reviews w)), recomputed g w).
Proof.
  intros Hf. destruct w as [rs gs fs c t].
  unfold updateGameRating, recomputed, aggregate, try_catch, bind,
    reviews_where_gameId, games_update, console_write, gets, modify, ret,
    round_trip, reviews_of; simpl in *.
  destruct fs as [|[] [|[] fs]]; try discriminate Hf; simpl;
    destruct (fold_left accumulate _ _) as [totalRating count]; reflexivity.
Qed.

Lemma updateGameRating_fail (g : string) (w : world) :
  fires 2 (faults w) = true ->
  updateGameRating g w = (Throw, recompute_failed w).
Proof.
  intros Hf. destruct w as [rs gs fs c t].
  unfold updateGameRating, recompute_failed, try_catch, bind,
    reviews_where_gameId, games_update, console_write, gets, modify, ret,
    throw, round_trip; simpl in *.
  destruct fs as [|[] [|[] fs]]; try discriminate Hf; simpl;
    try destruct (fold_left accumulate _ _) as [totalRating count];
    reflexivity.
Qed.

(** The loop body adds exactly the ratings that count. *)
Lemma accumulate_valid (t : Q) (c : nat) (r : review) :
  accumulate (Fin t, c) r =
  match valid_rating (Doc.rating r) with
  | Some q => (Fin (t + q), S c)
  | None => (Fin t, c)
  end.
Proof.
  unfold accumulate, valid_rating.
  destruct (Doc.rating r) as [| |b|[| | |q]|s]; simpl; try reflexivity.
  unfold Qlt_bool. rewrite !negb_involutive.
  destruct (Qle_bool 1 q), (Qle_bool q 5); reflexivity.
Qed.

Lemma fold_accumulate (l : list review) (t : Q) (c : nat) :
  exists t' : Q,
    fold_left accumulate l (Fin t, c) =
      (Fin t', (c + length (omap (fun r => valid_rating (Doc.rating r)) l))%nat)
    /\ (t' == t + Qsum (omap (fun r => valid_rating (Doc.rating r)) l))%Q.
Proof.
  revert t c. induction l as [|r l IH]; intros t c.
  - exists t. simpl. split; [f_equal; lia | lra].
  - cbn [fold_left]. rewrite accumulate_valid. csimpl.
    destruct (valid_rating (Doc.rating r)) as [q|]; simpl.
    + destruct (IH (t + q)%Q (S c)) as (t' & -> & Ht').
      exists t'. split; [f_equal; lia | lra].
    + apply IH.
Qed.

Lemma valid_rating_range (v : value) (q : Q) :
  valid_rating v = Some q -> (1 <= q <= 5)%Q.
Proof.
  destruct v as [| |b|[| | |a]|s]; simpl; try discriminate.
  destruct (Qle_bool 1 a) eqn:H1; destruct (Qle_bool a 5) eqn:H5;
    simpl; try discriminate.
  intros [= <-]. split; by apply Qle_bool_iff.
Qed.

Lemma Qsum_range (l : list review) :
  let qs := omap (fun r => valid_rating (Doc.rating r)) l in
  (inject_Z (Z.of_nat (length qs)) <= Qsum qs
   /\ Qsum qs <= 5 * inject_Z (Z.of_nat (length qs)))%Q.
Proof.
  induction l as [|r l IH]; csimpl.
  - split; unfold Qle; simpl; lia.
  - destruct (valid_rating (Doc.rating r)) as [q|] eqn:Hq; [|exact IH].
    apply valid_rating_range in Hq. csimpl in IH.
    cbn [length Qsum fold_right]. fold (Qsum (omap (fun r => valid_rating (Doc.rating r)) l)).
    rewrite Nat2Z.inj_succ, <- Z.add_1_r, inject_Z_plus.
    change (inject_Z 1) with 1%Q. split; lra.
Qed.

(** The average of [c] ratings between 1 and 5 whose sum is [s]: the
    quotient rounded to binary64, at most [2^-51] off, then to the tenth
    nearest to that, the upper one of two, then to binary64 again. *)
Lemma average_spec (t s : Q) (c : nat) :
  c <> O ->
  (t == s)%Q ->
  (inject_Z (Z.of_nat c) <= s)%Q -> (s <= 5 * inject_Z (Z.of_nat c))%Q ->
  exists d a : Q,
    (1 <= d <= 5)%Q
    /\ (Qabs (d - s / inject_Z (Z.of_nat c)) <= 1 # 2251799813685248)%Q
    /\ average (Fin t) c = round64 (Qfloor (d * 10 + (1 # 2)) # 10)
    /\ average (Fin t) c = Fin a
    /\ (1 <= a <= 5)%Q.
Proof.
  intros Hc Ht Hlo Hhi. unfold average, num_div.
  destruct (Nat.ltb_spec 0 c) as [_|?]; [|lia].
  set (N := inject_Z (Z.of_nat c)) in *.
  assert (HN : (1 <= N)%Q).
  { unfold N. change 1%Q with (inject_Z 1). rewrite <- Zle_Qle. lia. }
  destruct (Qeq_bool N 0) eqn:E.
  { apply Qeq_bool_iff in E. lra. }
  destruct (round64_unit_range (t / N)) as (d & -> & Hd & Hnear).
  { rewrite Ht. split; [apply Qle_shift_div_l | apply Qle_shift_div_r]; lra. }
  assert (Hnear' : (Qabs (d - s / N) <= 1 # 2251799813685248)%Q).
  { assert (Hq : (t / N == s / N)%Q) by (by rewrite Ht).
    by rewrite <- Hq. }
  unfold toFixed1.
  destruct (Qle_bool (inject_Z (10 ^ 21)) (Qabs d)) eqn:Hbig.
  { apply Qle_bool_iff in Hbig. rewrite Qabs_pos in Hbig by lra.
    exfalso. change (inject_Z (10 ^ 21)) with (10 ^ 21 # 1)%Q in Hbig.
    assert ((5 < 10 ^ 21 # 1)%Q) by reflexivity. lra. }
  assert (H0 : Qle_bool 0 d = true) by (apply Qle_bool_iff; lra).
  rewrite H0.
  set (k := Qfloor (d * 10 + (1 # 2))).
  assert (Hk10 : (10 <= k)%Z).
  { rewrite <- (Qfloor_Z 10). apply Qfloor_resp_le.
    change (inject_Z 10) with 10%Q. lra. }
  assert (Hk50 : (k <= 50)%Z).
  { pose proof (Qfloor_le (d * 10 + (1 # 2))) as Hf. fold k in Hf.
    assert (Hlt : (inject_Z k < inject_Z 51)%Q)
      by (change (inject_Z 51) with 51%Q; lra).
    rewrite <- Zlt_Qlt in Hlt. lia. }
  assert (Hkq : (k # 10 == inject_Z k * (1 # 10))%Q)
    by (unfold Qeq; cbn; lia).
  rewrite Zle_Qle in Hk10, Hk50.
  change (inject_Z 10) with 10%Q in Hk10.
  change (inject_Z 50) with 50%Q in Hk50.
  destruct (round64_unit_range (k # 10)) as (a & Ha & Hrange & _).
  { rewrite Hkq. clearbody k. split; lra. }
  exists d, a. by repeat split; try tauto.
Qed.



Lemma updateGameRating_cases (g : string) (w : world) :
  (fires 2 (faults w) = false
   /\ updateGameRating g w
      = (Return (aggregate g (reviews w)), recomputed g w))
  \/ (fires 2 (faults w) = true
      /\ updateGameRating g w = (Throw, recompute_failed w)).
Proof.
  destruct (fires 2 (faults w)) eqn:Hf; [right | left]; split; try done.
  - by apply updateGameRating_fail.
  - by apply updateGameRating_ok.
Qed.

Lemma rated_rated (r : number * nat) (o : gmap string value) :
  rated r (rated r o) = rated r o.
Proof.
  unfold rated. apply map_eq. intros k.
  rewrite !lookup_insert. repeat case_decide; congruence.
Qed.

(** C8.  Whether it succeeds or fails, a recompute of game [g] leaves every
    field of every game as it was, apart from [averageRating] and
    [totalRatings] of [g]. *)
Theorem updateGameRating_frame (g g' field : string) (w : world) :
  g' <> g \/ (field <> "averageRating" /\ field <> "totalRatings") ->
  game_field (games (snd (updateGameRating g w))) g' field
  = game_field (games w) g' field.
Proof.
  intros Hother.
  destruct (updateGameRating_cases g w) as [[_ ->]|[_ ->]]; [|reflexivity].
  unfold game_field, recomputed, rated. cbn [snd games].
  destruct (decide (g' = g)) as [->|Hg].
  - destruct Hother as [?|[Ha Ht]]; [done|].
    rewrite lookup_insert_eq. cbn [mbind option_bind].
    rewrite !lookup_insert_ne by done.
    destruct (games w !! g); reflexivity.
  - by rewrite lookup_insert_ne.
Qed.

(** C9.  A recompute that follows a successful recompute of the same game,
    with the reviews as they were, returns the same result and leaves the
    game store as the first one left it. *)
Theorem updateGameRating_idempotent (g : string) (w w1 : world)
  (r : number * nat) :
  updateGameRating g w = (Return r, w1) ->
  fires 2 (faults w1) = false ->
  exists w2 : world,
    updateGameRating g w1 = (Return r, w2)
    /\ games w2 = games w1
    /\ reviews w2 = reviews w1.
Proof.
  intros H1 Hf.
  destruct (updateGameRating_cases g w) as [[_ E]|[_ E]];
    rewrite E in H1; [|discriminate].
  injection H1 as <- <-.
  exists (recomputed g (recomputed g w)).
  split; [exact (updateGameRating_ok g _ Hf)|].
  split; [|reflexivity].
  unfold recomputed. cbn [games reviews].
  rewrite lookup_insert_eq. unfold default at 1. cbn [from_option id].
  rewrite rated_rated.
  apply insert_insert_eq.
Qed.

End Aggregator.

Arguments updateGameRating : simpl never.

(** ** What counts for an aggregate *)

Section Counting.

Lemma valid_ratings_insert (g id : string) (r : review)
  (rs : gmap string review) :
  rs !! id = None ->
  valid_ratings g (<[id := r]> rs) ≡ₚ counted g r ++ valid_ratings g rs.
Proof.
  intros Hid. unfold valid_ratings, reviews_of, counted.
  rewrite (map_to_list_insert rs id r Hid). csimpl.
  rewrite filter_cons. destruct (decide (Doc.gameId r = g)); [|done].
  csimpl. destruct (valid_rating (Doc.rating r)); done.
Qed.

Lemma valid_ratings_delete (g id : string) (r : review)
  (rs : gmap string review) :
  rs !! id = Some r ->
  valid_ratings g rs ≡ₚ counted g r ++ valid_ratings g (delete id rs).
Proof.
  intros Hid. rewrite <- (valid_ratings_insert g id r (delete id rs)).
  - by rewrite insert_delete_id.
  - apply lookup_delete_eq.
Qed.

Lemma valid_ratings_replace (g id : string) (old new : review)
  (rs : gmap string review) :
  rs !! id = Some old ->
  counted g new = counted g old ->
  valid_ratings g (<[id := new]> rs) ≡ₚ valid_ratings g rs.
Proof.
  intros Hid Hsame. rewrite <- (insert_delete_eq rs).
  rewrite valid_ratings_insert by apply lookup_delete_eq.
  rewrite (valid_ratings_delete g id old rs Hid). by rewrite Hsame.
Qed.

Lemma Qsum_Permutation (l1 l2 : list Q) :
  l1 ≡ₚ l2 -> (Qsum l1 == Qsum l2)%Q.
Proof.
  induction 1 as [|x l1 l2 _ IH|x y l|l1 l2 l3 _ IH1 _ IH2]; simpl.
  - reflexivity.
  - by rewrite IH.
  - ring.
  - by rewrite IH1.
Qed.

(** Equal totals give the very same average. *)
Lemma average_Qeq (t1 t2 : Q) (c : nat) :
  (t1 == t2)%Q ->
  (inject_Z (Z.of_nat c) <= t1)%Q -> (t1 <= 5 * inject_Z (Z.of_nat c))%Q ->
  average (Fin t1) c = average (Fin t2) c.
Proof.
  intros Ht _ _. unfold average, num_div.
  destruct (0 <? c)%nat; [|reflexivity].
  destruct (Qeq_bool (inject_Z (Z.of_nat c)) 0) eqn:E.
  - assert (E' : Qeq_bool t1 0 = Qeq_bool t2 0).
    { destruct (Qeq_bool t1 0) eqn:E1, (Qeq_bool t2 0) eqn:E2; try done.
      - apply Qeq_bool_iff in E1. apply Qeq_bool_neq in E2. lra.
      - apply Qeq_bool_iff in E2. apply Qeq_bool_neq in E1. lra. }
    assert (L : Qlt_bool t1 0 = Qlt_bool t2 0).
    { unfold Qlt_bool. f_equal.
      destruct (Qle_bool 0 t1) eqn:E1, (Qle_bool 0 t2) eqn:E2; try done.
      - apply Qle_bool_iff in E1.
        assert (~ (0 <= t2)%Q) by (rewrite <- Qle_bool_iff; congruence). lra.
      - apply Qle_bool_iff in E2.
        assert (~ (0 <= t1)%Q) by (rewrite <- Qle_bool_iff; congruence). lra. }
    by rewrite E', L.
  - f_equal. apply round64_comp. by rewrite Ht.
Qed.

(** On ratings that are integers, as long as five times their number stays
    below [2^53], every sum of the binary64 loop is exact, and the aggregate
    is the one of the aggregator. *)
Lemma accumulate64_valid (s : Z) (c : nat) (r : review) :
  accumulate64 (Fin (inject_Z s), c) r =
  match valid_rating (Doc.rating r) with
  | Some q => (round64 (inject_Z s + q), S c)
  | None => (Fin (inject_Z s), c)
  end.
Proof.
  unfold accumulate64, valid_rating.
  destruct (Doc.rating r) as [| |b|[| | |q]|x]; simpl; try reflexivity.
  unfold Qlt_bool. rewrite !negb_involutive.
  destruct (Qle_bool 1 q), (Qle_bool q 5); reflexivity.
Qed.

Lemma fold_accumulate64 (l : list review) (s : Z) (c : nat) :
  let qs := omap (fun r => valid_rating (Doc.rating r)) l in
  Forall integral qs ->
  (0 <= s)%Z -> (s + 5 * Z.of_nat (length qs) < 2 ^ 53)%Z ->
  exists s' : Z,
    fold_left accumulate64 l (Fin (inject_Z s), c)
    = (Fin (inject_Z s'), (c + length qs)%nat)
    /\ (inject_Z s' == inject_Z s + Qsum qs)%Q.
Proof.
  cbv zeta. revert s c. induction l as [|r l IH]; intros s c Hint Hs Hlen.
  - exists s. simpl. split; [f_equal; lia | lra].
  - cbn [fold_left]. rewrite accumulate64_valid. csimpl in *.
    destruct (valid_rating (Doc.rating r)) as [q|] eqn:Hq; simpl in *.
    + apply valid_rating_range in Hq.
      apply Forall_cons in Hint as [[z Hz] Hint].
      assert (Hz15 : (1 <= z <= 5)%Z).
      { rewrite Hz in Hq. change 1%Q with (inject_Z 1) in Hq.
        change 5%Q with (inject_Z 5) in Hq. rewrite <- !Zle_Qle in Hq.
        exact Hq. }
      rewrite (round64_comp _ (inject_Z (s + z)))
        by (rewrite inject_Z_plus, Hz; reflexivity).
      rewrite round64_exact_Z by lia.
      destruct (IH (s + z)%Z (S c) Hint ltac:(lia) ltac:(lia))
        as (s' & -> & Hs').
      exists s'. split; [f_equal; lia|].
      rewrite Hs', inject_Z_plus, Hz. lra.
    + by apply IH.
Qed.

Lemma aggregate64_integral (g : string) (rs : gmap string review) :
  Forall integral (valid_ratings g rs) ->
  (5 * Z.of_nat (length (valid_ratings g rs)) < 2 ^ 53)%Z ->
  aggregate64 g rs = aggregate g rs.
Proof.
  intros Hint Hlen. unfold aggregate64, aggregate.
  destruct (fold_accumulate64 (reviews_of g rs) 0 0 Hint ltac:(done)
              ltac:(by rewrite Z.add_0_l)) as (s & E64 & Hs).
  destruct (fold_accumulate (reviews_of g rs) 0 0) as (t & E & Ht).
  pose proof (Qsum_range (reviews_of g rs)) as [Hlo Hhi].
  change (Fin (inject_Z 0)) with (Fin 0) in E64. rewrite E64, E.
  f_equal. apply average_Qeq.
  - rewrite Hs, Ht. reflexivity.
  - rewrite Hs. rewrite Nat.add_0_l. change (inject_Z 0) with 0%Q. lra.
  - rewrite Hs. rewrite Nat.add_0_l. change (inject_Z 0) with 0%Q. lra.
Qed.

(** The aggregate of a game depends on the ratings that count only, in
    whatever order the store returns them. *)
Lemma aggregate_Permutation (g : string) (rs1 rs2 : gmap string review) :
  valid_ratings g rs1 ≡ₚ valid_ratings g rs2 ->
  aggregate g rs1 = aggregate g rs2.
Proof.
  intros Hperm. unfold aggregate.
  destruct (fold_accumulate (reviews_of g rs1) 0 0) as (t1 & -> & Ht1).
  destruct (fold_accumulate (reviews_of g rs2) 0 0) as (t2 & -> & Ht2).
  pose proof (Qsum_range (reviews_of g rs1)) as Hrange. cbv zeta in Hrange.
  fold (valid_ratings g rs1) in *. fold (valid_ratings g rs2) in *.
  rewrite Qplus_0_l in Ht1, Ht2.
  rewrite <- (Permutation_length Hperm).
  rewrite Nat.add_0_l. f_equal.
  apply average_Qeq.
  - by rewrite Ht1, Ht2, (Qsum_Permutation _ _ Hperm).
  - rewrite Ht1. tauto.
  - rewrite Ht1. tauto.
Qed.

Lemma aggregate_count (g : string) (rs : gmap string review) :
  snd (aggregate g rs) = length (valid_ratings g rs).
Proof.
  unfold aggregate.
  by destruct (fold_accumulate (reviews_of g rs) 0 0) as (t & -> & _).
Qed.

(** X1.  The aggregate that a recompute returns and writes is 0 of 0 ratings, or
    an average between 1 and 5 of at least one rating. *)
Theorem updateGameRating_range (g : string) (w w' : world)
  (averageRating : number) (totalRatings : nat) :
  updateGameRating g w = (Return (averageRating, totalRatings), w') ->
  (totalRatings = O /\ averageRating = Fin 0)
  \/ (totalRatings <> O
      /\ exists a : Q, averageRating = Fin a /\ (1 <= a <= 5)%Q).
Proof.
  intros H.
  destruct (updateGameRating_cases g w) as [[_ E]|[_ E]];
    rewrite E in H; [|discriminate].
  injection H as Ha _. revert Ha. unfold aggregate.
  destruct (fold_accumulate (reviews_of g (reviews w)) 0 0)
    as (t & -> & Ht).
  pose proof (Qsum_range (reviews_of g (reviews w))) as Hrange.
  cbv zeta in Hrange. rewrite Nat.add_0_l. rewrite Qplus_0_l in Ht.
  set (qs := omap _ _) in *. intros [= <- <-].
  destruct (length qs) as [|n] eqn:Hn; [by left|right].
  split; [done|].
  destruct (average_spec t (Qsum qs) (S n))
    as (d & a & _ & _ & _ & -> & Hrange'); [done|done|tauto|tauto|].
  by exists a.
Qed.

(** X2.  A review of another game, or one whose rating does not count, does not
    change the aggregate of a game when it is added to the store. *)
Theorem aggregate_ignores (g id : string) (r : review)
  (rs : gmap string review) :
  rs !! id = None ->
  Doc.gameId r <> g \/ valid_rating (Doc.rating r) = None ->
  aggregate g (<[id := r]> rs) = aggregate g rs.
Proof.
  intros Hid Hwhy. apply aggregate_Permutation.
  rewrite valid_ratings_insert by done. unfold counted.
  destruct (decide (Doc.gameId r = g)); [|done].
  destruct Hwhy as [? | ->]; done.
Qed.

(** X3.  A recompute for a game that the game store does not have creates a
    record for it that holds the two aggregate fields and nothing else. *)
Theorem updateGameRating_missing_game (g : string) (w w' : world)
  (r : number * nat) :
  games w !! g = None ->
  updateGameRating g w = (Return r, w') ->
  games w' !! g
  = Some (<["averageRating" := VNum (fst r)]>
            (<["totalRatings" := VNum (Fin (inject_Z (Z.of_nat (snd r))))]>
               ∅)).
Proof.
  intros Hg H.
  destruct (updateGameRating_cases g w) as [[_ E]|[_ E]];
    rewrite E in H; [|discriminate].
  injection H as <- <-. unfold recomputed. cbn [games].
  rewrite lookup_insert_eq, Hg. reflexivity.
Qed.

End Counting.

(** ** The handlers *)

Section Handlers.

Ltac run :=
  unfold handle, addReview, updateReview, deleteReview, deleteReviewByAdmin,
    reviews_doc_get, reviews_doc_update, reviews_doc_delete, reviews_add,
    games_exists, console_write, respond, try_catch, bind, gets, modify,
    ret, throw, round_trip.

(** Follows every path of a handler whose run is described by [H]. *)
Ltac paths H :=
  repeat (cbn in H;
    match type of H with
    | context [updateGameRating ?g ?w] =>
        let E := fresh "E" in
        destruct (updateGameRating_cases g w) as [[? E]|[? E]];
        rewrite E in H; clear E
    | context [match ?fs with [] => _ | _ :: _ => _ end] =>
        destruct fs as [|[] ?]
    | context [match ?x !! ?k with Some _ => _ | None => _ end] =>
        destruct (x !! k) eqn:?
    | context [if ?b then _ else _] => destruct b eqn:?
    end).

(** Every number that reaches [parseInt] has passed the range check, and so
    prints in positional notation. *)
Lemma validated_number_range (text : value) (q : Q) :
  validated text (VNum (Fin q)) = true ->
  ToBoolean (VNum (Fin q)) = true ->
  (1 <= q <= 5)%Q.
Proof.
  unfold validated, lt, gt, num_lt, ToNumber, Qlt_bool. intros Hv Ht.
  rewrite Ht in Hv. apply andb_true_iff in Hv as [_ Hv].
  apply negb_true_iff, orb_false_iff in Hv as [H1 H5].
  apply negb_false_iff in H1, H5. split; by apply Qle_bool_iff.
Qed.

(** C5.  A call answered with the status of a ValidationError (400), an
    AuthorizationError (403) or a NotFoundError (404) has changed neither
    the review store nor the game store, and has invoked no recompute: the
    console, where every recompute leaves an entry, is as it was. *)
Theorem rejection_has_no_effect (c : call) (w w' : world) (r : response) :
  handle c w = (Return r, w') ->
  rejection (status r) = true ->
  reviews w' = reviews w /\ games w' = games w /\ console w' = console w.
Proof.
  destruct w as [rs gs fs cs t].
  destruct c as [uid g tx rt|rid uid tx rt|rid uid adm|rid]; run;
    intros H Hs; paths H; injection H as <- <-; try discriminate Hs; done.
Qed.

(** What triggers the recompute of an update: the value of the request not
    being [===] to the stored one. *)
Lemma updateReview_trigger (reviewId userId : string) (text rating : value)
  (w w' : world) (r : response) :
  updateReview reviewId userId text rating w = (Return r, w') ->
  status r = 200%nat ->
  exists old : review,
    reviews w !! reviewId = Some old
    /\ length (written w w')
       = if strict_neq rating (Doc.rating old) then 1%nat else 0%nat.
Proof.
  destruct w as [rs gs fs cs t]. run. intros H Hs.
  paths H; injection H as <- <-; try discriminate Hs; simplify_eq;
    (eexists; split; [eassumption|]); unfold written; cbn;
    match goal with
    | E : strict_neq _ _ = _ |- _ => rewrite E
    end;
    rewrite ?drop_all, ?drop_app_length; reflexivity.
Qed.

(** C10.  A successful update overwrites both [text] and [rating] of the
    stored review by what the request gives: a request without a text stores
    [null] as the text, and a request without a rating stores [null] as the
    rating, whatever was stored before. *)
Theorem updateReview_overwrites (reviewId userId : string)
  (text rating : value) (w w' : world) (r : response) :
  updateReview reviewId userId text rating w = (Return r, w') ->
  status r = 200%nat ->
  exists old : review,
    reviews w !! reviewId = Some old
    /\ reviews w' = <[reviewId := updated old text rating]> (reviews w)
    /\ (text = VUndef ->
        Doc.text <$> reviews w' !! reviewId = Some VNull)
    /\ (rating = VUndef ->
        Doc.rating <$> reviews w' !! reviewId = Some VNull).
Proof.
  destruct w as [rs gs fs cs t]. run. intros H Hs.
  paths H; injection H as <- <-; try discriminate Hs;
    (eexists; split; [eassumption|]; cbn; split; [reflexivity|];
     rewrite lookup_insert_eq; split; intros ->; reflexivity).
Qed.

Lemma aggregate_none (g : string) (rs : gmap string review) :
  valid_ratings g rs = [] -> aggregate g rs = (Fin 0, O).
Proof.
  intros Hnone. unfold aggregate.
  destruct (fold_accumulate (reviews_of g rs) 0 0) as (t & -> & _).
  fold (valid_ratings g rs). rewrite Hnone. reflexivity.
Qed.

Lemma recomputes_app (c1 c2 : list entry) :
  recomputes (c1 ++ c2) = (recomputes c1 ++ recomputes c2)%list.
Proof. apply List.filter_app. Qed.

(** As [paths], for runs that occur in the goal. *)
Ltac goal_paths :=
  repeat (cbn;
    match goal with
    | |- context [updateGameRating ?g ?w] =>
        let E := fresh "E" in
        destruct (updateGameRating_cases g w) as [[? E]|[? E]];
        rewrite E; clear E
    | |- context [match ?fs with [] => _ | _ :: _ => _ end] =>
        destruct fs as [|[] ?]
    | |- context [match ?x !! ?k with Some _ => _ | None => _ end] =>
        destruct (x !! k) eqn:?
    | |- context [if ?b then _ else _] => destruct b eqn:?
    end).

(** C7.  From every state and for every review identifier, the moderator
    delete and the delete of a requester whose [isAdmin] is [true] answer with
    the same status and leave the same review store, the same game store and
    the same fault plan, after the same recomputes. *)
Theorem deleteReviewByAdmin_as_deleteReview (reviewId userId : string)
  (w : world) :
  exists (r1 r2 : response) (w1 w2 : world),
    deleteReviewByAdmin reviewId w = (Return r1, w1)
    /\ deleteReview reviewId userId (VBool true) w = (Return r2, w2)
    /\ status r1 = status r2
    /\ reviews w1 = reviews w2
    /\ games w1 = games w2
    /\ faults w1 = faults w2
    /\ recomputes (console w1) = recomputes (console w2).
Proof.
  destruct w as [rs gs fs cs t]. run.
  goal_paths; eexists _, _, _, _;
    (split; [reflexivity|]); (split; [reflexivity|]); cbn;
    rewrite ?recomputes_app; done.
Qed.

(** C4, as the code has it.  When the recompute triggered by a create, an
    update or a delete throws (it then logs its error), the handler answers
    with status 500: the failure is surfaced to the caller.  The review
    mutation, committed before the recompute, stays, and the game store is
    as it was. *)
Theorem recompute_failure_is_surfaced (c : call) (w w' : world)
  (o : outcome response) :
  handle c w = (o, w') ->
  In ErrUpdateGameRating (written w w') ->
  (exists msg : string, o = Return {| status := 500; json := Error msg |})
  /\ reviews w' = committed c w
  /\ games w' = games w.
Proof.
  destruct w as [rs gs fs cs t].
  destruct c as [uid g tx rt|rid uid tx rt|rid uid adm|rid]; run;
    intros H Hin; paths H; injection H as <- <-;
    unfold written in Hin; cbn in Hin;
    rewrite <- ?app_assoc, ?drop_all, ?drop_app_length in Hin;
    cbn in Hin; try (exfalso; intuition discriminate);
    (split; [eexists; reflexivity|]); cbn;
    repeat match goal with E : _ !! _ = _ |- _ => rewrite E end; done.
Qed.


(** *** The lifecycle, call by call *)

Ltac flip_negb :=
  repeat match goal with
  | E : negb _ = false |- _ => apply negb_false_iff in E
  | E : negb _ = true |- _ => apply negb_true_iff in E
  end.

Ltac use_eqs := repeat match goal with E : _ = _ |- _ => rewrite E end.

(** A call that is answered with a success has passed every check, has
    committed its mutation and, when it asked for a recompute, has written
    the aggregate of the committed reviews. *)
Lemma success_summary (c : call) (w w' : world) (r : response) :
  handle c w = (Return r, w') ->
  succeeded (status r) = true ->
  status r = verdict c w
  /\ reviews w' = committed c w
  /\ games w' = settled c w.
Proof.
  destruct w as [rs gs fs cs t].
  destruct c as [uid g tx rt|rid uid tx rt|rid uid adm|rid]; run;
    intros H Hs; paths H; injection H as <- <-; try discriminate Hs;
    simplify_eq;
    unfold verdict, settled, trigger, game_of, target, committed, validated,
      created;
    cbn; flip_negb; use_eqs; cbn; use_eqs; done.
Qed.

(** Every handler catches what the stores throw: a call is always answered,
    with one of six statuses. *)
Theorem handle_always_answers (c : call) (w : world) :
  exists (r : response) (w' : world),
    handle c w = (Return r, w')
    /\ In (status r) [200; 201; 400; 403; 404; 500]%nat.
Proof.
  destruct w as [rs gs fs cs t].
  destruct c as [uid g tx rt|rid uid tx rt|rid uid adm|rid]; run;
    goal_paths; eexists _, _; (split; [reflexivity|]); cbn; tauto.
Qed.

Lemma fires_quiet (k : nat) (fs : list bool) :
  existsb id fs = false -> fires k fs = false.
Proof.
  unfold fires. revert k. induction fs as [|[] fs IH]; intros [|k] H;
    try done. cbn in *. by apply IH.
Qed.

(** X4.  When no store round trip fails, the status of the answer is the one the
    checks of the handler give, in their order: for an update, a missing
    review before a foreign one before a bad input; for a create, a bad input
    before a missing game.  In particular the answer is not a 500. *)
Theorem status_without_faults (c : call) (w w' : world) (r : response) :
  existsb id (faults w) = false ->
  handle c w = (Return r, w') ->
  status r = verdict c w.
Proof.
  destruct w as [rs gs fs cs t].
  destruct c as [uid g tx rt|rid uid tx rt|rid uid adm|rid]; run;
    intros Hq H; cbn in Hq; paths H; injection H as <- <-;
    cbn in Hq; try discriminate Hq;
    repeat match goal with
    | F : fires 2 _ = true |- _ =>
        let Q := fresh "Q" in
        pose proof (fires_quiet 2 _ Hq) as Q;
        unfold fires in F, Q; cbn in F, Q; congruence
    end;
    simplify_eq; unfold verdict, validated; cbn; flip_negb; use_eqs; cbn;
    use_eqs; done.
Qed.

(** Whatever the answer, the stores are in one of three states: as they
    were; the review mutation committed and the game store as it was; or the
    mutation committed and the aggregate of the committed reviews written. *)
Lemma store_states (c : call) (w w' : world) (r : response) :
  handle c w = (Return r, w') ->
  (reviews w' = reviews w /\ games w' = games w)
  \/ (reviews w' = committed c w
      /\ (games w' = games w \/ games w' = settled c w)).
Proof.
  destruct w as [rs gs fs cs t].
  destruct c as [uid g tx rt|rid uid tx rt|rid uid adm|rid]; run;
    intros H; paths H; injection H as <- <-; simplify_eq;
    unfold settled, trigger, game_of, target, committed, created; cbn;
    use_eqs; cbn; use_eqs; auto.
Qed.

Lemma committed_other (c : call) (w : world) (id : string) :
  id <> target c w -> committed c w !! id = reviews w !! id.
Proof.
  intros Hid. destruct c as [uid g tx rt|rid uid tx rt|rid uid adm|rid];
    cbn in *.
  - by rewrite lookup_insert_ne.
  - destruct (reviews w !! rid); [by rewrite lookup_insert_ne | done].
  - by rewrite lookup_delete_ne.
  - by rewrite lookup_delete_ne.
Qed.

Lemma recompute_gives_aggregate (g : string) (rs : gmap string review)
  (a : number * nat) :
  recompute_gives g rs a <-> a = aggregate g rs.
Proof.
  split.
  - intros (w0 & w1 & <- & H).
    destruct (updateGameRating_cases g w0) as [[_ E]|[_ E]];
      rewrite E in H; [|discriminate]. by injection H as <- _.
  - intros ->.
    pose (w0 := {| reviews := rs; games := ∅; faults := []; console := [];
                   now := "" |}).
    exists w0, (recomputed g w0).
    split; [reflexivity|]. by apply (updateGameRating_ok g w0).
Qed.

Lemma up_to_date_consistent (g : string) (w : world) :
  up_to_date g w <-> consistent g w.
Proof.
  unfold up_to_date, consistent. split.
  - intros (a & Ha & Havg & Htot).
    apply recompute_gives_aggregate in Ha as ->. done.
  - intros [Havg Htot]. exists (aggregate g (reviews w)).
    by rewrite recompute_gives_aggregate.
Qed.

(** X5.  The game store changes only once the review mutation is committed,
    and then by the recompute of the game of the review alone: what is
    written is what that recompute returns over the committed reviews.  No
    aggregate is ever written from reviews that are not in the store. *)
Theorem recompute_only_after_commit (c : call) (w w' : world)
  (r : response) :
  handle c w = (Return r, w') ->
  games w' <> games w ->
  trigger c w = true
  /\ reviews w' = committed c w
  /\ exists (g : string) (a : number * nat),
      game_of c w = Some g
      /\ recompute_gives g (committed c w) a
      /\ games w' = <[g := rated a (default ∅ (games w !! g))]> (games w).
Proof.
  intros H Hg.
  destruct (store_states c w w' r H) as [[_ ?]|[Hr [?|Hs]]]; try done.
  rewrite Hs in Hg |- *. unfold settled in *.
  destruct (trigger c w); [|done]. destruct (game_of c w) as [g|]; [|done].
  split; [done|]. split; [done|].
  exists g, (aggregate g (committed c w)).
  split; [done|]. split; [by apply recompute_gives_aggregate | done].
Qed.

(** No call touches a review other than the one it is about. *)
Theorem other_reviews_untouched (c : call) (w w' : world) (r : response)
  (id : string) :
  handle c w = (Return r, w') ->
  id <> target c w ->
  reviews w' !! id = reviews w !! id.
Proof.
  intros H Hid.
  destruct (store_states c w w' r H) as [[-> _]|[-> _]]; [done|].
  by apply committed_other.
Qed.

(** X6.  No call changes a field of a game other than [averageRating] and
    [totalRatings] of the game of its review. *)
Theorem handlers_frame_games (c : call) (w w' : world) (r : response)
  (g field : string) :
  handle c w = (Return r, w') ->
  game_of c w <> Some g
  \/ (field <> "averageRating" /\ field <> "totalRatings") ->
  game_field (games w') g field = game_field (games w) g field.
Proof.
  intros H Hother.
  destruct (store_states c w w' r H) as [[_ ->]|[_ [->| ->]]]; try done.
  unfold settled. destruct (trigger c w); [|done].
  destruct (game_of c w) as [g0|]; [|done].
  unfold game_field, rated. destruct (decide (g = g0)) as [->|Hg].
  - destruct Hother as [?|[Ha Ht]]; [done|].
    rewrite lookup_insert_eq. cbn [mbind option_bind].
    rewrite !lookup_insert_ne by done.
    destruct (games w !! g0); reflexivity.
  - by rewrite lookup_insert_ne.
Qed.

(** X7.  An update, or a delete without the administrator flag, asked by someone
    who is not the owner of the review changes neither store, and is answered
    with 403, or with 500 when the review could not be read. *)
Theorem foreign_review_untouched (c : call) (w w' : world) (r : response)
  (userId : string) (old : review) :
  requester c = Some userId ->
  reviews w !! target c w = Some old ->
  Doc.userId old <> userId ->
  handle c w = (Return r, w') ->
  reviews w' = reviews w /\ games w' = games w
  /\ (status r = 403%nat \/ status r = 500%nat).
Proof.
  destruct w as [rs gs fs cs t].
  destruct c as [uid g tx rt|rid uid tx rt|rid uid adm|rid]; try done;
    cbn [requester target reviews].
  - intros [= <-] Hold Hne. run. intros H.
    paths H; injection H as <- <-; simplify_eq; flip_negb;
      try match goal with
      | E : (_ =? _)%string = true |- _ => apply String.eqb_eq in E
      end; try done; cbn; auto.
  - destruct (ToBoolean adm) eqn:Hadm; [done|].
    intros [= <-] Hold Hne. run. intros H. rewrite Hadm in H.
    paths H; injection H as <- <-; simplify_eq; flip_negb;
      try match goal with
      | E : (_ =? _)%string = true |- _ => apply String.eqb_eq in E
      end; try done; cbn; auto.
Qed.

(** X8.  A create answered with 201 has stored the review of the request under
    the identifier it returns, which was not in use, for a game that exists:
    a read of that identifier gives the review back. *)
Theorem addReview_stores_new_review (userId gameId : string)
  (text rating : value) (w w' : world) (r : response) :
  addReview userId gameId text rating w = (Return r, w') ->
  status r = 201%nat ->
  exists id : string,
    json r = Added "Review added successfully" id
    /\ reviews w !! id = None
    /\ reviews w' !! id = Some (created userId gameId text rating w)
    /\ is_Some (games w !! gameId).
Proof.
  destruct w as [rs gs fs cs t]. run. intros H Hs.
  paths H; injection H as <- <-; try discriminate Hs; flip_negb;
    (exists (fresh (dom rs)); cbn; split; [reflexivity|];
     split; [apply not_elem_of_dom, is_fresh|];
     split; [apply lookup_insert_eq|];
     by eapply bool_decide_eq_true_1).
Qed.

Lemma success_request (c : call) (w w' : world) (r : response)
  (text rating : value) :
  request c = Some (text, rating) ->
  handle c w = (Return r, w') ->
  succeeded (status r) = true ->
  validated text rating = true
  /\ exists new : review,
      reviews w' !! target c w = Some new
      /\ Doc.text new = or_null text
      /\ Doc.rating new = rating_or_null rating.
Proof.
  intros Hreq H Hs.
  destruct (success_summary c w w' r H Hs) as (Hv & -> & _).
  rewrite Hv in Hs. clear H Hv.
  destruct c as [uid g tx rt|rid uid tx rt|rid uid adm|rid]; try done;
    injection Hreq as -> ->; cbn in *.
  - destruct (validated text rating); [|done].
    split; [done|]. eexists. rewrite lookup_insert_eq. done.
  - destruct (reviews w !! rid) as [old|]; [|done].
    destruct (negb (Doc.userId old =? uid)%string); [done|].
    destruct (validated text rating); [|done].
    split; [done|]. eexists. rewrite lookup_insert_eq. done.
Qed.

Lemma validated_content (text rating : value) :
  validated text rating = true ->
  or_null text <> VNull \/ rating_or_null rating <> VNull.
Proof.
  unfold validated, or_null, rating_or_null. intros Hv.
  apply andb_true_iff in Hv as [Hv _]. apply negb_true_iff in Hv.
  destruct (ToBoolean text) eqn:Ht.
  - left. intros ->. discriminate Ht.
  - right. destruct (ToBoolean rating); [done|discriminate Hv].
Qed.

Lemma validated_numeric (text : value) (n : number) :
  validated text (VNum n) = true ->
  rating_or_null (VNum n) = VNull
  \/ exists z : Z, (1 <= z <= 5)%Z /\ rating_or_null (VNum n) = num z.
Proof.
  intros Hv. unfold rating_or_null.
  destruct (ToBoolean (VNum n)) eqn:Ht; [right|by left].
  destruct n as [| | |q]; try discriminate Ht.
  - unfold validated in Hv. cbn in Hv. by rewrite andb_false_r in Hv.
  - unfold validated in Hv. cbn in Hv. by rewrite andb_false_r in Hv.
  - destruct (validated_number_range text q Hv Ht) as [H1 H5].
    exists (Z.quot (Qnum q) (Z.pos (Qden q))). split; [|reflexivity].
    unfold Qle in H1, H5. cbn in H1, H5.
    rewrite Z.quot_div_nonneg by lia. split.
    + apply Z.div_le_lower_bound; lia.
    + apply Z.div_le_upper_bound; lia.
Qed.

(** X9.  A review stored by a successful create or update has a text or a rating:
    its [text] and its [rating] are not both [null].  When the rating of the
    request is a number, the rating stored is [null] or an integer from 1
    to 5. *)
Theorem stored_review_is_valid (c : call) (w w' : world) (r : response)
  (text rating : value) :
  request c = Some (text, rating) ->
  handle c w = (Return r, w') ->
  succeeded (status r) = true ->
  exists new : review,
    reviews w' !! target c w = Some new
    /\ (Doc.text new <> VNull \/ Doc.rating new <> VNull)
    /\ (is_number rating = true ->
        Doc.rating new = VNull
        \/ exists z : Z, (1 <= z <= 5)%Z /\ Doc.rating new = num z).
Proof.
  intros Hreq H Hs.
  destruct (success_request c w w' r text rating Hreq H Hs)
    as (Hv & new & Hnew & Ht & Hr).
  exists new. split; [done|]. rewrite Ht, Hr.
  split; [by apply validated_content|].
  destruct rating as [| | |n|]; try discriminate.
  intros _. by eapply validated_numeric.
Qed.

Lemma parseInt_integer (v : value) :
  parseInt v = NaN \/ parseInt v = PInf \/ parseInt v = NInf
  \/ exists z : Z, parseInt v = Fin (inject_Z z).
Proof.
  destruct v as [| |b|[| | |q]|s]; cbn; auto.
  - do 3 right. eexists. reflexivity.
  - unfold parseInt_string.
    destruct (sign _) as [neg l].
    destruct (match l with
              | "0"%char :: c :: r =>
                  if Ascii.eqb c "x" || Ascii.eqb c "X"
                  then (16%Z, r) else (10%Z, l)
              | _ => (10%Z, l)
              end) as [R l'].
    destruct (digits R 0 0 l') as [[v n] rest].
    destruct n; [by left|]. right.
    destruct (round64_Z v) as [-> | [-> | [z ->]]]; destruct neg; cbn; auto.
    + do 2 right. by exists (- z)%Z.
    + do 2 right. by exists z.
Qed.

Lemma wf_rating_or_null (rating : value) : wf_rating (rating_or_null rating).
Proof.
  unfold rating_or_null, wf_rating.
  destruct (ToBoolean rating); [|by left]. right.
  destruct (parseInt_integer rating) as [-> | [-> | [-> | [z ->]]]]; auto.
  do 3 right. by exists z.
Qed.

Lemma committed_wf (c : call) (w : world) :
  wf_store (reviews w) -> wf_store (committed c w).
Proof.
  intros Hwf id r.
  destruct c as [uid g tx rt|rid uid tx rt|rid uid adm|rid]; cbn.
  - rewrite lookup_insert. case_decide; [|apply Hwf].
    intros [= <-]. apply wf_rating_or_null.
  - destruct (reviews w !! rid) as [old|]; [|apply Hwf].
    rewrite lookup_insert. case_decide; [|apply Hwf].
    intros [= <-]. apply wf_rating_or_null.
  - rewrite lookup_delete. case_decide; [done|apply Hwf].
  - rewrite lookup_delete. case_decide; [done|apply Hwf].
Qed.

Lemma trigger_game (c : call) (w : world) :
  trigger c w = true -> is_Some (game_of c w).
Proof.
  destruct c as [uid g tx rt|rid uid tx rt|rid uid adm|rid]; cbn;
    try done; destruct (reviews w !! rid); done.
Qed.

Lemma settled_consistent (g : string) (w : world) (a : number * nat)
  (gs : gmap string (gmap string value)) (o : gmap string value) :
  a = aggregate g (reviews w) ->
  games w = <[g := rated a o]> gs ->
  consistent g w.
Proof.
  intros -> Hg. unfold consistent, game_field. rewrite Hg.
  rewrite lookup_insert_eq. cbn [mbind option_bind]. unfold rated.
  split; [by rewrite lookup_insert_eq|].
  rewrite lookup_insert_ne by done. by rewrite lookup_insert_eq.
Qed.

(** X10.  A successful call that asks for a recompute and runs with no other
    call in between leaves the cached aggregate of the game of its review
    equal to what a recompute returns over the reviews of the store, the
    mutation of the call included, whatever the cache held before. *)
Theorem recompute_heals (c : call) (w w' : world) (r : response) :
  handle c w = (Return r, w') ->
  succeeded (status r) = true ->
  trigger c w = true ->
  exists g : string, game_of c w = Some g /\ up_to_date g w'.
Proof.
  intros H Hs Ht.
  destruct (success_summary c w w' r H Hs) as (_ & Hr & Hg).
  destruct (trigger_game c w Ht) as [g Hgame]. exists g. split; [done|].
  unfold settled in Hg. rewrite Ht, Hgame in Hg.
  apply up_to_date_consistent.
  eapply settled_consistent; [|exact Hg]. by rewrite Hr.
Qed.

Lemma strict_eq_null (v : value) : strict_eq v VNull = true -> v = VNull.
Proof. by destruct v. Qed.

(** An update that asks for no recompute stores a rating that counts as the
    one it replaces did. *)
Lemma untriggered_update (old : review) (text rating : value) :
  wf_rating (Doc.rating old) ->
  strict_neq rating (Doc.rating old) = false ->
  validated text rating = true ->
  valid_rating (rating_or_null rating) = valid_rating (Doc.rating old).
Proof.
  intros Hwf Hsame Hv. apply negb_false_iff in Hsame.
  destruct Hwf as [Ho|[Ho|[Ho|[Ho|[z Ho]]]]]; rewrite Ho in *.
  - apply strict_eq_null in Hsame as ->. reflexivity.
  - destruct rating as [| |b|[| | |q]|s]; discriminate Hsame.
  - destruct rating as [| |b|[| | |q]|s]; try discriminate Hsame.
    unfold validated in Hv. cbn in Hv. by rewrite andb_false_r in Hv.
  - destruct rating as [| |b|[| | |q]|s]; try discriminate Hsame.
    unfold validated in Hv. cbn in Hv. by rewrite andb_false_r in Hv.
  - destruct rating as [| |b|[| | |q]|s]; try discriminate Hsame.
    cbn in Hsame. apply Qeq_bool_iff in Hsame.
    unfold rating_or_null.
    destruct (ToBoolean (VNum (Fin q))) eqn:Ht.
    + assert (Hz : Z.quot (Qnum q) (Z.pos (Qden q)) = z).
      { unfold Qeq in Hsame. cbn in Hsame. rewrite Z.mul_1_r in Hsame.
        rewrite Hsame. apply Z.quot_mul. lia. }
      cbn. rewrite Hz. reflexivity.
    + cbn in Ht. apply negb_false_iff, Qeq_bool_iff in Ht.
      cbn. assert (Hlow : Qle_bool 1 (inject_Z z) = false).
      { destruct (Qle_bool 1 (inject_Z z)) eqn:E; [|done].
        apply Qle_bool_iff in E. lra. }
      by rewrite Hlow.
Qed.

(** The mutation of a successful call leaves the ratings that count for a
    game as they were, when the review belongs to another game or when the
    call asks for no recompute. *)
Lemma committed_counts (c : call) (w : world) (g : string) :
  succeeded (verdict c w) = true ->
  game_of c w <> Some g
  \/ (trigger c w = false /\ wf_store (reviews w)) ->
  valid_ratings g (committed c w) ≡ₚ valid_ratings g (reviews w).
Proof.
  intros Hs Hwhy.
  destruct c as [uid g0 tx rt|rid uid tx rt|rid uid adm|rid]; cbn in *.
  - rewrite valid_ratings_insert by apply not_elem_of_dom, is_fresh.
    unfold counted, created. cbn.
    destruct (decide (g0 = g)) as [->|]; [|done].
    destruct Hwhy as [?|[Ht _]]; [done|].
    unfold rating_or_null. by rewrite Ht.
  - destruct (reviews w !! rid) as [old|] eqn:Hold; [|done].
    destruct (negb (Doc.userId old =? uid)%string); [done|].
    destruct (validated tx rt) eqn:Hv; [|done].
    apply (valid_ratings_replace g rid old); [done|].
    unfold counted, updated. cbn.
    destruct (decide (Doc.gameId old = g)) as [<-|]; [|done].
    destruct Hwhy as [?|[Ht Hwf]]; [done|]. f_equal.
    apply (untriggered_update old tx rt); eauto.
  - destruct (reviews w !! rid) as [old|] eqn:Hold; [|done].
    rewrite (valid_ratings_delete g rid old (reviews w) Hold).
    unfold counted.
    destruct (decide (Doc.gameId old = g)) as [<-|]; [|done].
    destruct Hwhy as [?|[Ht _]]; [done|].
    apply negb_false_iff, strict_eq_null in Ht. by rewrite Ht.
  - destruct (reviews w !! rid) as [old|] eqn:Hold; [|done].
    rewrite (valid_ratings_delete g rid old (reviews w) Hold).
    unfold counted.
    destruct (decide (Doc.gameId old = g)) as [<-|]; [|done].
    destruct Hwhy as [?|[Ht _]]; [done|].
    apply negb_false_iff, strict_eq_null in Ht. by rewrite Ht.
Qed.

(** X11.  The handlers keep the ratings of the store in the shape they
    write them: when every stored rating is [null] or what [parseInt] gives
    before a call, so it is after the call, whatever the request and the
    answer.  In such a store a successful call that runs with no other call
    in between keeps, for every game, the cached aggregate equal to what a
    recompute of the game returns: the calls that skip the recompute leave
    that result as it was. *)
Theorem success_keeps_consistent (c : call) (w w' : world) (r : response)
  (g : string) :
  wf_store (reviews w) ->
  handle c w = (Return r, w') ->
  wf_store (reviews w')
  /\ (succeeded (status r) = true -> up_to_date g w -> up_to_date g w').
Proof.
  intros Hwf H. split.
  { destruct (store_states c w w' r H) as [[-> _]|[-> _]]; [done|].
    by apply committed_wf. }
  rewrite !up_to_date_consistent. intros Hs Hcons.
  destruct (success_summary c w w' r H Hs) as (Hv & Hr & Hg).
  rewrite Hv in Hs. unfold settled in Hg.
  assert (Hsame : game_of c w <> Some g
                  \/ (trigger c w = false /\ wf_store (reviews w)) ->
                  games w' = games w \/ game_of c w <> Some g ->
                  game_field (games w') g "averageRating"
                  = game_field (games w) g "averageRating"
                  /\ game_field (games w') g "totalRatings"
                     = game_field (games w) g "totalRatings" ->
                  consistent g w').
  { intros Hwhy _ [Ha Ht]. unfold consistent. rewrite Ha, Ht, Hr.
    rewrite (aggregate_Permutation g _ _ (committed_counts c w g Hs Hwhy)).
    exact Hcons. }
  destruct (trigger c w) eqn:Ht.
  - destruct (game_of c w) as [g0|] eqn:Hgame.
    + destruct (decide (g0 = g)) as [->|Hne].
      * eapply settled_consistent; [|exact Hg]. by rewrite Hr.
      * apply Hsame; [left; congruence | right; congruence |].
        unfold game_field. rewrite Hg.
        by rewrite lookup_insert_ne.
    + apply Hsame; [by left | by left | by rewrite Hg].
  - apply Hsame; [by right | by left | by rewrite Hg].
Qed.

(** A create answered with 201 whose rating is a number from 1 to 5 leaves
    [totalRatings] of the game one above the number of ratings that counted
    for the game before. *)
Theorem create_counts_new_rating (userId gameId : string) (text : value)
  (q : Q) (w w' : world) (r : response) :
  (1 <= q <= 5)%Q ->
  addReview userId gameId text (VNum (Fin q)) w = (Return r, w') ->
  status r = 201%nat ->
  game_field (games w') gameId "totalRatings"
  = Some (VNum (Fin (inject_Z (Z.of_nat
                       (S (length (valid_ratings gameId (reviews w)))))))).
Proof.
  intros Hq H Hs.
  assert (Hsucc : succeeded (status r) = true) by (by rewrite Hs).
  destruct (success_summary (Create userId gameId text (VNum (Fin q)))
              w w' r H Hsucc) as (Hv & Hr & Hg).
  assert (Ht : ToBoolean (VNum (Fin q)) = true).
  { cbn. destruct (Qeq_bool q 0) eqn:E; [|done].
    apply Qeq_bool_iff in E. lra. }
  unfold settled in Hg. cbn [trigger game_of] in Hg. rewrite Ht in Hg.
  assert (Hcons : consistent gameId w').
  { eapply settled_consistent; [|exact Hg]. by rewrite Hr. }
  destruct Hcons as [_ ->]. do 4 f_equal.
  rewrite aggregate_count, Hr. cbn [committed].
  rewrite valid_ratings_insert by apply not_elem_of_dom, is_fresh.
  rewrite length_app. unfold counted, created. cbn [Doc.gameId Doc.rating].
  rewrite decide_True by done.
  rewrite Hs in Hv. cbn [verdict] in Hv.
  destruct (validated text (VNum (Fin q))) eqn:Hval; [|by destruct gameId].
  destruct (validated_numeric text (Fin q) Hval) as [Hn|(z & Hz & ->)].
  - unfold rating_or_null in Hn. by rewrite Ht in Hn.
  - cbn. assert (H1 : Qle_bool 1 (inject_Z z) = true).
    { apply Qle_bool_iff. change 1%Q with (inject_Z 1).
      rewrite <- Zle_Qle. lia. }
    assert (H5 : Qle_bool (inject_Z z) 5 = true).
    { apply Qle_bool_iff. change 5%Q with (inject_Z 5).
      rewrite <- Zle_Qle. lia. }
    by rewrite H1, H5.
Qed.

Lemma create_returns_target (c : call) (w w' : world) (r : response)
  (userId gameId : string) (text rating : value) :
  c = Create userId gameId text rating ->
  handle c w = (Return r, w') ->
  status r = 201%nat ->
  json r = Added "Review added successfully" (target c w).
Proof.
  intros ->. destruct w as [rs gs fs cs t]. run. intros H Hs.
  paths H; injection H as <- <-; try discriminate Hs; reflexivity.
Qed.

End Handlers.

(** ** The catalogue *)

Section Listings.

Lemma ascii_compare_lt_trans (a b c : ascii) :
  Ascii.compare a b = Lt -> Ascii.compare b c = Lt -> Ascii.compare a c = Lt.
Proof.
  unfold Ascii.compare. rewrite !N.compare_lt_iff. lia.
Qed.

Lemma string_compare_lt_trans (x y z : string) :
  String.compare x y = Lt -> String.compare y z = Lt ->
  String.compare x z = Lt.
Proof.
  revert y z. induction x as [|a x IH]; intros [|b y] [|c z]; cbn;
    try done.
  destruct (Ascii.compare a b) eqn:Hab; try done;
    destruct (Ascii.compare b c) eqn:Hbc; try done.
  - apply Ascii.compare_eq_iff in Hab as ->, Hbc as ->.
    intros Hxy Hyz. assert (Ascii.compare c c = Eq) as ->.
    { unfold Ascii.compare. apply N.compare_refl. }
    by eapply IH.
  - apply Ascii.compare_eq_iff in Hab as ->. by rewrite Hbc.
  - apply Ascii.compare_eq_iff in Hbc as ->. by rewrite Hab.
  - by rewrite (ascii_compare_lt_trans a b c Hab Hbc).
Qed.

Lemma string_compare_refl (x : string) : String.compare x x = Eq.
Proof.
  induction x as [|a x IH]; cbn; [done|].
  assert (Ascii.compare a a = Eq) as ->; [|done].
  unfold Ascii.compare. apply N.compare_refl.
Qed.

Lemma string_leb_trans (x y z : string) :
  String.leb x y = true -> String.leb y z = true -> String.leb x z = true.
Proof.
  unfold String.leb.
  destruct (String.compare x y) eqn:Hxy; try done;
    destruct (String.compare y z) eqn:Hyz; try done; intros _ _.
  - apply String.compare_eq_iff in Hxy as ->. by rewrite Hyz.
  - apply String.compare_eq_iff in Hxy as ->. by rewrite Hyz.
  - apply String.compare_eq_iff in Hyz as ->. by rewrite Hxy.
  - by rewrite (string_compare_lt_trans x y z Hxy Hyz).
Qed.

Lemma newer_total : Total newer.
Proof.
  intros a b. unfold newer, newerb.
  rewrite (String.compare_antisym (Doc.dateTimePosted a.2)).
  destruct (String.compare (Doc.dateTimePosted b.2)
              (Doc.dateTimePosted a.2)); cbn; auto.
  apply String.leb_total.
Qed.

Lemma newer_trans : Transitive newer.
Proof.
  intros a b c. unfold newer, newerb.
  destruct (String.compare (Doc.dateTimePosted b.2)
              (Doc.dateTimePosted a.2)) eqn:Hba; try done;
    destruct (String.compare (Doc.dateTimePosted c.2)
                (Doc.dateTimePosted b.2)) eqn:Hcb; try done.
  - apply String.compare_eq_iff in Hba, Hcb. rewrite Hcb, Hba.
    rewrite string_compare_refl. intros H1 H2.
    by apply (string_leb_trans _ b.1).
  - apply String.compare_eq_iff in Hba. rewrite <- Hba, Hcb. done.
  - apply String.compare_eq_iff in Hcb. rewrite Hcb, Hba. done.
  - by rewrite (string_compare_lt_trans _ _ _ Hcb Hba).
Qed.

Lemma selection_elem (q : query) (rs : gmap string review) (id : string)
  (r : review) :
  (id, r) ∈ selection q rs <-> rs !! id = Some r /\ matches q r = true.
Proof.
  unfold selection. rewrite merge_sort_Permutation, list_elem_of_filter.
  rewrite elem_of_map_to_list. cbn. tauto.
Qed.

Lemma selection_NoDup (q : query) (rs : gmap string review) :
  NoDup (selection q rs).*1.
Proof.
  unfold selection. rewrite merge_sort_Permutation.
  apply (sublist_NoDup _ (map_to_list rs).*1);
    [apply NoDup_fst_map_to_list | apply fmap_sublist, sublist_filter].
Qed.

Lemma selection_sorted (q : query) (rs : gmap string review) :
  StronglySorted newer (selection q rs).
Proof.
  apply (@StronglySorted_merge_sort _ newer _ newer_trans newer_total).
Qed.

Lemma getReviews_run (q : query) (s : site) :
  getReviews q s
  = match faults (core s) with
    | true :: fs =>
        (Return (Refused 500 "Failed to retrieve reviews"),
         write_journal (query_notice q) (set_core (set_faults fs (core s)) s))
    | false :: fs =>
        (Return (Listed (selection q (reviews (core s)))),
         set_core (set_faults fs (core s)) s)
    | [] =>
        (Return (Listed (selection q (reviews (core s)))),
         set_core (core s) s)
    end.
Proof.
  destruct s as [[rs gs fs cs t] fav us j].
  unfold getReviews, stry, sbind, sret, lift, reviews_query, journal_write,
    bind, gets, round_trip, selection. cbn.
  destruct fs as [|[] fs]; reflexivity.
Qed.

(** X12.  A listing whose round trip to the store succeeds sends exactly the
    reviews that its query selects, each once under its identifier, the
    newest first. *)
Theorem getReviews_lists (q : query) (s : site) :
  fires 1 (faults (core s)) = false ->
  exists (items : list (string * review)) (s' : site),
    getReviews q s = (Return (Listed items), s')
    /\ (forall (id : string) (r : review),
           (id, r) ∈ items
           <-> reviews (core s) !! id = Some r /\ matches q r = true)
    /\ NoDup items.*1
    /\ StronglySorted newer items.
Proof.
  intros Hf. rewrite getReviews_run.
  destruct (faults (core s)) as [|[] fs]; try discriminate Hf;
    eexists _, _; (split; [reflexivity|]);
    (split; [intros id r; apply selection_elem|]);
    (split; [apply selection_NoDup | apply selection_sorted]).
Qed.

(** A listing always answers, with the array or with status 500, and
    changes no store. *)
Theorem getReviews_reads_only (q : query) (s s' : site)
  (o : outcome listing) :
  getReviews q s = (o, s') ->
  ((exists items : list (string * review), o = Return (Listed items))
   \/ o = Return (Refused 500 "Failed to retrieve reviews"))
  /\ reviews (core s') = reviews (core s)
  /\ games (core s') = games (core s)
  /\ console (core s') = console (core s)
  /\ favorites s' = favorites s.
Proof.
  rewrite getReviews_run.
  destruct (faults (core s)) as [|[] fs]; intros [= <- <-];
    (split; [eauto|]); done.
Qed.

(** X13.  A review created with status 201 is in the listing of its game that
    follows. *)
Theorem created_review_is_listed (userId gameId : string)
  (text rating : value) (s : site) (w' : world) (r : response) :
  addReview userId gameId text rating (core s) = (Return r, w') ->
  status r = 201%nat ->
  fires 1 (faults w') = false ->
  exists (id : string) (items : list (string * review)) (s'' : site),
    json r = Added "Review added successfully" id
    /\ getReviewsByGame gameId (set_core w' s) = (Return (Listed items), s'')
    /\ (id, created userId gameId text rating (core s)) ∈ items.
Proof.
  intros H Hs Hf.
  pose (c := Create userId gameId text rating).
  assert (Hsucc : succeeded (status r) = true) by (by rewrite Hs).
  destruct (success_summary c (core s) w' r H Hsucc) as (_ & Hr & _).
  exists (target c (core s)).
  unfold getReviewsByGame. rewrite getReviews_run. cbn [core set_core].
  destruct (faults w') as [|[] fs]; try discriminate Hf;
    eexists _, _;
    (split; [by apply (create_returns_target c (core s) w' r
                         userId gameId text rating)|]);
    (split; [reflexivity|]);
    apply selection_elem; rewrite Hr; cbn;
    (split; [apply lookup_insert_eq | apply String.eqb_refl]).
Qed.

(** After a delete answered with status 200, no listing shows the review. *)
Theorem deleted_review_is_not_listed (c : call) (reviewId : string)
  (q : query) (s : site) (w' : world) (r : response)
  (items : list (string * review)) (s'' : site) :
  deletion c = Some reviewId ->
  handle c (core s) = (Return r, w') ->
  status r = 200%nat ->
  getReviews q (set_core w' s) = (Return (Listed items), s'') ->
  reviewId ∉ items.*1.
Proof.
  intros Hc H Hs Hlist.
  assert (Hsucc : succeeded (status r) = true) by (by rewrite Hs).
  destruct (success_summary c (core s) w' r H Hsucc) as (_ & Hr & _).
  assert (Hgone : reviews w' !! reviewId = None).
  { rewrite Hr. destruct c; try done; injection Hc as ->; cbn;
      apply lookup_delete_eq. }
  rewrite getReviews_run in Hlist. cbn [core set_core] in Hlist.
  assert (Hitems : items = selection q (reviews w')).
  { destruct (faults w') as [|[] fs]; by injection Hlist as Hl _. }
  rewrite Hitems. intros Hin.
  apply list_elem_of_fmap in Hin as ([id rv] & -> & Hin).
  apply selection_elem in Hin as [Hin _]. cbn in Hgone. congruence.
Qed.

(** X14.  With its two round trips succeeding, [getGameById] answers 404 for a
    missing game, and otherwise sends the fields of the game, with [id] added
    when the record has none, and exactly the reviews of the game. *)
Theorem getGameById_page (gameId : string) (s : site) :
  fires 2 (faults (core s)) = false ->
  exists (a : game_page) (s' : site),
    getGameById gameId s = (Return a, s')
    /\ match games (core s) !! gameId with
       | None => a = NoPage 404 "Game not found"
       | Some gameData =>
           exists (game : gmap string value)
                  (items : list (string * review)),
             a = Page game items
             /\ (forall field : string,
                    is_Some (gameData !! field) ->
                    game !! field = gameData !! field)
             /\ (gameData !! "id" = None -> game !! "id" = Some (VStr gameId))
             /\ (forall (id : string) (r : review),
                    (id, r) ∈ items
                    <-> reviews (core s) !! id = Some r
                        /\ Doc.gameId r = gameId)
       end.
Proof.
  intros Hf. destruct s as [[rs gs fs cs t] fav us j].
  unfold getGameById, stry, sbind, sret, lift, games_val, reviews_query,
    journal_write, bind, gets, round_trip. cbn in *.
  fold (selection (ByGame gameId) rs).
  assert (Hpage : forall gameData : gmap string value,
             exists (game : gmap string value)
                    (items : list (string * review)),
               Page (gameData ∪ {["id" := VStr gameId]})
                 (selection (ByGame gameId) rs) = Page game items
               /\ (forall field : string,
                      is_Some (gameData !! field) ->
                      game !! field = gameData !! field)
               /\ (gameData !! "id" = None ->
                   game !! "id" = Some (VStr gameId))
               /\ (forall (id : string) (r : review),
                      (id, r) ∈ items
                      <-> rs !! id = Some r /\ Doc.gameId r = gameId)).
  { intros gameData. eexists _, _. split; [reflexivity|]. split; [|split].
    - intros field [v Hv]. rewrite Hv. by apply lookup_union_Some_l.
    - intros Hid. rewrite lookup_union_r by done. apply lookup_singleton_eq.
    - intros id r. rewrite selection_elem. cbn. by rewrite String.eqb_eq. }
  destruct fs as [|[] [|[] fs]]; try discriminate Hf; cbn;
    destruct (gs !! gameId) as [gameData|]; cbn;
    eexists _, _; (split; [reflexivity|]); auto.
Qed.

End Listings.

Section Removal.

Lemma no_review_of (g : string) (rs : gmap string review) :
  filter (fun r => Doc.gameId r = g) (snd <$> map_to_list rs) = [] ->
  reviews_without g rs = rs.
Proof.
  intros Hnone. apply map_filter_id. intros id r Hr.
  unfold review_of. cbn. apply String.eqb_neq. intros Hg.
  eapply (filter_nil_not_elem_of _ _ r Hnone); [done|].
  apply list_elem_of_fmap. exists (id, r). split; [done|].
  by apply elem_of_map_to_list.
Qed.

Lemma no_favorite_of (g : string) (fs : gmap string (gmap string value)) :
  filter (fun d => favorite_of g d = true) (map_to_list fs) = [] ->
  favorites_without g fs = fs.
Proof.
  intros Hnone. apply map_filter_id. intros id f Hf.
  destruct (favorite_of g (id, f)) eqn:E; [|done].
  exfalso. eapply (filter_nil_not_elem_of _ _ (id, f) Hnone); [done|].
  by apply elem_of_map_to_list.
Qed.

Ltac site_run :=
  unfold deleteGame, delete_image, favorites_of, favorites_delete_of,
    games_val, reviews_where_gameId, reviews_delete_of, games_remove,
    journal_write, stry, sbind, sret, sthrow, lift, bind, gets, modify, ret,
    round_trip.

Ltac site_paths H :=
  repeat (cbn in H;
    match type of H with
    | context [match ?fs with [] => _ | _ :: _ => _ end] =>
        destruct fs as [|[] ?]
    | context [match ?x !! ?k with Some _ => _ | None => _ end] =>
        destruct (x !! k) eqn:?
    | context [if ?b then _ else _] => destruct b eqn:?
    | context [match ?v with VStr _ => _ | _ => _ end] => destruct v
    end).

Ltac rung :=
  repeat split; first [done | by symmetry | by eexists].

(** The removal of a game goes up a ladder: nothing done; the reviews of the
    game deleted; its favorites deleted as well; the game removed. *)
Lemma deleteGame_ladder (g : string) (s s' : site) (o : outcome removal) :
  deleteGame g s = (o, s') ->
  console (core s') = console (core s)
  /\ (o = Return GameNotFound -> games (core s) !! g = None)
  /\ ((o <> Return Removed
       /\ reviews (core s') = reviews (core s)
       /\ favorites s' = favorites s
       /\ games (core s') = games (core s))
      \/ (o = Return RemovalFailed
          /\ reviews (core s') = reviews_without g (reviews (core s))
          /\ favorites s' = favorites s
          /\ games (core s') = games (core s))
      \/ (o = Return RemovalFailed
          /\ reviews (core s') = reviews_without g (reviews (core s))
          /\ favorites s' = favorites_without g (favorites s)
          /\ games (core s') = games (core s))
      \/ (o = Return Removed
          /\ is_Some (games (core s) !! g)
          /\ reviews (core s') = reviews_without g (reviews (core s))
          /\ favorites s' = favorites_without g (favorites s)
          /\ games (core s') = delete g (games (core s)))).
Proof.
  destruct s as [[rs gs fs cs t] fav us j]. site_run. intros H.
  site_paths H; injection H as <- <-; cbn; (split; [reflexivity|]);
    (split; [done|]); try discriminate;
    repeat match goal with
    | E : bool_decide (_ = []) = true |- _ =>
        apply bool_decide_eq_true in E;
        first [apply no_review_of in E | apply no_favorite_of in E]
    end;
    fold (reviews_without g rs); fold (favorites_without g fav);
    first [ solve [left; rung]
          | solve [right; left; rung]
          | solve [right; right; left; rung]
          | solve [right; right; right; rung] ].
Qed.

Lemma favorite_of_false (g : string) (id : string) (f : gmap string value) :
  favorite_of g (id, f) = false <-> f !! "gameId" <> Some (VStr g).
Proof.
  unfold favorite_of. cbn.
  destruct (f !! "gameId") as [[| |b|n|x]|]; try done.
  rewrite String.eqb_neq. split; [congruence|]. intros H ->. done.
Qed.

Lemma reviews_without_lookup (g id : string) (r : review)
  (rs : gmap string review) :
  reviews_without g rs !! id = Some r
  <-> rs !! id = Some r /\ Doc.gameId r <> g.
Proof.
  unfold reviews_without. rewrite map_lookup_filter_Some.
  unfold review_of. cbn. by rewrite String.eqb_neq.
Qed.

Lemma favorites_without_lookup (g id : string) (f : gmap string value)
  (fs : gmap string (gmap string value)) :
  favorites_without g fs !! id = Some f
  <-> fs !! id = Some f /\ f !! "gameId" <> Some (VStr g).
Proof.
  unfold favorites_without. rewrite map_lookup_filter_Some.
  by rewrite favorite_of_false.
Qed.

(** X15.  A removal answered with status 200 has removed the game, every review of
    the game and every favorite of the game, and nothing else. *)
Theorem deleteGame_removes (g : string) (s s' : site) :
  deleteGame g s = (Return Removed, s') ->
  is_Some (games (core s) !! g)
  /\ games (core s') = delete g (games (core s))
  /\ (forall (id : string) (r : review),
         reviews (core s') !! id = Some r
         <-> reviews (core s) !! id = Some r /\ Doc.gameId r <> g)
  /\ (forall (id : string) (f : gmap string value),
         favorites s' !! id = Some f
         <-> favorites s !! id = Some f /\ f !! "gameId" <> Some (VStr g)).
Proof.
  intros H.
  destruct (deleteGame_ladder g s s' _ H)
    as (_ & _ & [(? & _)|[(? & _)|[(? & _)|(_ & Hg & -> & -> & ->)]]]);
    try done.
  split; [done|]. split; [done|].
  split; intros id x;
    [apply reviews_without_lookup | apply favorites_without_lookup].
Qed.

(** X16.  However the removal ends, the game is removed last: when the game is
    gone, so are its reviews and its favorites. *)
Theorem deleteGame_removes_game_last (g : string) (s s' : site)
  (o : outcome removal) :
  deleteGame g s = (o, s') ->
  is_Some (games (core s) !! g) ->
  games (core s') !! g = None ->
  (forall (id : string) (r : review),
      reviews (core s') !! id = Some r -> Doc.gameId r <> g)
  /\ (forall (id : string) (f : gmap string value),
         favorites s' !! id = Some f -> f !! "gameId" <> Some (VStr g)).
Proof.
  intros H [gd Hgd] Hgone.
  destruct (deleteGame_ladder g s s' _ H)
    as (_ & _ & [(_ & _ & _ & Hg)|[(_ & _ & _ & Hg)|[(_ & _ & _ & Hg)
                |(_ & _ & -> & -> & _)]]]);
    try (rewrite Hg in Hgone; congruence).
  split; intros id x Hx;
    [apply reviews_without_lookup in Hx
    | apply favorites_without_lookup in Hx]; tauto.
Qed.

(** X17.  However the removal of a game ends, it leaves the other games, the
    reviews of the other games and the favorites of the other games as they
    were, adds nothing to the stores, and runs no recompute. *)
Theorem deleteGame_frame (g : string) (s s' : site) (o : outcome removal) :
  deleteGame g s = (o, s') ->
  (forall g' : string,
      g' <> g -> games (core s') !! g' = games (core s) !! g')
  /\ (forall (id : string) (r : review),
         Doc.gameId r <> g ->
         reviews (core s') !! id = Some r <-> reviews (core s) !! id = Some r)
  /\ (forall (id : string) (r : review),
         reviews (core s') !! id = Some r -> reviews (core s) !! id = Some r)
  /\ (forall (id : string) (f : gmap string value),
         f !! "gameId" <> Some (VStr g) ->
         favorites s' !! id = Some f <-> favorites s !! id = Some f)
  /\ console (core s') = console (core s).
Proof.
  intros H.
  destruct (deleteGame_ladder g s s' _ H)
    as (Hc & _ & [(_ & -> & -> & ->)|[(_ & -> & -> & ->)
                 |[(_ & -> & -> & ->)|(_ & _ & -> & -> & ->)]]]);
    (split; [intros g' Hg'; by rewrite ?lookup_delete_ne|]);
    (split; [intros id r Hr; rewrite ?reviews_without_lookup; tauto|]);
    (split; [intros id r; rewrite ?reviews_without_lookup; tauto|]);
    (split; [intros id f Hf; rewrite ?favorites_without_lookup; tauto|]);
    done.
Qed.

(** A removal answered with status 404 found no game and has changed no
    store. *)
Theorem deleteGame_missing (g : string) (s s' : site) :
  deleteGame g s = (Return GameNotFound, s') ->
  games (core s) !! g = None
  /\ reviews (core s') = reviews (core s)
  /\ favorites s' = favorites s
  /\ games (core s') = games (core s).
Proof.
  intros H.
  destruct (deleteGame_ladder g s s' _ H)
    as (_ & Hnone & [(_ & ?)|[(? & _)|[(? & _)|(? & _)]]]); try done.
  split; [by apply Hnone|done].
Qed.

Lemma map_to_list_filter_perm {A} (P : string * A -> Prop)
  `{!forall x, Decision (P x)} (m : gmap string A) :
  map_to_list (filter P m) ≡ₚ filter P (map_to_list m).
Proof.
  apply NoDup_Permutation.
  - apply NoDup_map_to_list.
  - apply NoDup_filter, NoDup_map_to_list.
  - intros [i x]. rewrite elem_of_map_to_list, map_lookup_filter_Some,
      list_elem_of_filter, elem_of_map_to_list. tauto.
Qed.

Lemma filter_snd_filter {A} (P : string * A -> Prop) (Q : A -> Prop)
  `{!forall x, Decision (P x)} `{!forall x, Decision (Q x)}
  (l : list (string * A)) :
  (forall x, Q x.2 -> P x) ->
  filter Q (snd <$> filter P l) = filter Q (snd <$> l).
Proof.
  intros HQP. induction l as [|x l IH]; [done|].
  rewrite (filter_cons P). destruct (decide (P x)) as [HP|HP]; csimpl.
  - rewrite !filter_cons. by rewrite IH.
  - rewrite (filter_cons Q). rewrite decide_False by (intros HQ; auto).
    exact IH.
Qed.

Lemma aggregate_without (g g' : string) (rs : gmap string review) :
  g' <> g -> aggregate g' (reviews_without g rs) = aggregate g' rs.
Proof.
  intros Hne. apply aggregate_Permutation.
  unfold valid_ratings, reviews_of, reviews_without.
  rewrite map_to_list_filter_perm.
  rewrite filter_snd_filter; [done|].
  intros [id r] Hr. unfold review_of. cbn in *.
  apply String.eqb_neq. congruence.
Qed.

(** X18.  However the removal of a game ends, the cached aggregate of every other
    game stays equal to the aggregate of its reviews. *)
Theorem deleteGame_keeps_other_aggregates (g g' : string) (s s' : site)
  (o : outcome removal) :
  deleteGame g s = (o, s') ->
  g' <> g ->
  consistent g' (core s) ->
  consistent g' (core s').
Proof.
  intros H Hne Hcons. unfold consistent, game_field in *.
  destruct (deleteGame_ladder g s s' _ H)
    as (_ & _ & [(_ & -> & _ & ->)|[(_ & -> & _ & ->)
                |[(_ & -> & _ & ->)|(_ & _ & -> & _ & ->)]]]);
    rewrite ?lookup_delete_ne, ?aggregate_without by done; exact Hcons.
Qed.

(** After a removal answered with status 200, the listing of the reviews of
    the game is empty. *)
Theorem removed_game_has_no_reviews (g : string) (s s' s'' : site)
  (items : list (string * review)) :
  deleteGame g s = (Return Removed, s') ->
  getReviewsByGame g s' = (Return (Listed items), s'') ->
  items = [].
Proof.
  intros H Hlist.
  destruct (deleteGame_ladder g s s' _ H)
    as (_ & _ & [(? & _)|[(? & _)|[(? & _)|(_ & _ & Hr & _)]]]); try done.
  unfold getReviewsByGame in Hlist. rewrite getReviews_run in Hlist.
  assert (Hitems : items = selection (ByGame g) (reviews (core s'))).
  { destruct (faults (core s')) as [|[] fs]; by injection Hlist as Hl _. }
  rewrite Hitems. apply elem_of_nil_inv. intros [id r] Hin.
  apply selection_elem in Hin as [Hin Hm]. rewrite Hr in Hin.
  apply reviews_without_lookup in Hin as [_ Hg].
  cbn in Hm. by apply String.eqb_eq in Hm.
Qed.

(** When no round trip fails, the removal is answered with status 404 for a
    game that the store does not have and with status 200 otherwise. *)
Theorem deleteGame_without_faults (g : string) (s s' : site)
  (o : outcome removal) :
  existsb id (faults (core s)) = false ->
  deleteGame g s = (o, s') ->
  o = Return match games (core s) !! g with
             | Some _ => Removed
             | None => GameNotFound
             end.
Proof.
  destruct s as [[rs gs fs cs t] fav us j]. site_run. intros Hq H. cbn in Hq.
  site_paths H; injection H as <- <-; cbn in *; try discriminate;
    repeat match goal with E : _ !! _ = _ |- _ => rewrite E end;
    reflexivity.
Qed.

(** X19.  A failure of the deletion of the image does not stop the removal: with a
    game whose [image] is a non-empty string, the removal is answered with
    status 200 whether the round trip to the storage fails or not, as long as
    the others succeed; a failure leaves a warning in the journal. *)
Theorem deleteGame_despite_image (g url : string) (gameData : gmap string value)
  (b : bool) (fs : list bool) (s s' : site) (o : outcome removal) :
  games (core s) !! g = Some gameData ->
  gameData !! "image" = Some (VStr url) ->
  url <> "" ->
  faults (core s) = false :: b :: fs ->
  existsb id fs = false ->
  deleteGame g s = (o, s') ->
  o = Return Removed
  /\ journal s' = (journal s ++ if b then [WarnDeleteImage] else [])%list.
Proof.
  destruct s as [[rs gs fs0 cs t] fav us j]. cbn.
  intros Hg Himg Hurl -> Hq. apply String.eqb_neq in Hurl.
  site_run. cbn. rewrite Hg. cbn. rewrite Himg. cbn. rewrite Hurl. cbn.
  intros H. destruct b;
    site_paths H; injection H as <- <-; cbn in *; try discriminate;
    rewrite ?app_nil_r; done.
Qed.

End Removal.

Section Moderation.

Lemma admin_items_run (docs : list (string * review)) (s : site) :
  exists (items : list admin_item) (s' : site),
    admin_items docs s = (Return items, s')
    /\ item_doc <$> items = docs
    /\ same_stores s s'
    /\ (existsb id (faults (core s)) = false ->
        Forall (item_joined s) items
        /\ existsb id (faults (core s')) = false).
Proof.
  revert s. induction docs as [|[rid r] docs IH]; intros s.
  { eexists _, _. split; [reflexivity|]. by repeat split. }
  destruct s as [[rs gs fs cs t] fav us j].
  cbn [admin_items]. unfold sbind at 1.
  unfold fetch_user, fetch_game, users_val, games_val, stry, sbind, sret,
    lift, journal_write, bind, gets, round_trip. cbn.
  destruct fs as [|[] [|[] fs]]; cbn;
    match goal with
    | |- context [admin_items docs ?s0] =>
        destruct (IH s0) as (items & s' & -> & Hdocs & Hsame & Hq)
    end;
    eexists _, _; (split; [reflexivity|]);
    (split; [cbn; by rewrite Hdocs|]);
    (split; [exact Hsame|]); cbn; intros Hquiet; try discriminate Hquiet;
    destruct (Hq Hquiet) as [Hall Hq']; (split; [|exact Hq']);
    (constructor; [by split | exact Hall]).
Qed.

(** X20.  The listing of the moderators has one item for each review, in the order
    of the public listing of all reviews, whether or not the reads of the
    users and of the games succeed; like the public listing it fails only
    when the query of the reviews does, and it changes no store. *)
Theorem admin_listing_follows_public (s : site) :
  fires 1 (faults (core s)) = false ->
  exists (items : list admin_item) (public : list (string * review))
         (s1 s2 : site),
    getAllReviewsForAdmin s = (Return (AdminListed items), s1)
    /\ getAllReviews s = (Return (Listed public), s2)
    /\ item_doc <$> items = public
    /\ same_stores s s1.
Proof.
  intros Hf. unfold getAllReviews. rewrite getReviews_run.
  unfold getAllReviewsForAdmin, stry, sbind, sret, lift, reviews_query,
    bind, gets, round_trip.
  fold (selection AllReviews (reviews (core s))).
  destruct s as [[rs gs fs cs t] fav us j]. cbn in *.
  destruct fs as [|[] fs]; try discriminate Hf; cbn;
    match goal with
    | |- context [admin_items ?docs ?s0] =>
        destruct (admin_items_run docs s0)
          as (items & s' & -> & Hdocs & Hsame & _)
    end;
    eexists _, _, _, _; (split; [reflexivity|]); (split; [reflexivity|]);
    (split; [exact Hdocs|exact Hsame]).
Qed.

(** X21.  When no round trip fails, every item of the listing of the moderators
    shows the user and the game of its review as the stores have them, and
    [null] for a user or a game that is missing. *)
Theorem admin_listing_joins (s s' : site) (o : outcome admin_listing) :
  existsb id (faults (core s)) = false ->
  getAllReviewsForAdmin s = (o, s') ->
  exists items : list admin_item,
    o = Return (AdminListed items)
    /\ Forall (item_joined s) items.
Proof.
  intros Hq. unfold getAllReviewsForAdmin, stry, sbind, sret, lift,
    reviews_query, bind, gets, round_trip.
  destruct s as [[rs gs fs cs t] fav us j]. cbn in *.
  destruct fs as [|[] fs]; try discriminate Hq; cbn;
    match goal with
    | |- context [admin_items ?docs ?s0] =>
        destruct (admin_items_run docs s0)
          as (items & s1 & -> & _ & _ & Hj)
    end;
    intros [= <- <-]; exists items; (split; [reflexivity|]);
    by apply Hj.
Qed.

End Moderation.

Section Games.

Lemma filter_throwing_sublist {A} (p : A -> outcome bool) (l k : list A) :
  filter_throwing p l = Return k -> k `sublist_of` l.
Proof.
  revert k. induction l as [|x l IH]; intros k; cbn.
  - by intros [= <-].
  - destruct (p x) as [b|]; [|done].
    destruct (filter_throwing p l) as [k'|]; [|done].
    intros [= <-]. destruct b; [apply sublist_skip | apply sublist_cons];
      by apply IH.
Qed.

Lemma filter_throwing_elem {A} (p : A -> outcome bool) (l k : list A)
  (x : A) :
  filter_throwing p l = Return k -> x ∈ k -> x ∈ l /\ p x = Return true.
Proof.
  revert k. induction l as [|y l IH]; intros k; cbn.
  - intros [= <-] Hx. by apply elem_of_nil in Hx.
  - destruct (p y) as [b|] eqn:Hy; [|done].
    destruct (filter_throwing p l) as [k'|]; [|done].
    intros [= <-] Hx. destruct b.
    + apply elem_of_cons in Hx as [->|Hx].
      * split; [apply list_elem_of_here | done].
      * destruct (IH k' eq_refl Hx). split; [by apply list_elem_of_further | done].
    + destruct (IH k' eq_refl Hx). split; [by apply list_elem_of_further | done].
Qed.

Lemma filter_throwing_throws {A} (p : A -> outcome bool) (l : list A)
  (x : A) :
  x ∈ l -> p x = Throw -> filter_throwing p l = Throw.
Proof.
  intros Hx Hp. induction l as [|y l IH]; cbn.
  - by apply elem_of_nil in Hx.
  - apply elem_of_cons in Hx as [<-|Hx].
    + by rewrite Hp.
    + destruct (p y); [|done]. by rewrite IH.
Qed.

Lemma narrow_sublist {A} (a : option A)
  (cb : A -> gmap string value -> outcome bool)
  (l k : list (gmap string value)) :
  narrow a cb l = Return k -> k `sublist_of` l.
Proof.
  destruct a; cbn; [apply filter_throwing_sublist | by intros [= <-]].
Qed.

Lemma children_elem {A} (m : gmap string A) (key : string) (x : A) :
  (key, x) ∈ children m <-> m !! key = Some x.
Proof.
  unfold children. rewrite merge_sort_Permutation.
  apply elem_of_map_to_list.
Qed.

Lemma with_id_field (child : string * gmap string value) (k : string) :
  k <> "id" -> field (with_id child) k = field child.2 k.
Proof.
  intros Hk. unfold field, with_id.
  destruct (child.2 !! k) as [v|] eqn:Hv.
  - by rewrite (lookup_union_Some_l _ _ _ _ Hv).
  - rewrite lookup_union_r by done. by rewrite lookup_singleton_ne.
Qed.

(** X22.  With its round trip succeeding, [getAllGames] sends one item for each
    game of the store: the fields of the game, with [id] added when the
    record has none. *)
Theorem getAllGames_lists (s : site) :
  fires 1 (faults (core s)) = false ->
  exists (items : list (gmap string value)) (s' : site),
    getAllGames s = (Return (Games items), s')
    /\ items ≡ₚ with_id <$> map_to_list (games (core s))
    /\ same_stores s s'.
Proof.
  intros Hf. destruct s as [[rs gs fs cs t] fav us j].
  unfold getAllGames, stry, sbind, sret, lift, games_snapshot, bind, gets,
    round_trip. cbn in *.
  destruct fs as [|[] fs]; try discriminate Hf; cbn;
    eexists _, _; (split; [reflexivity|]);
    (split; [unfold children; by rewrite merge_sort_Permutation|]);
    by repeat split.
Qed.

Lemma filterGames_run (q : criteria) (s : site) :
  filterGames q s
  = match faults (core s) with
    | true :: fs =>
        (Return (NoGames 500 "Failed to filter games"),
         write_journal ErrFilterGames (set_core (set_faults fs (core s)) s))
    | fs =>
        let s0 := set_core (set_faults (tail fs) (core s)) s in
        match refine q (with_id <$> children (games (core s))) with
        | Return items => (Return (Games items), s0)
        | Throw =>
            (Return (NoGames 500 "Failed to filter games"),
             write_journal ErrFilterGames s0)
        end
    end.
Proof.
  destruct s as [[rs gs fs cs t] fav us j].
  unfold filterGames, stry, sbind, sret, lift, games_snapshot, run_pure,
    journal_write, bind, gets, round_trip. cbn -[refine].
  destruct fs as [|[] fs]; cbn -[refine];
    try destruct (refine q _); reflexivity.
Qed.

(** What the filters of [filterGames] keep of the games: a part of what the
    filter of the platform keeps, and a part of what the filter of the
    rating keeps. *)
Lemma refine_steps (q : criteria) (all items : list (gmap string value)) :
  refine q all = Return items ->
  exists l1 l3 l4 : list (gmap string value),
    narrow (given (platform q))
      (fun p game => contains (field game "platform") p) all = Return l1
    /\ l3 `sublist_of` l1
    /\ narrow (given (minRating q))
         (fun m game =>
            Return (ToBoolean (field game "averageRating")
                    && num_le (parseFloat m)
                         (ToNumber (field game "averageRating")))) l3
       = Return l4
    /\ items `sublist_of` l4.
Proof.
  unfold refine, and_then.
  destruct (narrow (given (platform q)) _ all) as [l1|] eqn:H1; [|done].
  destruct (narrow (given (genre q)) _ l1) as [l2|] eqn:H2; [|done].
  destruct (narrow (status_filter (status_of q)) _ l2) as [l3|] eqn:H3;
    [|done].
  destruct (narrow (given (minRating q)) _ l3) as [l4|] eqn:H4; [|done].
  intros H5. exists l1, l3, l4.
  apply narrow_sublist in H2, H3, H5.
  split; [done|]. split; [by etrans|]. by split.
Qed.

Lemma getAllGames_run (s : site) :
  getAllGames s
  = match faults (core s) with
    | true :: fs =>
        (Return (NoGames 500 "Failed to retrieve games"),
         write_journal ErrGetAllGames (set_core (set_faults fs (core s)) s))
    | fs =>
        (Return (Games (with_id <$> children (games (core s)))),
         set_core (set_faults (tail fs) (core s)) s)
    end.
Proof.
  destruct s as [[rs gs fs cs t] fav us j].
  unfold getAllGames, stry, sbind, sret, lift, games_snapshot,
    journal_write, bind, gets, round_trip. cbn.
  destruct fs as [|[] fs]; reflexivity.
Qed.

(** X23.  What [filterGames] sends is a part of what [getAllGames] sends from
    the same state, in the same order; it changes no store. *)
Theorem filterGames_narrows (q : criteria) (s s' : site)
  (items : list (gmap string value)) :
  filterGames q s = (Return (Games items), s') ->
  exists (all : list (gmap string value)) (s'' : site),
    getAllGames s = (Return (Games all), s'')
    /\ items `sublist_of` all
    /\ same_stores s s'.
Proof.
  rewrite filterGames_run, getAllGames_run.
  destruct (faults (core s)) as [|[] fs]; try done; cbv zeta;
    (destruct (refine q _) as [l|] eqn:Hl; [|done]);
    intros [= <- <-]; eexists _, _; (split; [reflexivity|]);
    destruct (refine_steps q _ _ Hl) as (l1 & l3 & l4 & H1 & H3 & H4 & H5);
    apply narrow_sublist in H1, H4;
    (split; [by repeat (etrans; [eassumption|])|]); by repeat split.
Qed.

(** X24.  With a [minRating], [filterGames] sends no game whose [averageRating]
    is falsy (0, [null] or missing), whatever the bound, and every game it
    sends has an [averageRating] that is at least the bound. *)
Theorem filterGames_minRating_excludes_unrated (q : criteria) (s s' : site)
  (items : list (gmap string value)) (m : string)
  (item : gmap string value) :
  filterGames q s = (Return (Games items), s') ->
  given (minRating q) = Some m ->
  item ∈ items ->
  ToBoolean (field item "averageRating") = true
  /\ num_le (parseFloat m) (ToNumber (field item "averageRating")) = true.
Proof.
  rewrite filterGames_run. intros H Hm Hitem.
  assert (Hl : refine q (with_id <$> children (games (core s)))
               = Return items).
  { destruct (faults (core s)) as [|[] fs]; try done; cbv zeta in H;
      (destruct (refine q _) as [l|]; [|done]); by injection H as ->. }
  destruct (refine_steps q _ _ Hl) as (l1 & l3 & l4 & _ & _ & H4 & H5).
  rewrite Hm in H4. cbn in H4.
  apply (fun H => elem_of_sublist _ _ _ H H5) in Hitem.
  destruct (filter_throwing_elem _ _ _ _ H4 Hitem) as [_ [= Hkeep]].
  by apply andb_true_iff in Hkeep.
Qed.

(** X25.  With a [platform], [filterGames] is answered with status 500 as soon as
    one game of the store has a truthy [platform] that is not a string. *)
Theorem filterGames_malformed_platform (q : criteria) (s : site)
  (p key : string) (gameData : gmap string value) :
  fires 1 (faults (core s)) = false ->
  given (platform q) = Some p ->
  games (core s) !! key = Some gameData ->
  ToBoolean (field gameData "platform") = true ->
  (forall x : string, field gameData "platform" <> VStr x) ->
  exists s' : site,
    filterGames q s
    = (Return (NoGames 500 "Failed to filter games"), s').
Proof.
  intros Hf Hp Hkey Htruthy Hnot. rewrite filterGames_run.
  assert (Hl : refine q (with_id <$> children (games (core s))) = Throw).
  { unfold refine. rewrite Hp. cbn [narrow].
    rewrite (filter_throwing_throws _ _ (with_id (key, gameData))); [done| |].
    - apply list_elem_of_fmap. exists (key, gameData). split; [done|].
      by apply children_elem.
    - rewrite with_id_field by done. cbn [snd]. unfold contains.
      rewrite Htruthy. destruct (field gameData "platform"); try done.
      by destruct (Hnot s0). }
  destruct (faults (core s)) as [|[] fs]; try discriminate Hf; cbv zeta;
    rewrite Hl; eexists; reflexivity.
Qed.


End Games.


(** ** The edition of a game *)

Section Edition.

#[local] Arguments new_game : simpl never.

Ltac edition_run :=
  unfold addGame, updateGame, added_image, updated_image, delete_old_image,
    upload, games_set, games_patch, games_val, journal_write, stry, sbind,
    sret, sthrow, lift, bind, gets, modify, ret, round_trip.

Ltac edition_paths H :=
  repeat (cbn in H;
    match type of H with
    | context [match ?fs with [] => _ | _ :: _ => _ end] =>
        destruct fs as [|[] ?]
    | context [match ?x !! ?k with Some _ => _ | None => _ end] =>
        destruct (x !! k) eqn:?
    | context [match ?x with Some _ => _ | None => _ end] =>
        destruct x eqn:?
    | context [if ?b then _ else _] => destruct b eqn:?
    | context [match ?v with VStr _ => _ | _ => _ end] => destruct v
    end).

Lemma addGame_run (g : string) (r : game_request) (s s' : site)
  (o : outcome edition) :
  addGame g r s = (o, s') ->
  reviews (core s') = reviews (core s)
  /\ console (core s') = console (core s)
  /\ favorites s' = favorites s
  /\ users s' = users s
  /\ exists a : edition,
      o = Return a
      /\ (((forall x url, a <> GameAdded x url)
           /\ games (core s') = games (core s))
          \/ exists image : string,
              games (core s')
              = <[g := new_game g image r]> (games (core s))
              /\ a = GameAdded g
                       (if String.eqb image "" then "No image provided"
                        else image)
              /\ g <> ""
              /\ ToBoolean (req_title r) = true).
Proof.
  destruct s as [[rs gs fs cs t] fav us j], r as [ti de da pl ge up re b64 f b].
  edition_run. intros H.
  edition_paths H; injection H as <- <-; cbn; repeat (split; [reflexivity|]);
    (eexists; split; [reflexivity|]);
    first [ solve [left; split; [intros; discriminate | reflexivity]]
          | right; eexists; split; [reflexivity|];
            split;
            [ repeat match goal with
              | E : String.eqb _ _ = _ |- _ => rewrite E
              end; reflexivity |];
            repeat match goal with
            | E : _ || _ = false |- _ =>
                apply orb_false_iff in E; destruct E
            | E : negb _ = false |- _ => apply negb_false_iff in E
            | E : String.eqb _ _ = false |- _ => apply String.eqb_neq in E
            end; cbn in *; by split ].
Qed.

Lemma patched_lookup (updateData old : gmap string value) (k : string) :
  patched updateData old !! k
  = match updateData !! k with
    | Some VNull => None
    | Some v => Some v
    | None => old !! k
    end.
Proof.
  unfold patched. rewrite lookup_merge.
  by destruct (updateData !! k) as [[]|], (old !! k).
Qed.

Lemma game_field_put (g g' k : string) (node : gmap string value)
  (gs : gmap string (gmap string value)) :
  game_field (games_put g node gs) g' k
  = if decide (g = g') then node !! k else game_field gs g' k.
Proof.
  unfold game_field, games_put.
  destruct (decide (g = g')) as [<-|Hne]; case_bool_decide as Hnode.
  - rewrite lookup_delete_eq, Hnode. by rewrite lookup_empty.
  - by rewrite lookup_insert_eq.
  - by rewrite lookup_delete_ne.
  - by rewrite lookup_insert_ne.
Qed.

Lemma set_if_lookup (k k' : string) (x : value) (f : value -> value)
  (updateData : gmap string value) :
  set_if k x f updateData !! k'
  = if decide (k = k')
    then (if strict_neq x VUndef then Some (f x) else updateData !! k')
    else updateData !! k'.
Proof.
  unfold set_if.
  destruct (decide (k = k')) as [<-|Hne], (strict_neq x VUndef);
    first [by rewrite lookup_insert_eq | by rewrite lookup_insert_ne | done].
Qed.

Lemma set_if_lookup_eq (k : string) (x : value) (f : value -> value)
  (updateData : gmap string value) :
  set_if k x f updateData !! k
  = if strict_neq x VUndef then Some (f x) else updateData !! k.
Proof. rewrite set_if_lookup. by destruct (decide (k = k)). Qed.

Lemma set_if_lookup_ne (k k' : string) (x : value) (f : value -> value)
  (updateData : gmap string value) :
  k <> k' -> set_if k x f updateData !! k' = updateData !! k'.
Proof. intros Hne. rewrite set_if_lookup. by destruct (decide (k = k')). Qed.

Lemma given_fields_frame (r : game_request) (k : string) :
  k ∉ editable -> given_fields r !! k = None.
Proof.
  intros Hk. unfold given_fields. rewrite !set_if_lookup.
  repeat (destruct (decide _) as [<-|_];
          [exfalso; apply Hk; unfold editable; set_solver|]).
  apply lookup_empty.
Qed.

(** What the update of an existing game writes: the fields that the request
    gives, with the image of the request, if any. *)
Lemma updateGame_run (g : string) (r : game_request) (s s' : site)
  (o : outcome edition) :
  updateGame g r s = (o, s') ->
  reviews (core s') = reviews (core s)
  /\ console (core s') = console (core s)
  /\ favorites s' = favorites s
  /\ users s' = users s
  /\ exists a : edition,
      o = Return a
      /\ (a = EditionRefused 404 "Game not found" ->
          games (core s) !! g = None)
      /\ ((a <> GameUpdated /\ games (core s') = games (core s))
          \/ (a = GameUpdated /\ is_Some (games (core s) !! g)
              /\ given_fields r = ∅
              /\ games (core s') = games (core s))
          \/ exists (old updateData : gmap string value),
              a = GameUpdated
              /\ games (core s) !! g = Some old
              /\ games (core s')
                 = games_put g (patched updateData old) (games (core s))
              /\ forall k : string,
                  k <> "image" -> k <> "imageBase64" ->
                  updateData !! k = given_fields r !! k).
Proof.
  destruct s as [[rs gs fs cs t] fav us j], r as [ti de da pl ge up re b64 f b].
  edition_run.
  remember (given_fields _) as u eqn:Hu. intros H.
  edition_paths H; injection H as <- <-; cbn; repeat (split; [reflexivity|]);
    (eexists; split; [reflexivity|]); (split; [done|]);
    repeat match goal with
    | E : bool_decide (_ = ∅) = true |- _ => apply bool_decide_eq_true in E
    | E : _ !! _ = Some _ |- _ => rewrite E
    end; cbn;
    first
      [ match goal with
        | E : <[_ := _]> _ = ∅ |- _ => by apply insert_non_empty in E
        end
      | solve [left; split; [discriminate | reflexivity]]
      | solve [right; left; repeat split; first [done | by eexists]]
      | right; right; eexists _, _;
        split; [reflexivity|]; split; [reflexivity|];
        split; [reflexivity|]; intros k Hk1 Hk2;
        rewrite ?lookup_insert_ne by done; reflexivity ].
Qed.

(** X27.  [addGame] answered with status 201 has written a fresh record under
    the id: it has the id and the title of the request and a zero aggregate,
    whatever was there before.  The reviews stay as they are, so the record
    agrees with them only when no rating of the game counts. *)
Theorem addGame_resets_aggregate (g x url : string) (r : game_request)
  (s s' : site) :
  addGame g r s = (Return (GameAdded x url), s') ->
  x = g
  /\ reviews (core s') = reviews (core s)
  /\ game_field (games (core s')) g "gameId" = Some (VStr g)
  /\ game_field (games (core s')) g "title" = Some (req_title r)
  /\ game_field (games (core s')) g "averageRating" = Some (num 0)
  /\ game_field (games (core s')) g "totalRatings" = Some (num 0)
  /\ (consistent g (core s') <-> valid_ratings g (reviews (core s)) = []).
Proof.
  intros H.
  destruct (addGame_run g r s s' _ H)
    as (Hrs & _ & _ & _ & a & [= <-]
        & [[Hno _]|(image & Hgs & [= -> _] & _ & _)]).
  { by destruct (Hno x url). }
  split; [done|]. split; [done|].
  unfold consistent, game_field. rewrite Hgs, Hrs, lookup_insert_eq. cbn.
  repeat (split; [reflexivity|]).
  unfold new_game.
  rewrite !(lookup_insert_ne _ _ "averageRating") by done.
  rewrite !(lookup_insert_ne _ _ "totalRatings") by done.
  rewrite !lookup_insert_eq.
  split.
  - intros [_ Hn]. injection Hn as Hn.
    pose proof (aggregate_count g (reviews (core s))) as Hc.
    destruct (valid_ratings g (reviews (core s))); [done|].
    rewrite Hc in Hn. cbn in Hn. discriminate.
  - intros Hnone. by rewrite (aggregate_none _ _ Hnone).
Qed.

(** X28.  [addGame] writes nothing but the record of its game, and writes it
    only when it answers with status 201: every refusal and every failure
    leaves the stores as they were. *)
Theorem addGame_frame (g : string) (r : game_request) (s s' : site)
  (o : outcome edition) :
  addGame g r s = (o, s') ->
  reviews (core s') = reviews (core s)
  /\ favorites s' = favorites s
  /\ users s' = users s
  /\ (forall g' : string,
         g' <> g -> games (core s') !! g' = games (core s) !! g')
  /\ ((forall x url, o <> Return (GameAdded x url)) -> same_stores s s')
  /\ (g = "" \/ ToBoolean (req_title r) = false ->
      o = Return (EditionRefused 400 "gameId and title are required")).
Proof.
  intros H.
  destruct (addGame_run g r s s' _ H)
    as (Hrs & Hcs & Hfs & Hus & a & ->
        & [[Hno Hgs]|(image & Hgs & -> & Hg & Ht)]).
  - repeat (split; [done|]). split; [by rewrite Hgs|].
    split; [done|].
    intros Hbad. revert H. destruct s as [[rs gs fs cs t] fav us j].
    edition_run. intros H.
    assert (String.eqb g "" || negb (ToBoolean (req_title r)) = true) as E.
    { destruct Hbad as [-> | ->]; [done|]. apply orb_true_r. }
    rewrite E in H. cbn in H. by injection H as <- _.
  - repeat (split; [done|]).
    split; [intros g' Hne; by rewrite Hgs, lookup_insert_ne|].
    split; [intros Hno; by edestruct Hno|].
    intros [? | E]; [done|]. by rewrite E in Ht.
Qed.

(** X29.  [updateGame] never writes the aggregate of a game: whatever it
    answers, the reviews, the favorites and every child of every game other
    than the nine it may edit are as before, so a game whose aggregate agreed
    with its reviews still does; and the games are as before unless it answers
    with status 200. *)
Theorem updateGame_frame (g : string) (r : game_request) (s s' : site)
  (o : outcome edition) :
  updateGame g r s = (o, s') ->
  reviews (core s') = reviews (core s)
  /\ favorites s' = favorites s
  /\ (forall g' k : string,
         k ∉ editable ->
         game_field (games (core s')) g' k = game_field (games (core s)) g' k)
  /\ (forall g' : string, consistent g' (core s) -> consistent g' (core s'))
  /\ (o <> Return GameUpdated -> same_stores s s')
  /\ (games (core s) !! g = None ->
      o = Return (EditionRefused 404 "Game not found")
      \/ o = Return EditionFailed).
Proof.
  intros H.
  destruct (updateGame_run g r s s' _ H)
    as (Hrs & Hcs & Hfs & Hus & a & -> & H404 & Hcases).
  assert (forall g' k : string,
             k ∉ editable ->
             game_field (games (core s')) g' k
             = game_field (games (core s)) g' k) as Hframe.
  { intros g' k Hk.
    destruct Hcases as [[_ ->]|[(_ & _ & _ & ->)|(old & u & _ & Hold & -> & Hu)]];
      [done..|].
    rewrite game_field_put. destruct (decide (g = g')) as [<-|]; [|done].
    unfold game_field. rewrite Hold. cbn. rewrite patched_lookup.
    rewrite Hu, (given_fields_frame r k Hk); [done|..];
      intros ->; apply Hk; unfold editable; set_solver. }
  split; [done|]. split; [done|]. split; [done|]. split.
  { intros g' [Ha Ht]. unfold consistent.
    rewrite !Hframe, Hrs by (apply (bool_decide_unpack _); by vm_compute).
    done. }
  split.
  { intros Hno.
    destruct Hcases as [[_ Hgs]|[(-> & _)|(old & u & -> & _)]]; [|done..].
    by repeat split. }
  intros Hnone. revert H. destruct s as [[rs gs [|[] fs] cs t] fav us j];
    edition_run; cbn in *; rewrite ?Hnone; cbn; intros [= <- _]; auto.
Qed.

(** X30.  [updateGame] answered with status 200 has written what the request
    gives and nothing else of the seven plain fields: a field that the
    request leaves out is kept, a field given as [null] is removed, any other
    value is stored, and the two flags are stored as booleans. *)
Theorem updateGame_writes_given (g : string) (r : game_request)
  (s s' : site) :
  updateGame g r s = (Return GameUpdated, s') ->
  let was := game_field (games (core s)) g in
  let after := game_field (games (core s')) g in
  is_Some (games (core s) !! g)
  /\ after "title" = asked (req_title r) id (was "title")
  /\ after "description" = asked (req_description r) id (was "description")
  /\ after "releaseDate" = asked (req_releaseDate r) id (was "releaseDate")
  /\ after "platform" = asked (req_platform r) id (was "platform")
  /\ after "genre" = asked (req_genre r) id (was "genre")
  /\ after "upcoming" = asked (req_upcoming r) flag (was "upcoming")
  /\ after "released" = asked (req_released r) flag (was "released").
Proof.
  intros H was after.
  destruct (updateGame_run g r s s' _ H)
    as (_ & _ & _ & _ & a & [= <-] & _ & Hcases).
  assert (is_Some (games (core s) !! g)
          /\ forall k : string,
              k <> "image" -> k <> "imageBase64" ->
              after k = match given_fields r !! k with
                     | Some VNull => None
                     | Some v => Some v
                     | None => was k
                     end) as [Hold Hk].
  { subst was after.
    destruct Hcases as [[? _]|[(_ & Hg & Hnone & ->)|(old & u & _ & Hold & -> & Hu)]];
      [done| |].
    - split; [done|]. intros k _ _. by rewrite Hnone, lookup_empty.
    - split; [by eexists|]. intros k Hk1 Hk2.
      rewrite game_field_put. destruct (decide (g = g)); [|done].
      unfold game_field. rewrite Hold. cbn.
      by rewrite patched_lookup, Hu. }
  split; [done|].
  repeat split; rewrite Hk by done; unfold given_fields;
    rewrite ?set_if_lookup_ne by done;
    rewrite set_if_lookup_eq, ?set_if_lookup_ne by done;
    rewrite lookup_empty; unfold asked, flag;
    match goal with
    | |- context [strict_neq ?x VUndef] => by destruct x
    end.
Qed.

End Edition.


(** ** Scenarios *)

Section Scenarios.

(** C2, at a review with a text and no rating, updated by its owner with a
    new text and no rating.  The update succeeds and the stored rating is
    [null] before and after, yet a recompute runs, as its console entry shows:
    the request carries [undefined], which is not [===] to the stored
    [null]. *)
Lemma updateReview_text_only_recomputes :
  Doc.rating <$> reviews commented !! "r1" = Some VNull
  /\ updateReview "r1" "u1" (VStr "new") VUndef commented
     = (Return {| status := 200;
                  json := Message "Review updated successfully" |},
        recomputed "g1"
          (set_reviews (insert "r1" (note "u1" (VStr "new") VNull))
             commented))
  /\ written commented
       (snd (updateReview "r1" "u1" (VStr "new") VUndef commented))
     = [LogRatingUpdated "g1" (Fin 0) 0].
Proof. vm_compute. repeat split; reflexivity. Qed.


(** C4, at a create with rating 4 whose recompute throws on its first round
    trip.  The review is stored, and the create is answered with status 500,
    not with a success. *)
Lemma addReview_fails_with_recompute :
  fst (addReview "u1" "g1" (VStr "good") (num 4) flaky)
  = Return {| status := 500; json := Error "Failed to add review" |}
  /\ Doc.rating
       <$> reviews (snd (addReview "u1" "g1" (VStr "good") (num 4) flaky))
           !! "0"
     = Some (num 4)
  /\ written flaky (snd (addReview "u1" "g1" (VStr "good") (num 4) flaky))
     = [ErrUpdateGameRating; ErrAddReview].
Proof. vm_compute. repeat split; reflexivity. Qed.


(** C6, at a review whose document has no [rating] field, deleted by its
    owner.  The review never had a rating, yet the delete runs a recompute,
    as its console entry shows: the missing field reads [undefined], which
    is not [===] to [null]. *)
Lemma deleteReview_unrated_recomputes :
  Doc.rating <$> reviews bare !! "r1" = Some VUndef
  /\ valid_ratings "g1" (reviews bare) = []
  /\ deleteReview "r1" "u1" VUndef bare
     = (Return {| status := 200;
                  json := Message "Review deleted successfully" |},
        recomputed "g1" (set_reviews (delete "r1") bare))
  /\ written bare (snd (deleteReview "r1" "u1" VUndef bare))
     = [LogRatingUpdated "g1" (Fin 0) 0].
Proof. vm_compute. repeat split; reflexivity. Qed.

(** *** Numbers at work

    Twenty ratings that sum to 23: the quotient is the binary64 number next
    below 1.15 and the average is 1.1.  A numeral with more digits than a
    binary64 number holds is read as the nearest one, by the range check of
    [addReview] and by [parseFloat]. *)
Lemma round64_at_work :
  round64 (1 # 10) = Fin (3602879701896397 # 36028797018963968)
  /\ round64 (23 # 20) = Fin (2589569785738035 # 2251799813685248)
  /\ round64 (10 # 3) = Fin (7505999378950827 # 2251799813685248)
  /\ round64 (- (1 # 3)) = Fin (- (6004799503160661 # 18014398509481984))
  /\ round64 9007199254740993 = Fin 9007199254740992
  /\ round64 (3 # 2 ^ 1076) = Fin (1 # 2 ^ 1074)
  /\ round64 (1 # 2 ^ 1075) = Fin 0
  /\ round64 (inject_Z (2 ^ 1024 - 2 ^ 971)) = Fin (inject_Z (2 ^ 1024 - 2 ^ 971))
  /\ round64 (inject_Z (2 ^ 1024 - 2 ^ 970)) = PInf.
Proof. vm_compute. repeat split; reflexivity. Qed.

Lemma average_of_23_over_20 :
  average (Fin 23) 20 = round64 (11 # 10).
Proof. vm_compute. reflexivity. Qed.

Lemma addReview_reads_binary64 :
  ToNumber (VStr "5.00000000000000000001") = Fin 5
  /\ fst (addReview "u1" "g1" (VStr "good") (VStr "5.00000000000000000001")
            shop)
     = Return {| status := 201;
                 json := Added "Review added successfully" "0" |}.
Proof. vm_compute. split; reflexivity. Qed.

Lemma parseFloat_reads_binary64 :
  parseFloat "4.00000000000000000001" = Fin 4
  /\ parseFloat "2.3" = round64 (23 # 10)
  /\ parseInt (VStr "9007199254740993x") = Fin 9007199254740992.
Proof. vm_compute. repeat split; reflexivity. Qed.

(** *** The theorems at work *)


Lemma updateGameRating_frame_witness :
  ("g1" <> "g1" \/ ("title" <> "averageRating" /\ "title" <> "totalRatings"))
  /\ game_field (games (snd (updateGameRating "g1" reviewed))) "g1" "title"
     = game_field (games reviewed) "g1" "title".
Proof.
  assert (H : "g1" <> "g1"
              \/ ("title" <> "averageRating" /\ "title" <> "totalRatings"))
    by (right; split; discriminate).
  split; [exact H|].
  exact (updateGameRating_frame "g1" "g1" "title" reviewed H).
Defined.

Lemma updateGameRating_idempotent_witness :
  updateGameRating "g1" reviewed
  = (Return (Fin 4, 2%nat), recomputed "g1" reviewed)
  /\ fires 2 (faults (recomputed "g1" reviewed)) = false
  /\ exists w2 : world,
      updateGameRating "g1" (recomputed "g1" reviewed)
      = (Return (Fin 4, 2%nat), w2)
      /\ games w2 = games (recomputed "g1" reviewed)
      /\ reviews w2 = reviews (recomputed "g1" reviewed).
Proof.
  assert (H1 : updateGameRating "g1" reviewed
               = (Return (Fin 4, 2%nat), recomputed "g1" reviewed))
    by (vm_compute; reflexivity).
  split; [exact H1|]. split; [reflexivity|].
  exact (updateGameRating_idempotent "g1" reviewed _ _ H1 eq_refl).
Defined.

(** User u2 asks to update the review of u1. *)
Lemma rejection_has_no_effect_witness :
  handle (Update "r1" "u2" (VStr "mine") (num 1)) reviewed
  = (Return {| status := 403;
               json := Error "User can only edit their own reviews" |},
     reviewed)
  /\ rejection 403 = true
  /\ reviews reviewed = reviews reviewed
  /\ games reviewed = games reviewed
  /\ console reviewed = console reviewed.
Proof.
  assert (H : handle (Update "r1" "u2" (VStr "mine") (num 1)) reviewed
              = (Return {| status := 403;
                           json := Error "User can only edit their own reviews" |},
                 reviewed))
    by (vm_compute; reflexivity).
  split; [exact H|]. split; [reflexivity|].
  exact (rejection_has_no_effect _ _ _ _ H eq_refl).
Defined.

(** The owner of a review with a text sends a rating and no text. *)
Lemma updateReview_overwrites_witness :
  updateReview "r1" "u1" VUndef (num 4) commented
  = (Return {| status := 200; json := Message "Review updated successfully" |},
     recomputed "g1"
       (set_reviews (insert "r1" (note "u1" VNull (num 4))) commented))
  /\ exists old : review,
      reviews commented !! "r1" = Some old
      /\ reviews
           (recomputed "g1"
              (set_reviews (insert "r1" (note "u1" VNull (num 4))) commented))
         = <["r1" := updated old VUndef (num 4)]> (reviews commented)
      /\ (VUndef = VUndef ->
          Doc.text
            <$> reviews
                  (recomputed "g1"
                     (set_reviews (insert "r1" (note "u1" VNull (num 4)))
                        commented))
                !! "r1"
          = Some VNull)
      /\ (num 4 = VUndef ->
          Doc.rating
            <$> reviews
                  (recomputed "g1"
                     (set_reviews (insert "r1" (note "u1" VNull (num 4)))
                        commented))
                !! "r1"
          = Some VNull).
Proof.
  assert (H : updateReview "r1" "u1" VUndef (num 4) commented
              = (Return {| status := 200;
                           json := Message "Review updated successfully" |},
                 recomputed "g1"
                   (set_reviews (insert "r1" (note "u1" VNull (num 4)))
                      commented)))
    by (vm_compute; reflexivity).
  split; [exact H|].
  exact (updateReview_overwrites _ _ _ _ _ _ _ H eq_refl).
Defined.

(** A create with a rating on the catalogue whose recompute fails. *)
Lemma recompute_failure_is_surfaced_witness :
  handle (Create "u1" "g1" (VStr "good") (num 4)) flaky
  = (Return {| status := 500; json := Error "Failed to add review" |},
     snd (handle (Create "u1" "g1" (VStr "good") (num 4)) flaky))
  /\ In ErrUpdateGameRating
       (written flaky
          (snd (handle (Create "u1" "g1" (VStr "good") (num 4)) flaky)))
  /\ (exists msg : string,
         Return {| status := 500; json := Error "Failed to add review" |}
         = Return {| status := 500; json := Error msg |})
  /\ reviews (snd (handle (Create "u1" "g1" (VStr "good") (num 4)) flaky))
     = committed (Create "u1" "g1" (VStr "good") (num 4)) flaky
  /\ games (snd (handle (Create "u1" "g1" (VStr "good") (num 4)) flaky))
     = games flaky.
Proof.
  assert (H : handle (Create "u1" "g1" (VStr "good") (num 4)) flaky
              = (Return {| status := 500;
                           json := Error "Failed to add review" |},
                 snd (handle (Create "u1" "g1" (VStr "good") (num 4)) flaky)))
    by (vm_compute; reflexivity).
  assert (Hin : In ErrUpdateGameRating
                  (written flaky
                     (snd (handle (Create "u1" "g1" (VStr "good") (num 4))
                             flaky))))
    by (vm_compute; left; reflexivity).
  split; [exact H|]. split; [exact Hin|].
  exact (recompute_failure_is_surfaced _ _ _ _ H Hin).
Defined.


(** *** The lifecycle theorems at work *)

(** A create whose rating is a numeral with more digits than a binary64
    number holds: it is read as 5, and the create is answered with 201. *)
Lemma status_without_faults_witness :
  existsb id (faults shop) = false
  /\ handle (Create "u1" "g1" (VStr "good") (VStr "5.00000000000000000001"))
       shop
     = (Return {| status := 201;
                  json := Added "Review added successfully" "0" |},
        snd (handle (Create "u1" "g1" (VStr "good")
                       (VStr "5.00000000000000000001")) shop))
  /\ 201%nat
     = verdict (Create "u1" "g1" (VStr "good") (VStr "5.00000000000000000001"))
         shop.
Proof.
  assert (H : handle (Create "u1" "g1" (VStr "good")
                        (VStr "5.00000000000000000001")) shop
              = (Return {| status := 201;
                           json := Added "Review added successfully" "0" |},
                 snd (handle (Create "u1" "g1" (VStr "good")
                                (VStr "5.00000000000000000001")) shop)))
    by (vm_compute; reflexivity).
  split; [reflexivity|]. split; [exact H|].
  exact (status_without_faults _ shop _ _ eq_refl H).
Defined.

Lemma rate4_answer :
  handle rate4 shop
  = (Return {| status := 201; json := Added "Review added successfully" "0" |},
     snd (handle rate4 shop)).
Proof. vm_compute. reflexivity. Qed.

Lemma recompute_only_after_commit_witness :
  games (snd (handle rate4 shop)) <> games shop
  /\ trigger rate4 shop = true
  /\ reviews (snd (handle rate4 shop)) = committed rate4 shop
  /\ exists (g : string) (a : number * nat),
      game_of rate4 shop = Some g
      /\ recompute_gives g (committed rate4 shop) a
      /\ games (snd (handle rate4 shop))
         = <[g := rated a (default ∅ (games shop !! g))]> (games shop).
Proof.
  assert (Hg : games (snd (handle rate4 shop)) <> games shop).
  { intros E.
    apply (f_equal (fun gs => game_field gs "g1" "totalRatings")) in E.
    vm_compute in E. discriminate E. }
  split; [exact Hg|].
  exact (recompute_only_after_commit rate4 shop _ _ rate4_answer Hg).
Defined.

Lemma other_reviews_untouched_witness :
  "r2" <> target (Delete "r1" "u1" VUndef) reviewed
  /\ reviews (snd (handle (Delete "r1" "u1" VUndef) reviewed)) !! "r2"
     = reviews reviewed !! "r2".
Proof.
  assert (Hid : "r2" <> target (Delete "r1" "u1" VUndef) reviewed)
    by discriminate.
  assert (H : handle (Delete "r1" "u1" VUndef) reviewed
              = (Return {| status := 200;
                           json := Message "Review deleted successfully" |},
                 snd (handle (Delete "r1" "u1" VUndef) reviewed)))
    by (vm_compute; reflexivity).
  split; [exact Hid|].
  exact (other_reviews_untouched _ _ _ _ "r2" H Hid).
Defined.

Lemma handlers_frame_games_witness :
  (game_of rate4 shop <> Some "g1"
   \/ ("title" <> "averageRating" /\ "title" <> "totalRatings"))
  /\ game_field (games (snd (handle rate4 shop))) "g1" "title"
     = game_field (games shop) "g1" "title".
Proof.
  assert (Hf : game_of rate4 shop <> Some "g1"
               \/ ("title" <> "averageRating" /\ "title" <> "totalRatings"))
    by (right; split; discriminate).
  split; [exact Hf|].
  exact (handlers_frame_games rate4 shop _ _ "g1" "title" rate4_answer Hf).
Defined.

Lemma foreign_review_untouched_witness :
  requester intrude = Some "u2"
  /\ reviews reviewed !! target intrude reviewed
     = Some (note "u1" VNull (num 5))
  /\ Doc.userId (note "u1" VNull (num 5)) <> "u2"
  /\ reviews (snd (handle intrude reviewed)) = reviews reviewed
  /\ games (snd (handle intrude reviewed)) = games reviewed
  /\ (403%nat = 403%nat \/ 403%nat = 500%nat).
Proof.
  assert (H : handle intrude reviewed
              = (Return {| status := 403;
                           json := Error "User can only edit their own reviews" |},
                 snd (handle intrude reviewed)))
    by (vm_compute; reflexivity).
  assert (Hne : Doc.userId (note "u1" VNull (num 5)) <> "u2") by discriminate.
  split; [reflexivity|]. split; [reflexivity|]. split; [exact Hne|].
  exact (foreign_review_untouched intrude reviewed _ _ "u2" _
           eq_refl eq_refl Hne H).
Defined.

Lemma addReview_stores_new_review_witness :
  addReview "u1" "g1" (VStr "good") (num 4) shop
  = (Return {| status := 201; json := Added "Review added successfully" "0" |},
     snd (handle rate4 shop))
  /\ exists id : string,
      Added "Review added successfully" "0"
      = Added "Review added successfully" id
      /\ reviews shop !! id = None
      /\ reviews (snd (handle rate4 shop)) !! id
         = Some (created "u1" "g1" (VStr "good") (num 4) shop)
      /\ is_Some (games shop !! "g1").
Proof.
  split; [exact rate4_answer|].
  exact (addReview_stores_new_review "u1" "g1" (VStr "good") (num 4) shop
           _ _ rate4_answer eq_refl).
Defined.

Lemma stored_review_is_valid_witness :
  request rate4 = Some (VStr "good", num 4)
  /\ succeeded 201 = true
  /\ exists new : review,
      reviews (snd (handle rate4 shop)) !! target rate4 shop = Some new
      /\ (Doc.text new <> VNull \/ Doc.rating new <> VNull)
      /\ (is_number (num 4) = true ->
          Doc.rating new = VNull
          \/ exists z : Z, (1 <= z <= 5)%Z /\ Doc.rating new = num z).
Proof.
  split; [reflexivity|]. split; [reflexivity|].
  exact (stored_review_is_valid rate4 shop _ _ _ _
           eq_refl rate4_answer eq_refl).
Defined.

Lemma wf_store_shop : wf_store (reviews shop).
Proof. intros id r H. cbn in H. by rewrite lookup_empty in H. Qed.

Lemma recompute_heals_witness :
  succeeded 201 = true
  /\ trigger rate4 shop = true
  /\ exists g : string,
      game_of rate4 shop = Some g /\ up_to_date g (snd (handle rate4 shop)).
Proof.
  split; [reflexivity|]. split; [reflexivity|].
  exact (recompute_heals rate4 shop _ _ rate4_answer eq_refl eq_refl).
Defined.

Lemma up_to_date_shop : up_to_date "g1" shop.
Proof. apply up_to_date_consistent. split; vm_compute; reflexivity. Qed.

Lemma success_keeps_consistent_witness :
  wf_store (reviews shop)
  /\ up_to_date "g1" shop
  /\ wf_store (reviews (snd (handle rate4 shop)))
  /\ up_to_date "g1" (snd (handle rate4 shop)).
Proof.
  split; [exact wf_store_shop|]. split; [exact up_to_date_shop|].
  destruct (success_keeps_consistent rate4 shop _ _ "g1" wf_store_shop
              rate4_answer) as [Hwf Hcons].
  split; [exact Hwf | exact (Hcons eq_refl up_to_date_shop)].
Defined.

Lemma updateGameRating_range_witness :
  updateGameRating "g1" reviewed
  = (Return (Fin 4, 2%nat), recomputed "g1" reviewed)
  /\ ((2%nat = O /\ Fin 4 = Fin 0)
      \/ (2%nat <> O
          /\ exists a : Q, Fin 4 = Fin a /\ (1 <= a <= 5)%Q)).
Proof.
  assert (H : updateGameRating "g1" reviewed
              = (Return (Fin 4, 2%nat), recomputed "g1" reviewed))
    by (vm_compute; reflexivity).
  split; [exact H|].
  exact (updateGameRating_range "g1" reviewed _ _ _ H).
Defined.

Lemma aggregate_ignores_witness :
  reviews reviewed !! "r9" = None
  /\ (Doc.gameId (note "u9" (VStr "fine") VNull) <> "g1"
      \/ valid_rating (Doc.rating (note "u9" (VStr "fine") VNull)) = None)
  /\ aggregate "g1"
       (<["r9" := note "u9" (VStr "fine") VNull]> (reviews reviewed))
     = aggregate "g1" (reviews reviewed).
Proof.
  assert (Hw : Doc.gameId (note "u9" (VStr "fine") VNull) <> "g1"
               \/ valid_rating (Doc.rating (note "u9" (VStr "fine") VNull))
                  = None)
    by (right; reflexivity).
  split; [reflexivity|]. split; [exact Hw|].
  exact (aggregate_ignores "g1" "r9" _ (reviews reviewed) eq_refl Hw).
Defined.

Lemma create_counts_new_rating_witness :
  (1 <= inject_Z 4 <= 5)%Q
  /\ addReview "u1" "g1" (VStr "good") (VNum (Fin (inject_Z 4))) shop
     = (Return {| status := 201;
                  json := Added "Review added successfully" "0" |},
        snd (handle rate4 shop))
  /\ game_field (games (snd (handle rate4 shop))) "g1" "totalRatings"
     = Some (VNum (Fin (inject_Z (Z.of_nat
                          (S (length (valid_ratings "g1" (reviews shop)))))))).
Proof.
  assert (Hq : (1 <= inject_Z 4 <= 5)%Q) by (split; discriminate).
  split; [exact Hq|]. split; [exact rate4_answer|].
  exact (create_counts_new_rating "u1" "g1" (VStr "good") (inject_Z 4)
           shop _ _ Hq rate4_answer eq_refl).
Defined.

End Scenarios.


(** ** Scenarios of the catalogue *)

Section Catalogue.


Lemma updateGameRating_missing_game_witness :
  games reviewed !! "g9" = None
  /\ updateGameRating "g9" reviewed
     = (Return (Fin 0, 0%nat), snd (updateGameRating "g9" reviewed))
  /\ games (snd (updateGameRating "g9" reviewed)) !! "g9"
     = Some (<["averageRating" := VNum (Fin 0)]>
               (<["totalRatings" := VNum (Fin (inject_Z (Z.of_nat 0)))]> ∅)).
Proof.
  assert (H : updateGameRating "g9" reviewed
              = (Return (Fin 0, 0%nat), snd (updateGameRating "g9" reviewed)))
    by (vm_compute; reflexivity).
  split; [reflexivity|]. split; [exact H|].
  exact (updateGameRating_missing_game "g9" reviewed _ _ eq_refl H).
Defined.

Lemma getReviews_lists_witness :
  fires 1 (faults (core mall)) = false
  /\ exists (items : list (string * review)) (s' : site),
      getReviews (ByGame "g1") mall = (Return (Listed items), s')
      /\ (forall (id : string) (r : review),
             (id, r) ∈ items
             <-> reviews (core mall) !! id = Some r
                 /\ matches (ByGame "g1") r = true)
      /\ NoDup items.*1
      /\ StronglySorted newer items.
Proof.
  split; [reflexivity|].
  exact (getReviews_lists (ByGame "g1") mall eq_refl).
Defined.

Lemma created_review_is_listed_witness :
  addReview "u1" "g1" (VStr "good") (num 4) (core stall)
  = (Return {| status := 201;
               json := Added "Review added successfully" "0" |},
     snd (handle rate4 shop))
  /\ fires 1 (faults (snd (handle rate4 shop))) = false
  /\ exists (id : string) (items : list (string * review)) (s'' : site),
      Added "Review added successfully" "0"
      = Added "Review added successfully" id
      /\ getReviewsByGame "g1" (set_core (snd (handle rate4 shop)) stall)
         = (Return (Listed items), s'')
      /\ (id, created "u1" "g1" (VStr "good") (num 4) (core stall)) ∈ items.
Proof.
  assert (Hf : fires 1 (faults (snd (handle rate4 shop))) = false)
    by (vm_compute; reflexivity).
  split; [exact rate4_answer|]. split; [exact Hf|].
  exact (created_review_is_listed "u1" "g1" (VStr "good") (num 4) stall
           _ _ rate4_answer eq_refl Hf).
Defined.

Lemma getGameById_page_witness :
  fires 2 (faults (core mall)) = false
  /\ exists (a : game_page) (s' : site),
      getGameById "g1" mall = (Return a, s')
      /\ match games (core mall) !! "g1" with
         | None => a = NoPage 404 "Game not found"
         | Some gameData =>
             exists (game : gmap string value)
                    (items : list (string * review)),
               a = Page game items
               /\ (forall field : string,
                      is_Some (gameData !! field) ->
                      game !! field = gameData !! field)
               /\ (gameData !! "id" = None ->
                   game !! "id" = Some (VStr "g1"))
               /\ (forall (id : string) (r : review),
                      (id, r) ∈ items
                      <-> reviews (core mall) !! id = Some r
                          /\ Doc.gameId r = "g1")
         end.
Proof.
  split; [reflexivity|].
  exact (getGameById_page "g1" mall eq_refl).
Defined.

Lemma mall_removed :
  deleteGame "g1" mall = (Return Removed, snd (deleteGame "g1" mall)).
Proof. vm_compute. reflexivity. Qed.

Lemma outage_failed :
  deleteGame "g1" outage = (Return RemovalFailed, snd (deleteGame "g1" outage)).
Proof. vm_compute. reflexivity. Qed.

Lemma deleteGame_removes_witness :
  deleteGame "g1" mall = (Return Removed, snd (deleteGame "g1" mall))
  /\ is_Some (games (core mall) !! "g1")
  /\ games (core (snd (deleteGame "g1" mall)))
     = delete "g1" (games (core mall))
  /\ (forall (id : string) (r : review),
         reviews (core (snd (deleteGame "g1" mall))) !! id = Some r
         <-> reviews (core mall) !! id = Some r /\ Doc.gameId r <> "g1")
  /\ (forall (id : string) (f : gmap string value),
         favorites (snd (deleteGame "g1" mall)) !! id = Some f
         <-> favorites mall !! id = Some f
             /\ f !! "gameId" <> Some (VStr "g1")).
Proof.
  split; [exact mall_removed|].
  exact (deleteGame_removes "g1" mall _ mall_removed).
Defined.

Lemma mall_has_portal : is_Some (games (core mall) !! "g1").
Proof. eexists. reflexivity. Qed.

Lemma mall_lost_portal :
  games (core (snd (deleteGame "g1" mall))) !! "g1" = None.
Proof. vm_compute. reflexivity. Qed.

Lemma deleteGame_removes_game_last_witness :
  is_Some (games (core mall) !! "g1")
  /\ games (core (snd (deleteGame "g1" mall))) !! "g1" = None
  /\ (forall (id : string) (r : review),
         reviews (core (snd (deleteGame "g1" mall))) !! id = Some r ->
         Doc.gameId r <> "g1")
  /\ (forall (id : string) (f : gmap string value),
         favorites (snd (deleteGame "g1" mall)) !! id = Some f ->
         f !! "gameId" <> Some (VStr "g1")).
Proof.
  split; [exact mall_has_portal|]. split; [exact mall_lost_portal|].
  exact (deleteGame_removes_game_last "g1" mall _ _ mall_removed
           mall_has_portal mall_lost_portal).
Defined.

Lemma deleteGame_frame_witness :
  deleteGame "g1" outage
  = (Return RemovalFailed, snd (deleteGame "g1" outage))
  /\ (forall g' : string,
         g' <> "g1" ->
         games (core (snd (deleteGame "g1" outage))) !! g'
         = games (core outage) !! g')
  /\ (forall (id : string) (r : review),
         Doc.gameId r <> "g1" ->
         reviews (core (snd (deleteGame "g1" outage))) !! id = Some r
         <-> reviews (core outage) !! id = Some r)
  /\ (forall (id : string) (r : review),
         reviews (core (snd (deleteGame "g1" outage))) !! id = Some r ->
         reviews (core outage) !! id = Some r)
  /\ (forall (id : string) (f : gmap string value),
         f !! "gameId" <> Some (VStr "g1") ->
         favorites (snd (deleteGame "g1" outage)) !! id = Some f
         <-> favorites outage !! id = Some f)
  /\ console (core (snd (deleteGame "g1" outage))) = console (core outage).
Proof.
  split; [exact outage_failed|].
  exact (deleteGame_frame "g1" outage _ _ outage_failed).
Defined.

Lemma consistent_doom : consistent "g2" (core outage).
Proof. split; vm_compute; reflexivity. Qed.

Lemma deleteGame_keeps_other_aggregates_witness :
  "g2" <> "g1"
  /\ consistent "g2" (core outage)
  /\ consistent "g2" (core (snd (deleteGame "g1" outage))).
Proof.
  assert (Hne : "g2" <> "g1") by discriminate.
  split; [exact Hne|]. split; [exact consistent_doom|].
  exact (deleteGame_keeps_other_aggregates "g1" "g2" outage _ _
           outage_failed Hne consistent_doom).
Defined.

Lemma deleteGame_despite_image_witness :
  games (core dim) !! "g2" = Some doom
  /\ doom !! "image" = Some (VStr "https://storage.example/game-images/g2.png")
  /\ "https://storage.example/game-images/g2.png" <> ""
  /\ faults (core dim) = [false; true]
  /\ fst (deleteGame "g2" dim) = Return Removed
  /\ journal (snd (deleteGame "g2" dim))
     = (journal dim ++ [WarnDeleteImage])%list.
Proof.
  assert (Hurl : "https://storage.example/game-images/g2.png" <> "")
    by discriminate.
  split; [reflexivity|]. split; [reflexivity|]. split; [exact Hurl|].
  split; [reflexivity|].
  exact (deleteGame_despite_image "g2" _ doom true [] dim _ _
           eq_refl eq_refl Hurl eq_refl eq_refl
           (surjective_pairing (deleteGame "g2" dim))).
Defined.

Lemma admin_listing_follows_public_witness :
  fires 1 (faults (core mall)) = false
  /\ exists (items : list admin_item) (public : list (string * review))
            (s1 s2 : site),
      getAllReviewsForAdmin mall = (Return (AdminListed items), s1)
      /\ getAllReviews mall = (Return (Listed public), s2)
      /\ item_doc <$> items = public
      /\ same_stores mall s1.
Proof.
  split; [reflexivity|].
  exact (admin_listing_follows_public mall eq_refl).
Defined.

Lemma admin_listing_joins_witness :
  existsb id (faults (core mall)) = false
  /\ exists items : list admin_item,
      fst (getAllReviewsForAdmin mall) = Return (AdminListed items)
      /\ Forall (item_joined mall) items.
Proof.
  split; [reflexivity|].
  exact (admin_listing_joins mall _ _ eq_refl
           (surjective_pairing (getAllReviewsForAdmin mall))).
Defined.

Lemma getAllGames_lists_witness :
  fires 1 (faults (core mall)) = false
  /\ exists (items : list (gmap string value)) (s' : site),
      getAllGames mall = (Return (Games items), s')
      /\ items ≡ₚ with_id <$> map_to_list (games (core mall))
      /\ same_stores mall s'.
Proof.
  split; [reflexivity|].
  exact (getAllGames_lists mall eq_refl).
Defined.

Lemma on_pc_answer :
  filterGames on_pc mall = (Return (Games [with_id ("g2", doom)]), mall).
Proof. vm_compute. reflexivity. Qed.

Lemma well_rated_answer :
  filterGames well_rated mall
  = (Return (Games [with_id ("g1", rated (Fin 4, 2%nat) portal)]), mall).
Proof. vm_compute. reflexivity. Qed.

Lemma filterGames_narrows_witness :
  filterGames on_pc mall = (Return (Games [with_id ("g2", doom)]), mall)
  /\ exists (all : list (gmap string value)) (s'' : site),
      getAllGames mall = (Return (Games all), s'')
      /\ [with_id ("g2", doom)] `sublist_of` all
      /\ same_stores mall mall.
Proof.
  split; [exact on_pc_answer|].
  exact (filterGames_narrows on_pc mall _ _ on_pc_answer).
Defined.

(** The bound is read as the binary64 number 4, and the game rated 4 is
    sent. *)
Lemma four_and_a_bit_answer :
  filterGames four_and_a_bit mall
  = (Return (Games [with_id ("g1", rated (Fin 4, 2%nat) portal)]), mall).
Proof. vm_compute. reflexivity. Qed.

Lemma filterGames_minRating_excludes_unrated_witness :
  given (minRating four_and_a_bit) = Some "4.00000000000000000001"
  /\ with_id ("g1", rated (Fin 4, 2%nat) portal)
     ∈ [with_id ("g1", rated (Fin 4, 2%nat) portal)]
  /\ ToBoolean (field (with_id ("g1", rated (Fin 4, 2%nat) portal))
                  "averageRating") = true
  /\ num_le (parseFloat "4.00000000000000000001")
       (ToNumber (field (with_id ("g1", rated (Fin 4, 2%nat) portal))
                    "averageRating")) = true.
Proof.
  assert (Hin : with_id ("g1", rated (Fin 4, 2%nat) portal)
                ∈ [with_id ("g1", rated (Fin 4, 2%nat) portal)])
    by constructor.
  split; [reflexivity|]. split; [exact Hin|].
  exact (filterGames_minRating_excludes_unrated four_and_a_bit mall _ _ _ _
           four_and_a_bit_answer eq_refl Hin).
Defined.

Lemma filterGames_malformed_platform_witness :
  fires 1 (faults (core dump)) = false
  /\ given (platform on_pc) = Some "pc"
  /\ games (core dump) !! "g3" = Some junk
  /\ ToBoolean (field junk "platform") = true
  /\ (forall x : string, field junk "platform" <> VStr x)
  /\ exists s' : site,
      filterGames on_pc dump
      = (Return (NoGames 500 "Failed to filter games"), s').
Proof.
  assert (Hnot : forall x : string, field junk "platform" <> VStr x)
    by (intros x; vm_compute; discriminate).
  split; [reflexivity|]. split; [reflexivity|]. split; [reflexivity|].
  split; [reflexivity|]. split; [exact Hnot|].
  exact (filterGames_malformed_platform on_pc dump "pc" "g3" junk
           eq_refl eq_refl eq_refl eq_refl Hnot).
Defined.



(** The case of a letter of Latin-1 is set aside as that of the others. *)
Lemma searchGames_lowers_latin1 :
  is_latin1 "Pokémon" = true
  /\ searchGames (Some "POKÉMON") arcade
     = (Return (Games [with_id ("g5", pokemon)]), arcade).
Proof. vm_compute. split; reflexivity. Qed.

Lemma portal_added :
  addGame "g1" (titled "Portal") mall
  = (Return (GameAdded "g1" "No image provided"),
     snd (addGame "g1" (titled "Portal") mall)).
Proof. vm_compute. reflexivity. Qed.

Lemma addGame_resets_aggregate_witness :
  addGame "g1" (titled "Portal") mall
  = (Return (GameAdded "g1" "No image provided"),
     snd (addGame "g1" (titled "Portal") mall))
  /\ "g1" = "g1"
  /\ reviews (core (snd (addGame "g1" (titled "Portal") mall)))
     = reviews (core mall)
  /\ game_field (games (core (snd (addGame "g1" (titled "Portal") mall))))
       "g1" "gameId" = Some (VStr "g1")
  /\ game_field (games (core (snd (addGame "g1" (titled "Portal") mall))))
       "g1" "title" = Some (req_title (titled "Portal"))
  /\ game_field (games (core (snd (addGame "g1" (titled "Portal") mall))))
       "g1" "averageRating" = Some (num 0)
  /\ game_field (games (core (snd (addGame "g1" (titled "Portal") mall))))
       "g1" "totalRatings" = Some (num 0)
  /\ (consistent "g1" (core (snd (addGame "g1" (titled "Portal") mall)))
      <-> valid_ratings "g1" (reviews (core mall)) = []).
Proof.
  split; [exact portal_added|].
  exact (addGame_resets_aggregate "g1" _ _ (titled "Portal") mall _
           portal_added).
Defined.

Lemma addGame_frame_witness :
  addGame "" (titled "Portal") mall
  = (Return (EditionRefused 400 "gameId and title are required"), mall)
  /\ reviews (core mall) = reviews (core mall)
  /\ favorites mall = favorites mall
  /\ users mall = users mall
  /\ (forall g' : string,
         g' <> "" -> games (core mall) !! g' = games (core mall) !! g')
  /\ ((forall x url,
          Return (EditionRefused 400 "gameId and title are required")
          <> Return (GameAdded x url)) ->
      same_stores mall mall)
  /\ ("" = "" \/ ToBoolean (req_title (titled "Portal")) = false ->
      Return (EditionRefused 400 "gameId and title are required")
      = Return (EditionRefused 400 "gameId and title are required")).
Proof.
  assert (H : addGame "" (titled "Portal") mall
              = (Return (EditionRefused 400 "gameId and title are required"),
                 mall))
    by (vm_compute; reflexivity).
  split; [exact H|].
  exact (addGame_frame "" (titled "Portal") mall _ _ H).
Defined.

Lemma retitled :
  updateGame "g1" retitle mall
  = (Return GameUpdated, snd (updateGame "g1" retitle mall)).
Proof. vm_compute. reflexivity. Qed.

Lemma consistent_mall : consistent "g1" (core mall).
Proof. split; vm_compute; reflexivity. Qed.

Lemma updateGame_frame_witness :
  updateGame "g1" retitle mall
  = (Return GameUpdated, snd (updateGame "g1" retitle mall))
  /\ consistent "g1" (core mall)
  /\ consistent "g1" (core (snd (updateGame "g1" retitle mall)))
  /\ game_field (games (core (snd (updateGame "g1" retitle mall))))
       "g1" "totalRatings"
     = game_field (games (core mall)) "g1" "totalRatings".
Proof.
  assert (Hk : "totalRatings" ∉ editable)
    by (apply (bool_decide_unpack _); vm_compute; exact I).
  split; [exact retitled|]. split; [exact consistent_mall|].
  destruct (updateGame_frame "g1" retitle mall _ _ retitled)
    as (_ & _ & Hframe & Hcons & _).
  split; [exact (Hcons "g1" consistent_mall) | exact (Hframe "g1" _ Hk)].
Defined.

Lemma updateGame_writes_given_witness :
  updateGame "g1" retitle mall
  = (Return GameUpdated, snd (updateGame "g1" retitle mall))
  /\ game_field (games (core (snd (updateGame "g1" retitle mall))))
       "g1" "title" = Some (VStr "Portal 2")
  /\ game_field (games (core (snd (updateGame "g1" retitle mall))))
       "g1" "genre" = None
  /\ game_field (games (core (snd (updateGame "g1" retitle mall))))
       "g1" "upcoming" = Some (VBool true).
Proof.
  split; [exact retitled|].
  destruct (updateGame_writes_given "g1" retitle mall _ retitled)
    as (_ & Ht & _ & _ & _ & Hg & Hu & _).
  split; [exact Ht|]. split; [exact Hg | exact Hu].
Defined.

End Catalogue.
